(** * GrayCodeCalibration: a shallow embedding and its verified properties

    This development embeds [src/ProjectionCalibration/GrayCodeCalibration.cpp]
    (the three static functions [process], [getMask] and
    [getCameraProjectionPairs]) and proves the properties that the design
    document states about them.

    Conventions.
    - A [w]-bit unsigned integer is a [Z] kept in range by [to_u8], [to_u16]
      or [to_u32]; a conversion to [int] is [to_i32].  Signed overflow is
      undefined in C++; the embedding computes such values in [Z] and the
      predicate [valid_input] bounds the pixel count so that none occurs.
    - A [cv::Mat] is a record of its two dimensions and its elements in
      row-major order.
    - An access to a heap buffer or to [frames[i]] outside its bounds is
      undefined in C++; here it yields [None].
    - A [for] loop is run by [for_loop] with fuel; [None] also stands for a
      loop that did not finish within the fuel (the 16-bit counters of the
      source wrap around on oversized inputs). *)

From stdpp Require Import base option list numbers.
From Stdlib Require Import ZArith Lia Bool.
From Stdlib Require PrimFloat SpecFloat FloatOps Uint63.

Local Open Scope Z_scope.

(** ** Machine integers *)

Definition to_u8 (x : Z) : Z := x mod 2 ^ 8.
Definition to_u16 (x : Z) : Z := x mod 2 ^ 16.
Definition to_u32 (x : Z) : Z := x mod 2 ^ 32.
Definition to_i32 (x : Z) : Z := (x + 2 ^ 31) mod 2 ^ 32 - 2 ^ 31.

(** ** Heap buffers: a list with checked reads and writes *)

Definition arr_get {A : Type} (a : list A) (i : Z) : option A :=
  if i <? 0 then None else a !! Z.to_nat i.

Definition arr_set {A : Type} (a : list A) (i : Z) (v : A) : option (list A) :=
  if (0 <=? i) && (i <? Z.of_nat (length a)) then Some (<[Z.to_nat i := v]> a)
  else None.

(** ** Loops *)

(** [for (i = start; cond i; i = step i) s = body i s], stopping with
    [None] when the body fails or the fuel runs out. *)
Fixpoint for_loop {S : Type} (fuel : nat) (cond : Z -> bool) (step : Z -> Z)
    (body : Z -> S -> option S) (i : Z) (s : S) : option S :=
  match fuel with
  | O => None
  | Datatypes.S fuel' =>
      if cond i then
        match body i s with
        | Some s' => for_loop fuel' cond step body (step i) s'
        | None => None
        end
      else Some s
  end.

Fixpoint foldlM {S B : Type} (f : S -> B -> option S) (l : list B) (s : S)
    : option S :=
  match l with
  | [] => Some s
  | b :: l' =>
      match f s b with
      | Some s' => foldlM f l' s'
      | None => None
      end
  end.

(** ** cv::Mat and the OpenCV operations the file calls *)

Record Mat (A : Type) : Type := mkMat {
  rows : nat;          (* size[0] *)
  cols : nat;          (* size[1] *)
  data : list A        (* row-major *)
}.
Arguments mkMat {A} _ _ _.
Arguments rows {A} _.
Arguments cols {A} _.
Arguments data {A} _.

Definition same_size {A B : Type} (a : Mat A) (b : Mat B) : bool :=
  (rows a =? rows b)%nat && (cols a =? cols b)%nat.

Definition empty_Mat {A : Type} : Mat A := mkMat 0 0 [].

(** [saturate_cast<short>] and [saturate_cast<uchar>]. *)
Definition sat_i16 (x : Z) : Z := Z.max (- 2 ^ 15) (Z.min (2 ^ 15 - 1) x).
Definition sat_u8 (x : Z) : Z := Z.max 0 (Z.min 255 x).

(** [Mat::empty()] *)
Definition is_empty {A : Type} (m : Mat A) : bool :=
  (rows m =? 0)%nat || (cols m =? 0)%nat.

(** [cv::subtract(src1, src2, dst, mask, CV_16S)].  With an empty mask
    every element receives the saturated difference.  Otherwise, when
    [dst] has another size it is allocated anew and cleared; then every
    element under a non-zero mask entry receives the saturated difference
    and every other element keeps its value.  Operands (or a mask) of
    different sizes make OpenCV throw. *)
Definition subtract_masked_16S (src1 src2 dst mask : Mat Z) : option (Mat Z) :=
  if same_size src1 src2 && (is_empty mask || same_size src1 mask) then
    let difference := zip_with Z.sub (data src1) (data src2) in
    let old :=
      if same_size dst src1 then data dst
      else replicate (length (data src1)) 0 in
    Some (mkMat (rows src1) (cols src1)
      (if is_empty mask then map sat_i16 difference
       else zip_with (fun m ao => if m =? 0 then ao.2 else sat_i16 ao.1)
              (data mask) (zip difference old)))
  else None.

(** [cv::subtract(src1, src2, dst)] on 8-bit images: saturated at zero. *)
Definition subtract_8U (src1 src2 : Mat Z) : option (Mat Z) :=
  if same_size src1 src2 then
    Some (mkMat (rows src1) (cols src1)
      (zip_with (fun a b => sat_u8 (a - b)) (data src1) (data src2)))
  else None.

(** [cv::threshold(src, dst, thresh, 255, cv::THRESH_BINARY)]. *)
Definition threshold_binary (src : Mat Z) (thresh : Z) : Mat Z :=
  mkMat (rows src) (cols src)
    (map (fun v => if thresh <? v then 255 else 0) (data src)).

(** The positions [Mat::forEach] visits, as [(position[0], position[1])]. *)
Definition positions (r c : nat) : list (Z * Z) :=
  row ← seq 0 r; col ← seq 0 c; [(Z.of_nat row, Z.of_nat col)].

(** [m.forEach<T>(f)]: [f] is called once per element with the element and
    its position.  (OpenCV may run the calls in parallel; every call of the
    lambdas below touches the slots of its own pixel only.) *)
Definition forEach {S : Type} (m : Mat Z)
    (f : Z -> Z * Z -> S -> option S) (s : S) : option S :=
  foldlM (fun s pp => f pp.2 pp.1 s) (zip (positions (rows m) (cols m)) (data m)) s.

(** ** GrayCodeCalibration::getCameraProjectionPairs *)

Record Size : Type := mkSize { width : Z; height : Z }.

Definition Point : Type := (Z * Z)%type.
Definition mkPoint (x y : Z) : Point := (x, y).

(** The three buffers allocated with [calloc]: [coordinates] holds two
    16-bit slots per pixel (x at [2 * pos], y at [2 * pos + 1]). *)
Record Buffers : Type := mkBuffers {
  coordinates : list Z;
  temp : list bool;
  error : list Z
}.

Definition calloc_buffers (all_pixels : Z) : Buffers :=
  mkBuffers (replicate (Z.to_nat (2 * all_pixels)) 0)
            (replicate (Z.to_nat all_pixels) false)
            (replicate (Z.to_nat all_pixels) 0).

(** [pixel > -threshold && pixel < threshold] *)
Definition in_noise_band (threshold pixel : Z) : bool :=
  (- threshold <? pixel) && (pixel <? threshold).

(** The body of the two lambdas given to [forEach]; they differ in the
    coordinate slot only: [axis] is 0 in the first loop and 1 in the second. *)
Definition decode_pixel (axis current_error threshold camera_width : Z)
    (pixel : Z) (position : Z * Z) (b : Buffers) : option Buffers :=
  let pos := to_i32 (to_u32 (position.1 * camera_width + position.2)) in
  c ← arr_get (coordinates b) (2 * pos + axis);
  coords1 ← arr_set (coordinates b) (2 * pos + axis) (to_u16 (Z.shiftl c 1));
  t ← arr_get (temp b) pos;
  let t' := xorb t (0 <=? pixel) in
  temp1 ← arr_set (temp b) pos t';
  e ← arr_get (error b) pos;
  error1 ← (if in_noise_band threshold pixel && (e <? current_error)
            then arr_set (error b) pos current_error
            else Some (error b));
  coords2 ← (if t'
             then c1 ← arr_get coords1 (2 * pos + axis);
                  arr_set coords1 (2 * pos + axis) (to_u16 (c1 + 1))
             else Some coords1);
  Some (mkBuffers coords2 temp1 error1).

(** [(uint16_t)ceil(log(double(width)) / log(2.0)) * 2]; the quotient of
    logarithms is taken at its exact value, the base-2 logarithm.  The
    computation in double precision is [column_frame_count_double]. *)
Definition column_frame_count (projection_width : Z) : Z :=
  to_u16 (to_u16 (Z.log2_up projection_width) * 2).

(** The weight of the bit-plane pair at frame index [i], first loop:
    [const uint8_t current_error = (column_frame_count - i) >> 1]. *)
Definition column_error (cfc i : Z) : Z := to_u8 (Z.shiftr (cfc - i) 1).

(** Second loop: [const uint16_t current_error =
    ((uint16_t)frames.size() - column_frame_count - i) >> 1]. *)
Definition row_error (frame_count cfc i : Z) : Z :=
  to_u16 (Z.shiftr (to_u16 frame_count - cfc - i) 1).

(** One iteration of either loop over the bit-plane pairs. *)
Definition decode_plane (axis : Z) (frames : list (Mat Z)) (mask : Mat Z)
    (threshold camera_width current_error : Z) (i : Z)
    (s : Buffers * Mat Z) : option (Buffers * Mat Z) :=
  f1 ← arr_get frames i;
  f2 ← arr_get frames (i + 1);
  diff ← subtract_masked_16S f1 f2 s.2 mask;
  b ← forEach diff (decode_pixel axis current_error threshold camera_width) s.1;
  Some (b, diff).

(** [for (int i = 0; i < column_frame_count; i += 2)] *)
Definition decode_columns (fuel : nat) (frames : list (Mat Z)) (mask : Mat Z)
    (threshold camera_width cfc : Z) (s : Buffers * Mat Z)
    : option (Buffers * Mat Z) :=
  for_loop fuel (fun i => i <? cfc) (fun i => i + 2)
    (fun i => decode_plane 0 frames mask threshold camera_width
                (column_error cfc i) i)
    0 s.

(** [for (uint16_t i = column_frame_count; i < frames.size(); i += 2)] *)
Definition decode_rows (fuel : nat) (frames : list (Mat Z)) (mask : Mat Z)
    (threshold camera_width cfc : Z) (s : Buffers * Mat Z)
    : option (Buffers * Mat Z) :=
  let frame_count := Z.of_nat (length frames) in
  for_loop fuel (fun i => i <? frame_count) (fun i => to_u16 (i + 2))
    (fun i => decode_plane 1 frames mask threshold camera_width
                (row_error frame_count cfc i) i)
    cfc s.

(** The histogram loop over the [error] buffer: a level below 4
    increments its entry of [error_counts]; [i] is the offset of the
    walking pointer. *)
Definition count_errors (fuel : nat) (error : list Z) (all_pixels : Z)
    (error_counts : list Z) : option (list Z) :=
  for_loop fuel (fun i => i <? all_pixels) (fun i => to_u32 (i + 1))
    (fun i counts =>
       e ← arr_get error i;
       if e <? 4 then c ← arr_get counts e; arr_set counts e (c + 1)
       else Some counts)
    0 error_counts.

(** [for (; allowed_error < 4 && error_counts[allowed_error] < minPointCount;
          allowed_error++, error_counts[allowed_error] += error_counts[allowed_error - 1]);]
    The state is the pair of [allowed_error] and [error_counts]. *)
Fixpoint select_allowed_error (fuel : nat) (minPointCount : Z)
    (allowed_error : Z) (error_counts : list Z) : option (Z * list Z) :=
  match fuel with
  | O => None
  | S fuel' =>
      if allowed_error <? 4 then
        c ← arr_get error_counts allowed_error;
        if c <? minPointCount then
          let allowed_error' := allowed_error + 1 in
          c1 ← arr_get error_counts allowed_error';
          c0 ← arr_get error_counts (allowed_error' - 1);
          counts' ← arr_set error_counts allowed_error' (c1 + c0);
          select_allowed_error fuel' minPointCount allowed_error' counts'
        else Some (allowed_error, error_counts)
      else Some (allowed_error, error_counts)
  end.

(** The tolerance selector: the histogram, the selection loop, and the
    capacity handed to [reserve] (when [allowed_error < 4]; [None] when the
    reservation is skipped). *)
Definition select_tolerance (fuel : nat) (error : list Z)
    (all_pixels minPointCount : Z) : option (Z * option Z) :=
  (* error_counts: five zeroed ints from calloc *)
  counts ← count_errors fuel error all_pixels (replicate 5 0);
  sel ← select_allowed_error fuel minPointCount 0 counts;
  let allowed_error := sel.1 in
  Some (allowed_error,
        if allowed_error <? 4 then arr_get sel.2 allowed_error else None).

(** The state of the final scan: the two walking pointers (as indices
    into [coordinates] and [error]) and the two output vectors. *)
Record Scan : Type := mkScan {
  current_point : Z;
  current_error : Z;
  cameraPoints : list Point;
  projectionPoints : list Point
}.

(** The body of the inner loop of the final scan, with the increments
    [current_point += 2, current_error++] of its header.  The chain of
    [&&] reads the error level only when the four bounds tests hold. *)
Definition scan_pixel (b : Buffers) (projectionSize : Size)
    (allowed_error : Z) (y x : Z) (s : Scan) : option Scan :=
  p_x ← arr_get (coordinates b) (current_point s);
  p_y ← arr_get (coordinates b) (current_point s + 1);
  keep ← (if (0 <=? p_x) && (p_x <? width projectionSize) && (0 <=? p_y)
             && (p_y <? height projectionSize)
          then e ← arr_get (error b) (current_error s);
               Some (e <=? allowed_error)
          else Some false);
  let s' :=
    if keep : bool
    then mkScan (current_point s) (current_error s)
           (cameraPoints s ++ [mkPoint x y])
           (projectionPoints s ++ [mkPoint p_x p_y])
    else s in
  Some (mkScan (current_point s' + 2) (current_error s' + 1)
          (cameraPoints s') (projectionPoints s')).

(** [for (uint16_t y = 0; y < camera_height; y++)
       for (uint16_t x = 0; x < camera_width; x++, ...)] *)
Definition scan_pixels (fuel : nat) (b : Buffers) (projectionSize : Size)
    (allowed_error camera_width camera_height : Z) (s : Scan) : option Scan :=
  for_loop fuel (fun y => y <? camera_height) (fun y => to_u16 (y + 1))
    (fun y =>
       for_loop fuel (fun x => x <? camera_width) (fun x => to_u16 (x + 1))
         (scan_pixel b projectionSize allowed_error y) 0)
    0 s.

(** Everything one call computes: the decoded buffers, the tolerance, the
    capacity reserved for the output vectors (when it is), and the two
    output vectors. *)
Record Outcome : Type := mkOutcome {
  decoded : Buffers;
  tolerance : Z;
  reserved : option Z;
  out_camera : list Point;
  out_projection : list Point
}.

Definition getCameraProjectionPairs_run (fuel : nat)
    (cameraPoints0 projectionPoints0 : list Point) (frames : list (Mat Z))
    (projectionSize : Size) (mask : Mat Z) (minPointCount threshold : Z)
    : option Outcome :=
  let cfc := column_frame_count (width projectionSize) in
  f0 ← arr_get frames 0;
  let camera_height := to_u32 (Z.of_nat (rows f0)) in
  let camera_width := to_u32 (Z.of_nat (cols f0)) in
  let all_pixels := to_u32 (camera_width * camera_height) in
  let b0 := calloc_buffers all_pixels in
  s1 ← decode_columns fuel frames mask threshold camera_width cfc (b0, empty_Mat);
  (* memset(temp, 0, all_pixels * sizeof(bool)) *)
  let b1 := mkBuffers (coordinates s1.1)
              (replicate (Z.to_nat all_pixels) false) (error s1.1) in
  s2 ← decode_rows fuel frames mask threshold camera_width cfc (b1, s1.2);
  let b := s2.1 in
  sel ← select_tolerance fuel (error b) all_pixels minPointCount;
  let allowed_error := sel.1 in
  let res := sel.2 in
  sc ← scan_pixels fuel b projectionSize allowed_error camera_width camera_height
          (mkScan 0 0 cameraPoints0 projectionPoints0);
  Some (mkOutcome b allowed_error res (cameraPoints sc) (projectionPoints sc)).

(** The function as the caller sees it: the two vectors after the call. *)
Definition getCameraProjectionPairs (fuel : nat)
    (cameraPoints0 projectionPoints0 : list Point) (frames : list (Mat Z))
    (projectionSize : Size) (mask : Mat Z) (minPointCount threshold : Z)
    : option (list Point * list Point) :=
  o ← getCameraProjectionPairs_run fuel cameraPoints0 projectionPoints0 frames
        projectionSize mask minPointCount threshold;
  Some (out_camera o, out_projection o).

(** ** GrayCodeCalibration::getMask *)

Definition BGR : Type := (Z * Z * Z)%type.

(** The OpenCV image operations whose arithmetic lies outside this
    repository, with the two facts about them that the proofs use: a
    Gaussian blur leaves an all-zero image as it is, and the level chosen
    by Otsu's method is a histogram bin, hence not negative. *)
Class ImgProc : Type := {
  gray_of_bgr : BGR -> Z;
  GaussianBlur_5x5 : Mat Z -> Mat Z;
  otsu_threshold : Mat Z -> Z;
  GaussianBlur_zero :
    forall m : Mat Z, Forall (fun v => v = 0) (data m) -> GaussianBlur_5x5 m = m;
  otsu_threshold_nonneg : forall m : Mat Z, 0 <= otsu_threshold m
}.

(** [cv::cvtColor(src, dst, cv::COLOR_BGR2GRAY)]; OpenCV throws on an
    empty source. *)
Definition cvtColor_BGR2GRAY `{ImgProc} (src : Mat BGR) : option (Mat Z) :=
  if is_empty src then None
  else Some (mkMat (rows src) (cols src) (map gray_of_bgr (data src))).

Definition getMask `{ImgProc} (whiteFrame blackFrame : Mat BGR)
    (useOtsu : bool) (threshold : Z) : option (Mat Z) :=
  processedBlackFrame ← cvtColor_BGR2GRAY blackFrame;
  processedWhiteFrame ← cvtColor_BGR2GRAY whiteFrame;
  difference ← subtract_8U processedWhiteFrame processedBlackFrame;
  if useOtsu then
    let difference := GaussianBlur_5x5 difference in
    Some (threshold_binary difference (otsu_threshold difference))
  else
    Some (threshold_binary difference threshold).

(** A mask is all-false when it has no non-zero element. *)
Definition all_false (mask : Mat Z) : Prop := Forall (fun v => v = 0) (data mask).

(** ** GrayCodeCalibration::process *)

(** The default arguments of [getMask] and [getCameraProjectionPairs] are
    declared in GrayCodeCalibration.h, and
    [DelaunayBasedCorrection::findMaps] is defined in another file; they
    are parameters here. *)
Record Defaults : Type := mkDefaults {
  default_useOtsu : bool;
  default_mask_threshold : Z;
  default_minPointCount : Z;
  default_threshold : Z
}.

(** The loop that fills [processed_frames]:
    [for (int i = 2; i < frames.size(); i++)]. *)
Definition convert_frames `{ImgProc} (fuel : nat) (frames : list (Mat BGR))
    : option (list (Mat Z)) :=
  for_loop fuel (fun i => i <? Z.of_nat (length frames)) (fun i => i + 1)
    (fun i processed_frames =>
       f ← arr_get frames i;
       frame ← cvtColor_BGR2GRAY f;
       Some (processed_frames ++ [frame]))
    2 [].

Definition process `{ImgProc} {Homography Maps : Type} (dflt : Defaults)
    (findMaps : list Point -> list Point -> Size -> Homography -> Z -> Z -> Maps)
    (fuel : nat) (frames : list (Mat BGR)) (projectionSize : Size)
    (initial_homography : Homography)
    (meshRefinementCount meshRefinementDistLimit : Z) : option Maps :=
  processed_frames ← convert_frames fuel frames;
  _ ← arr_get processed_frames 0;
  white ← arr_get frames 0;
  black ← arr_get frames 1;
  mask ← getMask white black (default_useOtsu dflt) (default_mask_threshold dflt);
  pairs ← getCameraProjectionPairs fuel [] [] processed_frames projectionSize
             mask (default_minPointCount dflt) (default_threshold dflt);
  Some (findMaps pairs.1 pairs.2 projectionSize initial_homography
          meshRefinementCount meshRefinementDistLimit).

(** ** Well-formed inputs of getCameraProjectionPairs *)

(** The camera size: the size of the first frame. *)
Definition camera_rows (frames : list (Mat Z)) : nat :=
  match frames with f0 :: _ => rows f0 | [] => 0%nat end.
Definition camera_cols (frames : list (Mat Z)) : nat :=
  match frames with f0 :: _ => cols f0 | [] => 0%nat end.

Definition well_sized (r c : nat) (m : Mat Z) : bool :=
  (rows m =? r)%nat && (cols m =? c)%nat && (length (data m) =? r * c)%nat.

(** The inputs on which the C++ function has defined behaviour and that the
    theorems below cover: a frame sequence whose frames and mask share one
    size, not empty, that fits the 16-bit scan counters, a projector width from 1 to
    2^28 (where the double-precision quotient of logarithms, rounded up,
    is the base-2 logarithm rounded up), the column pairs present, the
    row frames in pairs, and a frame count the 16-bit loop counter can
    pass. *)
Definition valid_input (frames : list (Mat Z)) (projectionSize : Size)
    (mask : Mat Z) : bool :=
  match frames with
  | [] => false
  | f0 :: _ =>
      forallb (well_sized (rows f0) (cols f0)) frames
      && well_sized (rows f0) (cols f0) mask
      && (Z.of_nat (rows f0) <? 2 ^ 16) && (Z.of_nat (cols f0) <? 2 ^ 16)
      && (0 <? Z.of_nat (rows f0 * cols f0))
      && (Z.of_nat (rows f0 * cols f0) <? 2 ^ 30)
      && (1 <=? width projectionSize) && (width projectionSize <=? 2 ^ 28)
      && (column_frame_count (width projectionSize) <=? Z.of_nat (length frames))
      && Z.even (Z.of_nat (length frames)
                 - column_frame_count (width projectionSize))
      && (Z.of_nat (length frames) <? 2 ^ 16 - 2)
  end.

(** Fuel that lets every loop of one call finish. *)
Definition enough_fuel (fuel : nat) (frames : list (Mat Z)) : Prop :=
  match frames with
  | [] => True
  | f0 :: _ => (length frames + rows f0 + cols f0 + rows f0 * cols f0 + 5 < fuel)%nat
  end.

(** ** The decoder, pixel by pixel

    The same computation told per pixel instead of per buffer: each camera
    pixel owns one [PixelState]; a bit-plane pair updates every state from
    the pixel's signed difference.  [decode_model] is compared with the
    buffers of [getCameraProjectionPairs_run] in [run_model]. *)

Record PixelState : Type := mkPixel {
  px_x : Z;
  px_y : Z;
  px_temp : bool;
  px_error : Z
}.

(** A pixel state whose three numbers fit their 16-bit slots. *)
Definition pixel_ok (s : PixelState) : Prop :=
  0 <= px_x s < 2 ^ 16 /\ 0 <= px_y s < 2 ^ 16 /\ 0 <= px_error s < 2 ^ 16.

Definition bit_step (c : Z) (t' : bool) : Z :=
  let c1 := to_u16 (Z.shiftl c 1) in if t' then to_u16 (c1 + 1) else c1.

Definition error_step (threshold w pixel e : Z) : Z :=
  if in_noise_band threshold pixel && (e <? w) then w else e.

Definition pixel_step (axis w threshold : Z) (pixel : Z) (s : PixelState)
    : PixelState :=
  let t' := xorb (px_temp s) (0 <=? pixel) in
  mkPixel (if axis =? 0 then bit_step (px_x s) t' else px_x s)
          (if axis =? 0 then px_y s else bit_step (px_y s) t')
          t'
          (error_step threshold w pixel (px_error s)).

Definition clear_temp (s : PixelState) : PixelState :=
  mkPixel (px_x s) (px_y s) false (px_error s).

Fixpoint coords_of (ps : list PixelState) : list Z :=
  match ps with
  | [] => []
  | s :: ps' => px_x s :: px_y s :: coords_of ps'
  end.

Definition buffers_of (ps : list PixelState) : Buffers :=
  mkBuffers (coords_of ps) (map px_temp ps) (map px_error ps).

(** The signed difference image of one bit-plane pair: zero outside the mask. *)
Definition plane_diff (mask f1 f2 : Mat Z) : list Z :=
  zip_with (fun m d => if m =? 0 then 0 else sat_i16 d)
    (data mask) (zip_with Z.sub (data f1) (data f2)).

(** What the difference image holds between two bit-plane pairs: zeros
    outside the mask, once it has the frame size. *)
Definition diff_inv (r c : nat) (mask dst : Mat Z) : Prop :=
  rows dst = r -> cols dst = c ->
  length (data dst) = (r * c)%nat /\
  forall p : nat, data mask !! p = Some 0 -> data dst !! p = Some 0.

Fixpoint pairs_of {A : Type} (l : list A) : list (A * A) :=
  match l with
  | a :: b :: l' => (a, b) :: pairs_of l'
  | _ => []
  end.

(** A bit-plane pair with its weight. *)
Definition Plane : Type := (Z * (Mat Z * Mat Z))%type.

(** The pairs of the horizontal axis: the first [column_frame_count] frames. *)
Definition column_planes (frames : list (Mat Z)) (cfc : Z) : list Plane :=
  imap (fun k fp => (column_error cfc (2 * Z.of_nat k), fp))
    (pairs_of (take (Z.to_nat cfc) frames)).

(** The pairs of the vertical axis: all the frames after them. *)
Definition row_planes (frames : list (Mat Z)) (cfc : Z) : list Plane :=
  imap (fun j fp =>
          (row_error (Z.of_nat (length frames)) cfc (cfc + 2 * Z.of_nat j), fp))
    (pairs_of (drop (Z.to_nat cfc) frames)).

Definition decode_planes (axis threshold : Z) (mask : Mat Z)
    (planes : list Plane) (ps : list PixelState) : list PixelState :=
  foldl (fun ps (pl : Plane) =>
           zip_with (pixel_step axis pl.1 threshold)
             (plane_diff mask pl.2.1 pl.2.2) ps)
    ps planes.

Definition decode_model (frames : list (Mat Z)) (projectionSize : Size)
    (mask : Mat Z) (threshold : Z) : list PixelState :=
  let cfc := column_frame_count (width projectionSize) in
  let n := match frames with f0 :: _ => (rows f0 * cols f0)%nat | [] => 0%nat end in
  let ps1 := decode_planes 0 threshold mask (column_planes frames cfc)
               (replicate n (mkPixel 0 0 false 0)) in
  decode_planes 1 threshold mask (row_planes frames cfc) (map clear_temp ps1).

(** ** The tolerance and the final scan, told from the pixel states *)

Fixpoint count_if (P : Z -> bool) (l : list Z) : Z :=
  match l with
  | [] => 0
  | e :: l' => (if P e then 1 else 0) + count_if P l'
  end.

(** One round of the histogram loop. *)
Definition bump (counts : list Z) (e : Z) : list Z :=
  if e <? 4 then <[Z.to_nat e := default 0 (counts !! Z.to_nat e) + 1]> counts
  else counts.

(** The number of pixels at error level [l], and at level [l] or below. *)
Definition level_count (error : list Z) (l : Z) : Z :=
  count_if (fun e => e =? l) error.
Definition cumulative (error : list Z) (l : Z) : Z :=
  count_if (fun e => e <=? l) error.

(** The first of the levels 0, 1, 2, 3 whose cumulative count reaches
    [minPointCount], and 4 when none does. *)
Definition tolerance_model (error : list Z) (minPointCount : Z) : Z :=
  if minPointCount <=? cumulative error 0 then 0
  else if minPointCount <=? cumulative error 1 then 1
  else if minPointCount <=? cumulative error 2 then 2
  else if minPointCount <=? cumulative error 3 then 3
  else 4.

Definition reserved_model (error : list Z) (minPointCount : Z) : option Z :=
  let t := tolerance_model error minPointCount in
  if t <? 4 then Some (cumulative error t) else None.

(** The test of the final scan on one pixel state. *)
Definition qualifies (projectionSize : Size) (allowed_error : Z)
    (s : PixelState) : bool :=
  (0 <=? px_x s) && (px_x s <? width projectionSize) && (0 <=? px_y s)
  && (px_y s <? height projectionSize) && (px_error s <=? allowed_error).

(** The same test without its two comparisons against zero. *)
Definition below_upper_bounds (projectionSize : Size) (allowed_error : Z)
    (s : PixelState) : bool :=
  (px_x s <? width projectionSize) && (px_y s <? height projectionSize)
  && (px_error s <=? allowed_error).

(** The body of the final scan with its two comparisons against zero
    left out, for comparison with [scan_pixel]. *)
Definition scan_pixel_upper_only (b : Buffers) (projectionSize : Size)
    (allowed_error : Z) (y x : Z) (s : Scan) : option Scan :=
  p_x ← arr_get (coordinates b) (current_point s);
  p_y ← arr_get (coordinates b) (current_point s + 1);
  keep ← (if (p_x <? width projectionSize) && (p_y <? height projectionSize)
          then e ← arr_get (error b) (current_error s);
               Some (e <=? allowed_error)
          else Some false);
  let s' :=
    if keep : bool
    then mkScan (current_point s) (current_error s)
           (cameraPoints s ++ [mkPoint x y])
           (projectionPoints s ++ [mkPoint p_x p_y])
    else s in
  Some (mkScan (current_point s' + 2) (current_error s' + 1)
          (cameraPoints s') (projectionPoints s')).

(** The pair that camera pixel [(x, y)] contributes, if any. *)
Definition scan_point (ps : list PixelState) (projectionSize : Size)
    (allowed_error : Z) (w y x : nat) : list (Point * Point) :=
  match ps !! (y * w + x)%nat with
  | Some s =>
      if qualifies projectionSize allowed_error s
      then [(mkPoint (Z.of_nat x) (Z.of_nat y), mkPoint (px_x s) (px_y s))]
      else []
  | None => []
  end.

(** The pairs of all camera pixels in row-major order. *)
Definition scan_model (ps : list PixelState) (projectionSize : Size)
    (allowed_error : Z) (w h : nat) : list (Point * Point) :=
  y ← seq 0 h; x ← seq 0 w; scan_point ps projectionSize allowed_error w y x.

(** The outcome of one call, told from the pixel states. *)
Definition outcome_model (cameraPoints0 projectionPoints0 : list Point)
    (frames : list (Mat Z)) (projectionSize : Size) (mask : Mat Z)
    (minPointCount threshold : Z) : Outcome :=
  let ps := decode_model frames projectionSize mask threshold in
  let t := tolerance_model (map px_error ps) minPointCount in
  let pairs := scan_model ps projectionSize t
                 (camera_cols frames) (camera_rows frames) in
  mkOutcome (buffers_of ps) t (reserved_model (map px_error ps) minPointCount)
    (cameraPoints0 ++ pairs.*1) (projectionPoints0 ++ pairs.*2).

(** ** One pixel through the bit-plane pairs *)

(** The weight and the pixel's signed difference of every bit-plane pair,
    in decode order: the column pairs, then the row pairs. *)
Definition pixel_trace (frames : list (Mat Z)) (projectionSize : Size)
    (mask : Mat Z) (p : nat) : list (Z * Z) :=
  let cfc := column_frame_count (width projectionSize) in
  map (fun pl : Plane => (pl.1, default 0 (plane_diff mask pl.2.1 pl.2.2 !! p)))
    (column_planes frames cfc ++ row_planes frames cfc).

(** The weights recorded for a pixel: those of the pairs at which its
    difference lay within the noise band. *)
Fixpoint recorded_weights (threshold : Z) (trace : list (Z * Z)) : list Z :=
  match trace with
  | [] => []
  | wd :: trace' =>
      if in_noise_band threshold wd.2
      then wd.1 :: recorded_weights threshold trace'
      else recorded_weights threshold trace'
  end.

Definition max_weight (ws : list Z) : Z := foldr Z.max 0 ws.

(** ** Synthetic noise-free captures

    The test scenario of the design document: every camera pixel is given
    a projector coordinate; a bit-plane pair shows one bit of its Gray code
    as full white on black and the inverse. *)

Definition gray_code (v : Z) : Z := Z.lxor v (Z.shiftr v 1).

Definition pattern_frame (r c : nat) (code : list Z) (bit : Z) : Mat Z :=
  mkMat r c (map (fun v => if Z.testbit (gray_code v) bit then 255 else 0) code).

Definition inverse_frame (r c : nat) (code : list Z) (bit : Z) : Mat Z :=
  mkMat r c (map (fun v => if Z.testbit (gray_code v) bit then 0 else 255) code).

(** The pairs of one axis, most significant bit first. *)
Definition gray_frames (r c : nat) (code : list Z) (nbits : nat) : list (Mat Z) :=
  k ← seq 0 nbits;
  [pattern_frame r c code (Z.of_nat (nbits - 1 - k));
   inverse_frame r c code (Z.of_nat (nbits - 1 - k))].

Definition synthetic_frames (r c : nat) (xs ys : list Z) (nx ny : nat)
    : list (Mat Z) :=
  gray_frames r c xs nx ++ gray_frames r c ys ny.

(** All camera points in row-major order. *)
Definition camera_points (w h : nat) : list Point :=
  y ← seq 0 h; x ← seq 0 w; [mkPoint (Z.of_nat x) (Z.of_nat y)].

(** What makes a synthetic capture noise-free and decodable: one
    coordinate pair per camera pixel, inside the projector image and the
    range of the row bit-planes, a projector no wider than the 16-bit
    accumulators, and a mask that is true everywhere. *)
Definition synthetic_ok (r c : nat) (xs ys : list Z) (ny : nat)
    (projectionSize : Size) (mask : Mat Z) : bool :=
  (length xs =? r * c)%nat && (length ys =? r * c)%nat
  && forallb (fun x => (0 <=? x) && (x <? width projectionSize)) xs
  && forallb (fun y => (0 <=? y) && (y <? height projectionSize)
                       && (y <? 2 ^ Z.of_nat ny)) ys
  && (width projectionSize <=? 2 ^ 16) && (ny <=? 16)%nat
  && forallb (fun m => negb (m =? 0)) (data mask).

(** The scenario of the design document: a 10x10 camera that sees the
    whole image of an 8x8 projector, three bit-plane pairs per axis, an
    all-true mask. *)
Definition scenario_xs : list Z := (fun rc : Z * Z => rc.2 * 8 / 10) <$> positions 10 10.
Definition scenario_ys : list Z := (fun rc : Z * Z => rc.1 * 8 / 10) <$> positions 10 10.
Definition scenario_frames : list (Mat Z) :=
  synthetic_frames 10 10 scenario_xs scenario_ys 3 3.
Definition scenario_mask : Mat Z := mkMat 10 10 (replicate 100 255).
Definition scenario_size : Size := mkSize 8 8.

(** The scenario with the bit-plane pair at frame index [i] replaced by
    two equal frames, so that the bit of that pair is undecidable (a zero
    difference) at every pixel. *)
Definition blank_frame : Mat Z := mkMat 10 10 (replicate 100 128).
Definition scenario_with_blank_pair (i : nat) : list (Mat Z) :=
  <[i := blank_frame]> (<[S i := blank_frame]> scenario_frames).

(** An instance for evaluating examples: the fixed-point luma of OpenCV's
    8-bit conversion, and stand-ins for the blur and for Otsu's level.  The
    examples below take the fixed-threshold branch of [getMask], which
    uses [gray_of_bgr] only. *)
Definition example_ImgProc : ImgProc :=
  {| gray_of_bgr := fun bgr : BGR =>
       (bgr.1.1 * 1868 + bgr.1.2 * 9617 + bgr.2 * 4899 + 8192) / 16384;
     GaussianBlur_5x5 := fun m => m;
     otsu_threshold := fun _ => 0;
     GaussianBlur_zero := fun m _ => eq_refl;
     otsu_threshold_nonneg := fun _ => Z.le_refl 0 |}.

(** A colour frame of one pixel. *)
Definition one_pixel (b g r : Z) : Mat BGR := mkMat 1 1 [(b, g, r)].

(** ** Well-formed captures of process *)

(** What [cv::cvtColor] makes of a frame that is not empty. *)
Definition gray_frame `{ImgProc} (f : Mat BGR) : Mat Z :=
  mkMat (rows f) (cols f) (map gray_of_bgr (data f)).

(** The captures on which [process] has defined behaviour up to its call
    of [findMaps]: a white frame, a black frame and at least one pattern
    frame, all of one size and not empty, and pattern frames that make a
    valid input of [getCameraProjectionPairs]. *)
Definition valid_capture (frames : list (Mat BGR)) (projectionSize : Size)
    : bool :=
  match frames with
  | white :: black :: rest =>
      forallb (fun f : Mat BGR =>
                 (rows f =? rows white)%nat && (cols f =? cols white)%nat
                 && (length (data f) =? rows white * cols white)%nat) frames
      && negb (length rest =? 0)%nat
      && (Z.of_nat (rows white) <? 2 ^ 16) && (Z.of_nat (cols white) <? 2 ^ 16)
      && (0 <? Z.of_nat (rows white * cols white))
      && (Z.of_nat (rows white * cols white) <? 2 ^ 30)
      && (1 <=? width projectionSize) && (width projectionSize <=? 2 ^ 28)
      && (column_frame_count (width projectionSize) <=? Z.of_nat (length rest))
      && Z.even (Z.of_nat (length rest)
                 - column_frame_count (width projectionSize))
      && (Z.of_nat (length rest) <? 2 ^ 16 - 2)
  | _ => false
  end.

(** ** Line 67 in double precision

    [column_frame_count] above takes the quotient of logarithms at its
    exact value.  The code computes it in double precision:
    [(uint16_t)ceil(log(double(projectionSize.width)) / log(2.0)) * 2].
    Here is that computation on IEEE 754 binary64 numbers (Rocq's
    primitive floats), with the division rounded to nearest. *)

(** [log] of the C library, whose code lies outside this repository. *)
Class LibM : Type := { log : PrimFloat.float -> PrimFloat.float }.

(** [double(i)] for an [int] [i]: every [int] is a double. *)
Definition double_of_int (i : Z) : PrimFloat.float :=
  if i <? 0 then PrimFloat.opp (PrimFloat.of_uint63 (Uint63.of_Z (- i)))
  else PrimFloat.of_uint63 (Uint63.of_Z i).

(** [(uint16_t)ceil(x)]: the least integer that is not below [x], when it
    lies in 0..65535; the conversion of any other value, of an infinity
    or of a NaN is undefined. *)
Definition ceil_to_uint16 (x : PrimFloat.float) : option Z :=
  match FloatOps.Prim2SF x with
  | SpecFloat.S754_zero _ => Some 0
  | SpecFloat.S754_finite s m e =>
      let n := if s then Z.neg m else Z.pos m in
      let c := if 0 <=? e then n * 2 ^ e else - ((- n) / 2 ^ (- e)) in
      if (0 <=? c) && (c <? 2 ^ 16) then Some c else None
  | _ => None
  end.

Definition column_frame_count_double `{LibM} (projection_width : Z)
    : option Z :=
  c ← ceil_to_uint16
        (PrimFloat.div (log (double_of_int projection_width))
           (log PrimFloat.two));
  Some (to_u16 (c * 2)).

(** The natural logarithms of 2 and of 2^29 rounded to the nearest double,
    as a mantissa and a binary exponent: 0x1.62e42fefa39efp-1 and
    0x1.419ecb712c481p+4. *)
Definition ln_2 : PrimFloat.float :=
  FloatOps.SF2Prim (SpecFloat.S754_finite false 6243314768165359 (-53)).
Definition ln_2_pow_29 : PrimFloat.float :=
  FloatOps.SF2Prim (SpecFloat.S754_finite false 5658004008649857 (-48)).

(** An instance for evaluating examples: a [log] that returns these two
    values at 2 and at 2^29 (the examples use no other argument). *)
Definition example_LibM : LibM :=
  {| log := fun x =>
       if PrimFloat.eqb x PrimFloat.two then ln_2
       else if PrimFloat.eqb x (double_of_int (2 ^ 29)) then ln_2_pow_29
       else PrimFloat.zero |}.

(** ** The decoding part of getCameraProjectionPairs

    Lines 67 to 104 on their own: the buffers after both loops, as
    [getCameraProjectionPairs_run] computes them before it turns to the
    histogram (see [run_phases]). *)
Definition decode_buffers (fuel : nat) (frames : list (Mat Z))
    (projectionSize : Size) (mask : Mat Z) (threshold : Z) : option Buffers :=
  let cfc := column_frame_count (width projectionSize) in
  f0 ← arr_get frames 0;
  let camera_height := to_u32 (Z.of_nat (rows f0)) in
  let camera_width := to_u32 (Z.of_nat (cols f0)) in
  let all_pixels := to_u32 (camera_width * camera_height) in
  let b0 := calloc_buffers all_pixels in
  s1 ← decode_columns fuel frames mask threshold camera_width cfc (b0, empty_Mat);
  let b1 := mkBuffers (coordinates s1.1)
              (replicate (Z.to_nat all_pixels) false) (error s1.1) in
  s2 ← decode_rows fuel frames mask threshold camera_width cfc (b1, s1.2);
  Some s2.1.

(** [valid_input] without its two bounds on the camera size: the inputs
    on which the two loops and the histogram have defined behaviour,
    whatever the 16-bit counters of the final scan can reach. *)
Definition valid_input_any_camera (frames : list (Mat Z))
    (projectionSize : Size) (mask : Mat Z) : bool :=
  match frames with
  | [] => false
  | f0 :: _ =>
      forallb (well_sized (rows f0) (cols f0)) frames
      && well_sized (rows f0) (cols f0) mask
      && (0 <? Z.of_nat (rows f0 * cols f0))
      && (Z.of_nat (rows f0 * cols f0) <? 2 ^ 30)
      && (1 <=? width projectionSize) && (width projectionSize <=? 2 ^ 28)
      && (column_frame_count (width projectionSize) <=? Z.of_nat (length frames))
      && Z.even (Z.of_nat (length frames)
                 - column_frame_count (width projectionSize))
      && (Z.of_nat (length frames) <? 2 ^ 16 - 2)
  end.

(** A capture of one row pair by a camera of one row and 65536 columns. *)
Definition wide_frame (v : Z) : Mat Z :=
  mkMat 1 (Z.to_nat 65536) (replicate (Z.to_nat 65536) v).
Definition wide_frames : list (Mat Z) := [wide_frame 255; wide_frame 0].

(** * Properties *)

(** ** Machine integers and buffers *)

Lemma to_u16_range (x : Z) : 0 <= to_u16 x < 2 ^ 16.
Proof. unfold to_u16. apply Z.mod_pos_bound. lia. Qed.

Lemma to_u16_small (x : Z) : 0 <= x < 2 ^ 16 -> to_u16 x = x.
Proof. intros. unfold to_u16. apply Z.mod_small. lia. Qed.

Lemma to_u32_small (x : Z) : 0 <= x < 2 ^ 32 -> to_u32 x = x.
Proof. intros. unfold to_u32. apply Z.mod_small. lia. Qed.

Lemma to_u8_small (x : Z) : 0 <= x < 2 ^ 8 -> to_u8 x = x.
Proof. intros. unfold to_u8. apply Z.mod_small. lia. Qed.

Lemma to_i32_small (x : Z) : 0 <= x < 2 ^ 31 -> to_i32 x = x.
Proof. intros. unfold to_i32. rewrite Z.mod_small; lia. Qed.

Lemma arr_get_nat {A : Type} (a : list A) (i : nat) :
  arr_get a (Z.of_nat i) = a !! i.
Proof.
  unfold arr_get. destruct (Z.ltb_spec (Z.of_nat i) 0); [lia|].
  by rewrite Nat2Z.id.
Qed.

Lemma arr_set_nat {A : Type} (a : list A) (i : nat) (v : A) :
  (i < length a)%nat -> arr_set a (Z.of_nat i) v = Some (<[i := v]> a).
Proof.
  intros Hi. unfold arr_set.
  destruct (Z.leb_spec 0 (Z.of_nat i)); [|lia].
  destruct (Z.ltb_spec (Z.of_nat i) (Z.of_nat (length a))); [|lia].
  by rewrite Nat2Z.id.
Qed.

(** ** Loops *)

Lemma foldlM_app {S B : Type} (f : S -> B -> option S) (l1 l2 : list B) (s : S) :
  foldlM f (l1 ++ l2) s = foldlM f l1 s ≫= foldlM f l2.
Proof.
  revert s. induction l1 as [|b l1 IH]; intros s; simpl; [done|].
  destruct (f s b); simpl; [apply IH|done].
Qed.

(** A loop whose counter advances by [d] from [start] for [m] rounds and
    then fails its test is the fold of its body over the [m] counter values. *)
Lemma for_loop_fold {S : Type} (cond : Z -> bool) (step : Z -> Z)
    (body : Z -> S -> option S) (d : Z) (m : nat) :
  forall (fuel : nat) (start : Z) (s : S),
    (m < fuel)%nat ->
    (forall k : nat, (k < m)%nat ->
       cond (start + d * Z.of_nat k) = true /\
       step (start + d * Z.of_nat k) = start + d * Z.of_nat (Datatypes.S k)) ->
    cond (start + d * Z.of_nat m) = false ->
    for_loop fuel cond step body start s =
    foldlM (fun s k => body (start + d * Z.of_nat k) s) (seq 0 m) s.
Proof.
  induction m as [|m IH]; intros fuel start s Hfuel Hrun Hstop.
  - destruct fuel as [|fuel]; [lia|]. simpl.
    replace (start + d * Z.of_nat 0) with start in Hstop by lia. by rewrite Hstop.
  - destruct fuel as [|fuel]; [lia|]. simpl.
    destruct (Hrun 0%nat ltac:(lia)) as [Hc Hs].
    replace (start + d * Z.of_nat 0) with start in * by lia.
    rewrite Hc, Hs. destruct (body start s) as [s'|]; [|done].
    rewrite <- seq_shift.
    rewrite (IH fuel (start + d * Z.of_nat 1) s'); [| lia | |].
    + clear. generalize (seq 0 m) as l. intros l. revert s'.
      induction l as [|k l IHl]; intros s'; simpl; [done|].
      replace (start + d * Z.of_nat 1 + d * Z.of_nat k)
        with (start + d * Z.of_nat (Datatypes.S k)) by lia.
      destruct (body _ s'); [apply IHl|done].
    + intros k Hk. destruct (Hrun (Datatypes.S k) ltac:(lia)) as [Hc' Hs'].
      replace (start + d * Z.of_nat 1 + d * Z.of_nat k)
        with (start + d * Z.of_nat (Datatypes.S k)) by lia.
      replace (start + d * Z.of_nat 1 + d * Z.of_nat (Datatypes.S k))
        with (start + d * Z.of_nat (Datatypes.S (Datatypes.S k))) by lia.
      done.
    + replace (start + d * Z.of_nat 1 + d * Z.of_nat m)
        with (start + d * Z.of_nat (Datatypes.S m)) by lia.
      done.
Qed.

(** ** The buffers as one state per pixel *)

Lemma length_coords_of (ps : list PixelState) :
  length (coords_of ps) = (2 * length ps)%nat.
Proof. induction ps as [|s ps IH]; simpl; [done|]. rewrite IH. lia. Qed.

Lemma coords_of_lookup_x (ps : list PixelState) (p : nat) :
  coords_of ps !! (2 * p)%nat = px_x <$> ps !! p.
Proof.
  revert p. induction ps as [|s ps IH]; intros p; [done|].
  destruct p as [|p]; [done|].
  replace (2 * S p)%nat with (S (S (2 * p))) by lia. simpl. apply IH.
Qed.

Lemma coords_of_lookup_y (ps : list PixelState) (p : nat) :
  coords_of ps !! (2 * p + 1)%nat = px_y <$> ps !! p.
Proof.
  revert p. induction ps as [|s ps IH]; intros p; [done|].
  destruct p as [|p]; [done|].
  replace (2 * S p + 1)%nat with (S (S (2 * p + 1))) by lia. simpl. apply IH.
Qed.

Lemma coords_of_insert_x (ps : list PixelState) (p : nat) (s : PixelState) (v : Z) :
  ps !! p = Some s ->
  <[(2 * p)%nat := v]> (coords_of ps) =
  coords_of (<[p := mkPixel v (px_y s) (px_temp s) (px_error s)]> ps).
Proof.
  revert p. induction ps as [|s0 ps IH]; intros p Hp; [done|].
  destruct p as [|p]; simpl in *.
  - by inversion Hp; subst.
  - replace (p + S (p + 0))%nat with (S (2 * p)) by lia. simpl.
    f_equal. f_equal. by apply IH.
Qed.

Lemma coords_of_insert_y (ps : list PixelState) (p : nat) (s : PixelState) (v : Z) :
  ps !! p = Some s ->
  <[(2 * p + 1)%nat := v]> (coords_of ps) =
  coords_of (<[p := mkPixel (px_x s) v (px_temp s) (px_error s)]> ps).
Proof.
  revert p. induction ps as [|s0 ps IH]; intros p Hp; [done|].
  destruct p as [|p]; simpl in *.
  - by inversion Hp; subst.
  - replace (p + S (p + 0) + 1)%nat with (S (2 * p + 1)) by lia. simpl.
    f_equal. f_equal. by apply IH.
Qed.

Lemma arr_get_coords_x (ps : list PixelState) (p : nat) :
  arr_get (coords_of ps) (2 * Z.of_nat p + 0) = px_x <$> ps !! p.
Proof.
  replace (2 * Z.of_nat p + 0) with (Z.of_nat (2 * p)) by lia.
  rewrite arr_get_nat. apply coords_of_lookup_x.
Qed.

Lemma arr_get_coords_y (ps : list PixelState) (p : nat) :
  arr_get (coords_of ps) (2 * Z.of_nat p + 1) = px_y <$> ps !! p.
Proof.
  replace (2 * Z.of_nat p + 1) with (Z.of_nat (2 * p + 1)) by lia.
  rewrite arr_get_nat. apply coords_of_lookup_y.
Qed.

Lemma arr_set_coords_x (ps : list PixelState) (p : nat) (s : PixelState) (v : Z) :
  ps !! p = Some s ->
  arr_set (coords_of ps) (2 * Z.of_nat p + 0) v =
  Some (coords_of (<[p := mkPixel v (px_y s) (px_temp s) (px_error s)]> ps)).
Proof.
  intros Hp. replace (2 * Z.of_nat p + 0) with (Z.of_nat (2 * p)) by lia.
  pose proof (lookup_lt_Some _ _ _ Hp).
  rewrite arr_set_nat by (rewrite length_coords_of; lia).
  by rewrite (coords_of_insert_x _ _ s).
Qed.

Lemma arr_set_coords_y (ps : list PixelState) (p : nat) (s : PixelState) (v : Z) :
  ps !! p = Some s ->
  arr_set (coords_of ps) (2 * Z.of_nat p + 1) v =
  Some (coords_of (<[p := mkPixel (px_x s) v (px_temp s) (px_error s)]> ps)).
Proof.
  intros Hp. replace (2 * Z.of_nat p + 1) with (Z.of_nat (2 * p + 1)) by lia.
  pose proof (lookup_lt_Some _ _ _ Hp).
  rewrite arr_set_nat by (rewrite length_coords_of; lia).
  by rewrite (coords_of_insert_y _ _ s).
Qed.

Lemma arr_set_map {A B : Type} (f : A -> B) (l : list A) (p : nat) (a a' : A) (v : B) :
  l !! p = Some a -> f a' = v ->
  arr_set (map f l) (Z.of_nat p) v = Some (map f (<[p := a']> l)).
Proof.
  intros Hp <-. pose proof (lookup_lt_Some _ _ _ Hp).
  rewrite arr_set_nat by (rewrite length_map; lia).
  f_equal. symmetry. apply (list_fmap_insert f).
Qed.

Lemma arr_get_map {A B : Type} (f : A -> B) (l : list A) (p : nat) :
  arr_get (map f l) (Z.of_nat p) = f <$> l !! p.
Proof. rewrite arr_get_nat. apply (list_lookup_fmap f). Qed.

Lemma map_insert_ext {A B : Type} (f : A -> B) (l : list A) (p : nat) (a b : A) :
  f a = f b -> map f (<[p := a]> l) = map f (<[p := b]> l).
Proof. intros Hab. by rewrite !(list_fmap_insert f), Hab. Qed.

Lemma coords_of_insert_ext (ps : list PixelState) (p : nat) (a b : PixelState) :
  px_x a = px_x b -> px_y a = px_y b ->
  coords_of (<[p := a]> ps) = coords_of (<[p := b]> ps).
Proof.
  intros Hx Hy. revert p. induction ps as [|s ps IH]; intros p; [done|].
  destruct p as [|p]; simpl; [by rewrite Hx, Hy|]. by rewrite IH.
Qed.

(** One call of the lambda rewrites the state of its own pixel. *)
Lemma decode_pixel_model (axis w thr cw pixel : Z) (position : Z * Z)
    (ps : list PixelState) (p : nat) (s : PixelState) :
  axis = 0 \/ axis = 1 ->
  position.1 * cw + position.2 = Z.of_nat p ->
  Z.of_nat (length ps) < 2 ^ 30 ->
  ps !! p = Some s ->
  decode_pixel axis w thr cw pixel position (buffers_of ps) =
  Some (buffers_of (<[p := pixel_step axis w thr pixel s]> ps)).
Proof.
  intros Haxis Hpos Hlen Hp.
  pose proof (lookup_lt_Some _ _ _ Hp) as Hlt.
  unfold decode_pixel. rewrite Hpos.
  rewrite (to_u32_small (Z.of_nat p)) by lia.
  rewrite (to_i32_small (Z.of_nat p)) by lia.
  change (coordinates (buffers_of ps)) with (coords_of ps).
  change (temp (buffers_of ps)) with (map px_temp ps).
  change (error (buffers_of ps)) with (map px_error ps).
  assert (Herr : forall e', 
    (if in_noise_band thr pixel && (px_error s <? w)
     then arr_set (map px_error ps) (Z.of_nat p) w
     else Some (map px_error ps)) =
    Some (map px_error (<[p := mkPixel (px_x e') (px_y e') (px_temp e')
                                (error_step thr w pixel (px_error s))]> ps))).
  { intros e'. unfold error_step.
    destruct (in_noise_band thr pixel && (px_error s <? w)).
    - by apply (arr_set_map px_error ps p s).
    - f_equal. rewrite (list_fmap_insert px_error). cbn [px_error].
      symmetry. apply list_insert_id. by rewrite list_lookup_fmap, Hp. }
  assert (Hfin : forall (c2 : list Z) (a b s' : PixelState),
    c2 = coords_of (<[p := s']> ps) ->
    px_temp a = px_temp s' -> px_error b = px_error s' ->
    Some (mkBuffers c2 (map px_temp (<[p := a]> ps)) (map px_error (<[p := b]> ps)))
    = Some (buffers_of (<[p := s']> ps))).
  { intros c2 a b s' -> Ha Hb. unfold buffers_of.
    by rewrite (map_insert_ext px_temp _ _ a s'), (map_insert_ext px_error _ _ b s'). }
  destruct Haxis as [-> | ->].
  - rewrite arr_get_coords_x, Hp. cbn [fmap option_fmap option_map mbind option_bind].
    rewrite (arr_set_coords_x _ _ s) by done. cbn [mbind option_bind].
    rewrite (arr_get_map px_temp), Hp. cbn [fmap option_fmap option_map mbind option_bind].
    rewrite (arr_set_map px_temp ps p s (mkPixel (px_x s) (px_y s) (xorb (px_temp s) (0 <=? pixel)) (px_error s))) by done.
    cbn [mbind option_bind].
    rewrite (arr_get_map px_error), Hp. cbn [fmap option_fmap option_map mbind option_bind].
    rewrite (Herr s). cbn [mbind option_bind].
    destruct (xorb (px_temp s) (0 <=? pixel)) eqn:Ht.
    + rewrite arr_get_coords_x, list_lookup_insert_eq by done.
      cbn [fmap option_fmap option_map mbind option_bind px_x].
      erewrite arr_set_coords_x by (by apply list_lookup_insert_eq).
      cbn [mbind option_bind px_x px_y px_temp px_error].
      rewrite list_insert_insert_eq.
      apply Hfin; [|done|done].
      apply coords_of_insert_ext; unfold pixel_step, bit_step; cbn; by rewrite ?Ht.
    + cbn [mbind option_bind]. apply Hfin; [|done|done].
      apply coords_of_insert_ext; unfold pixel_step, bit_step; cbn; by rewrite ?Ht.
  - rewrite arr_get_coords_y, Hp. cbn [fmap option_fmap option_map mbind option_bind].
    rewrite (arr_set_coords_y _ _ s) by done. cbn [mbind option_bind].
    rewrite (arr_get_map px_temp), Hp. cbn [fmap option_fmap option_map mbind option_bind].
    rewrite (arr_set_map px_temp ps p s (mkPixel (px_x s) (px_y s) (xorb (px_temp s) (0 <=? pixel)) (px_error s))) by done.
    cbn [mbind option_bind].
    rewrite (arr_get_map px_error), Hp. cbn [fmap option_fmap option_map mbind option_bind].
    rewrite (Herr s). cbn [mbind option_bind].
    destruct (xorb (px_temp s) (0 <=? pixel)) eqn:Ht.
    + rewrite arr_get_coords_y, list_lookup_insert_eq by done.
      cbn [fmap option_fmap option_map mbind option_bind px_y].
      erewrite arr_set_coords_y by (by apply list_lookup_insert_eq).
      cbn [mbind option_bind px_x px_y px_temp px_error].
      rewrite list_insert_insert_eq.
      apply Hfin; [|done|done].
      apply coords_of_insert_ext; unfold pixel_step, bit_step; cbn; by rewrite ?Ht.
    + cbn [mbind option_bind]. apply Hfin; [|done|done].
      apply coords_of_insert_ext; unfold pixel_step, bit_step; cbn; by rewrite ?Ht.
Qed.

(** ** forEach over a difference image *)

Lemma bind_singleton {A B : Type} (f : A -> B) (l : list A) :
  l ≫= (fun x => [f x]) = f <$> l.
Proof. induction l as [|a l IH]; [done|]. cbn. by rewrite IH. Qed.

Lemma positions_S (r c : nat) :
  positions (S r) c =
  positions r c ++ ((fun col : nat => (Z.of_nat r, Z.of_nat col)) <$> seq 0 c).
Proof.
  unfold positions. rewrite seq_S, bind_app. f_equal.
  cbn. rewrite app_nil_r. apply (bind_singleton (fun col : nat => (Z.of_nat r, Z.of_nat col))).
Qed.

Lemma length_positions (r c : nat) : length (positions r c) = (r * c)%nat.
Proof.
  induction r as [|r IH]; [done|].
  rewrite positions_S, length_app, IH, length_fmap, length_seq. lia.
Qed.

Lemma positions_lookup (r c k : nat) (rc : Z * Z) :
  positions r c !! k = Some rc -> rc.1 * Z.of_nat c + rc.2 = Z.of_nat k.
Proof.
  revert k. induction r as [|r IH]; intros k Hk; [done|].
  rewrite positions_S in Hk.
  apply lookup_app_Some in Hk as [Hk | [Hge Hk]]; [by apply IH|].
  rewrite length_positions in Hge, Hk.
  rewrite list_lookup_fmap in Hk.
  destruct (seq 0 c !! (k - r * c)%nat) as [col|] eqn:Hcol; [|done].
  apply lookup_seq in Hcol as [-> ?]. inversion Hk; subst. simpl. lia.
Qed.

(** Running the lambda over the pixels [done], [done + 1], ... of the
    image leaves the states before them alone and steps the others. *)
Lemma forEach_fold (axis w thr cw : Z) :
  axis = 0 \/ axis = 1 ->
  forall (pps : list ((Z * Z) * Z)) (done todo : list PixelState),
    length todo = length pps ->
    (forall k rc px, pps !! k = Some (rc, px) ->
       rc.1 * cw + rc.2 = Z.of_nat (length done + k)) ->
    Z.of_nat (length done + length todo) < 2 ^ 30 ->
    foldlM (fun s pp => decode_pixel axis w thr cw pp.2 pp.1 s) pps
      (buffers_of (done ++ todo)) =
    Some (buffers_of (done ++ zip_with (pixel_step axis w thr) (pps.*2) todo)).
Proof.
  intros Haxis. induction pps as [|[rc px] pps IH]; intros done todo Hlen Hpos Hsmall.
  - destruct todo; [done|done].
  - destruct todo as [|s todo]; [done|]. simpl.
    rewrite (decode_pixel_model axis w thr cw px rc (done ++ s :: todo) (length done) s).
    + replace (<[length done := pixel_step axis w thr px s]> (done ++ s :: todo))
        with ((done ++ [pixel_step axis w thr px s]) ++ todo).
      2:{ rewrite insert_app_r_alt by lia. rewrite Nat.sub_diag. simpl.
          by rewrite <- app_assoc. }
      rewrite IH.
      * by rewrite <- app_assoc.
      * simpl in Hlen. lia.
      * intros k rc' px' Hk. rewrite (Hpos (S k) rc' px' Hk).
        rewrite length_app. simpl. lia.
      * rewrite !length_app in *. simpl in *. lia.
    + done.
    + rewrite (Hpos 0%nat rc px eq_refl). lia.
    + rewrite length_app. lia.
    + rewrite lookup_app_r by lia. by rewrite Nat.sub_diag.
Qed.

Lemma forEach_model (axis w thr : Z) (diff : Mat Z) (ps : list PixelState) :
  axis = 0 \/ axis = 1 ->
  length (data diff) = (rows diff * cols diff)%nat ->
  length ps = length (data diff) ->
  Z.of_nat (length ps) < 2 ^ 30 ->
  forEach diff (decode_pixel axis w thr (Z.of_nat (cols diff))) (buffers_of ps) =
  Some (buffers_of (zip_with (pixel_step axis w thr) (data diff) ps)).
Proof.
  intros Haxis Hdata Hps Hsmall. unfold forEach.
  pose proof (forEach_fold axis w thr (Z.of_nat (cols diff)) Haxis
    (zip (positions (rows diff) (cols diff)) (data diff)) [] ps) as H.
  simpl in H. rewrite H.
  - rewrite snd_zip; [done|]. rewrite length_positions. lia.
  - rewrite length_zip, length_positions. lia.
  - intros k rc px Hk. apply lookup_zip_with_Some in Hk as (a & b & Heq & Ha & Hb).
    inversion Heq; subst. by apply positions_lookup in Ha.
  - done.
Qed.

(** ** One bit-plane pair *)

Lemma well_sized_spec (r c : nat) (m : Mat Z) :
  well_sized r c m = true <->
  rows m = r /\ cols m = c /\ length (data m) = (r * c)%nat.
Proof.
  unfold well_sized. rewrite !andb_true_iff, !Nat.eqb_eq. tauto.
Qed.

Lemma same_size_true {A B : Type} (a : Mat A) (b : Mat B) :
  rows a = rows b -> cols a = cols b -> same_size a b = true.
Proof. intros Hr Hc. unfold same_size. by rewrite Hr, Hc, !Nat.eqb_refl. Qed.

Lemma length_plane_diff (r c : nat) (mask f1 f2 : Mat Z) :
  well_sized r c mask = true -> well_sized r c f1 = true ->
  well_sized r c f2 = true ->
  length (plane_diff mask f1 f2) = (r * c)%nat.
Proof.
  rewrite !well_sized_spec. intros (_ & _ & Hm) (_ & _ & H1) (_ & _ & H2).
  unfold plane_diff. rewrite !length_zip_with. lia.
Qed.

Lemma masked_zip (mask subs old : list Z) :
  length subs = length mask -> length old = length mask ->
  (forall p : nat, mask !! p = Some 0 -> old !! p = Some 0) ->
  zip_with (fun m (ao : Z * Z) => if m =? 0 then ao.2 else sat_i16 ao.1)
    mask (zip subs old) =
  zip_with (fun m d => if m =? 0 then 0 else sat_i16 d) mask subs.
Proof.
  revert subs old. induction mask as [|m mask IH]; intros subs old Hs Ho Hz; [done|].
  destruct subs as [|d subs]; [done|]. destruct old as [|o old]; [done|].
  simpl. f_equal.
  - destruct (Z.eqb_spec m 0) as [->|]; [|done].
    specialize (Hz 0%nat eq_refl). by inversion Hz.
  - apply IH; [simpl in *; lia | simpl in *; lia |].
    intros p Hp. apply (Hz (S p) Hp).
Qed.

Lemma plane_diff_inv (r c : nat) (mask f1 f2 : Mat Z) :
  well_sized r c mask = true -> well_sized r c f1 = true ->
  well_sized r c f2 = true ->
  diff_inv r c mask (mkMat r c (plane_diff mask f1 f2)).
Proof.
  intros Hm H1 H2 _ _. split; [by apply length_plane_diff|].
  intros p Hp. cbn [data]. unfold plane_diff.
  apply well_sized_spec in Hm as (_ & _ & Hm).
  apply well_sized_spec in H1 as (_ & _ & H1).
  apply well_sized_spec in H2 as (_ & _ & H2).
  pose proof (lookup_lt_Some _ _ _ Hp) as Hlt.
  destruct (lookup_lt_is_Some_2 (zip_with Z.sub (data f1) (data f2)) p) as [d Hd].
  { rewrite length_zip_with. lia. }
  apply lookup_zip_with_Some. exists 0, d. by rewrite Hp, Hd.
Qed.

Lemma empty_diff_inv (r c : nat) (mask : Mat Z) :
  well_sized r c mask = true -> diff_inv r c mask empty_Mat.
Proof.
  intros Hm Hr Hc. cbn in Hr, Hc. subst.
  apply well_sized_spec in Hm as (_ & _ & Hm). split; [done|].
  intros p Hp. apply lookup_lt_Some in Hp. simpl in *. lia.
Qed.

Lemma subtract_masked_16S_model (r c : nat) (f1 f2 dst mask : Mat Z) :
  well_sized r c mask = true -> well_sized r c f1 = true ->
  well_sized r c f2 = true -> diff_inv r c mask dst ->
  subtract_masked_16S f1 f2 dst mask = Some (mkMat r c (plane_diff mask f1 f2)).
Proof.
  intros Hm H1 H2 Hinv.
  apply well_sized_spec in Hm as (Hmr & Hmc & Hm).
  apply well_sized_spec in H1 as (H1r & H1c & H1).
  apply well_sized_spec in H2 as (H2r & H2c & H2).
  unfold subtract_masked_16S.
  rewrite !same_size_true by congruence. rewrite orb_true_r. cbn [andb].
  rewrite H1r, H1c. do 2 f_equal. unfold plane_diff.
  assert (Hsub : length (zip_with Z.sub (data f1) (data f2)) = length (data mask)).
  { rewrite length_zip_with. lia. }
  destruct (is_empty mask) eqn:Hempty.
  { assert (Hz : (r * c = 0)%nat).
    { unfold is_empty in Hempty. apply orb_true_iff in Hempty.
      rewrite !Nat.eqb_eq in Hempty. nia. }
    rewrite Hz in *. destruct (data mask); [|done].
    destruct (zip_with Z.sub (data f1) (data f2)); [done|done]. }
  destruct (same_size dst f1) eqn:Hs.
  - unfold same_size in Hs. apply andb_true_iff in Hs as [Hr Hc].
    apply Nat.eqb_eq in Hr, Hc.
    destruct Hinv as [Hlen Hz]; [congruence | congruence |].
    apply masked_zip; [done | lia | done].
  - apply masked_zip; [done | rewrite length_replicate; lia |].
    intros p Hp. apply lookup_replicate_2. apply lookup_lt_Some in Hp. lia.
Qed.

Lemma decode_plane_model (axis thr w : Z) (frames : list (Mat Z))
    (mask diff f1 f2 : Mat Z) (r c i : nat) (ps : list PixelState) :
  axis = 0 \/ axis = 1 ->
  frames !! i = Some f1 -> frames !! S i = Some f2 ->
  well_sized r c mask = true -> well_sized r c f1 = true ->
  well_sized r c f2 = true -> diff_inv r c mask diff ->
  length ps = (r * c)%nat -> Z.of_nat (r * c) < 2 ^ 30 ->
  decode_plane axis frames mask thr (Z.of_nat c) w (Z.of_nat i)
    (buffers_of ps, diff) =
  Some (buffers_of (zip_with (pixel_step axis w thr) (plane_diff mask f1 f2) ps),
        mkMat r c (plane_diff mask f1 f2)).
Proof.
  intros Haxis Hf1 Hf2 Hm H1 H2 Hinv Hps Hsmall.
  unfold decode_plane.
  rewrite arr_get_nat, Hf1. cbn [mbind option_bind].
  replace (Z.of_nat i + 1) with (Z.of_nat (S i)) by lia.
  rewrite arr_get_nat, Hf2. cbn [mbind option_bind snd fst].
  rewrite (subtract_masked_16S_model r c) by done. cbn [mbind option_bind].
  pose proof (length_plane_diff r c mask f1 f2 Hm H1 H2) as Hlen.
  pose proof (forEach_model axis w thr (mkMat r c (plane_diff mask f1 f2)) ps Haxis) as HfE.
  cbn [rows cols data] in HfE. rewrite HfE; [done | done | lia | lia].
Qed.

(** ** The two loops over the bit-plane pairs *)

Lemma column_frame_count_eq (W : Z) :
  1 <= W < 2 ^ 31 ->
  0 <= Z.log2_up W <= 31 /\ column_frame_count W = 2 * Z.log2_up W.
Proof.
  intros HW.
  assert (Hn : 0 <= Z.log2_up W <= 31).
  { split; [apply Z.log2_up_nonneg|].
    change 31 with (Z.log2_up (2 ^ 31)). apply Z.log2_up_le_mono. lia. }
  split; [done|]. unfold column_frame_count.
  rewrite (to_u16_small (Z.log2_up W)) by lia. rewrite to_u16_small; lia.
Qed.

Lemma pairs_ind {A : Type} (P : list A -> Prop) :
  P [] -> (forall a, P [a]) -> (forall a b l, P l -> P (a :: b :: l)) ->
  forall l, P l.
Proof.
  intros H0 H1 H2. fix IH 1. intros [|a [|b l]]; [done|done|].
  apply H2, IH.
Qed.

Lemma pairs_of_lookup {A : Type} (l : list A) (k : nat) (ab : A * A) :
  pairs_of l !! k = Some ab ->
  l !! (2 * k)%nat = Some ab.1 /\ l !! S (2 * k) = Some ab.2.
Proof.
  revert k. induction l as [|a|a b l IH] using pairs_ind; intros k Hk; [done|done|].
  destruct k as [|k]; simpl in Hk.
  - by inversion Hk; subst.
  - apply IH in Hk as [H1 H2].
    replace (2 * S k)%nat with (S (S (2 * k))) by lia. done.
Qed.

Lemma length_pairs_of {A : Type} (l : list A) :
  length (pairs_of l) = (length l / 2)%nat.
Proof.
  induction l as [|a|a b l IH] using pairs_ind; [done|done|].
  cbn [pairs_of length]. rewrite IH.
  change (S (S (length l))) with (1 * 2 + length l)%nat.
  by rewrite Nat.div_add_l.
Qed.

Lemma decode_planes_snoc (axis thr : Z) (mask : Mat Z) (planes : list Plane)
    (pl : Plane) (ps : list PixelState) :
  decode_planes axis thr mask (planes ++ [pl]) ps =
  zip_with (pixel_step axis pl.1 thr) (plane_diff mask pl.2.1 pl.2.2)
    (decode_planes axis thr mask planes ps).
Proof. unfold decode_planes. by rewrite foldl_app. Qed.

Lemma planes_fold (axis thr : Z) (frames : list (Mat Z)) (mask : Mat Z)
    (r c start : nat) (wz : Z -> Z) (planes : list Plane) :
  axis = 0 \/ axis = 1 ->
  well_sized r c mask = true ->
  Forall (fun f => well_sized r c f = true) frames ->
  Z.of_nat (r * c) < 2 ^ 30 ->
  (forall (k : nat) (pl : Plane), planes !! k = Some pl ->
     pl.1 = wz (Z.of_nat start + 2 * Z.of_nat k) /\
     frames !! (start + 2 * k)%nat = Some pl.2.1 /\
     frames !! S (start + 2 * k) = Some pl.2.2) ->
  forall (m : nat) (ps : list PixelState) (diff : Mat Z),
    (m <= length planes)%nat -> length ps = (r * c)%nat ->
    diff_inv r c mask diff ->
    exists diff' : Mat Z,
      foldlM (fun s (k : nat) =>
                decode_plane axis frames mask thr (Z.of_nat c)
                  (wz (Z.of_nat start + 2 * Z.of_nat k))
                  (Z.of_nat start + 2 * Z.of_nat k) s)
        (seq 0 m) (buffers_of ps, diff) =
      Some (buffers_of (decode_planes axis thr mask (take m planes) ps), diff')
      /\ diff_inv r c mask diff'
      /\ length (decode_planes axis thr mask (take m planes) ps) = (r * c)%nat.
Proof.
  intros Haxis Hmask Hframes Hsmall Hplanes.
  induction m as [|m IH]; intros ps diff Hm Hps Hinv.
  - exists diff. by rewrite take_0.
  - destruct (IH ps diff ltac:(lia) Hps Hinv) as (diff1 & Hrun & Hinv1 & Hlen1).
    destruct (lookup_lt_is_Some_2 planes m ltac:(lia)) as [pl Hpl].
    destruct (Hplanes m pl Hpl) as (Hw & Hf1 & Hf2).
    assert (H1 : well_sized r c pl.2.1 = true).
    { eapply (proj1 (Forall_lookup _ _) Hframes). exact Hf1. }
    assert (H2 : well_sized r c pl.2.2 = true).
    { eapply (proj1 (Forall_lookup _ _) Hframes). exact Hf2. }
    exists (mkMat r c (plane_diff mask pl.2.1 pl.2.2)).
    rewrite seq_S, foldlM_app, Hrun. cbn [mbind option_bind foldlM].
    replace (Z.of_nat start + 2 * Z.of_nat (0 + m))
      with (Z.of_nat (start + 2 * m)) by lia.
    rewrite (decode_plane_model axis thr _ frames mask diff1 pl.2.1 pl.2.2 r c)
      by done.
    rewrite (take_S_r _ _ _ Hpl), decode_planes_snoc.
    replace (Z.of_nat (start + 2 * m)) with (Z.of_nat start + 2 * Z.of_nat m) by lia.
    rewrite <- Hw. split; [done|]. split; [by apply plane_diff_inv|].
    rewrite length_zip_with, (length_plane_diff r c) by done. lia.
Qed.

Lemma column_planes_lookup (frames : list (Mat Z)) (cfc : Z) (k : nat) (pl : Plane) :
  column_planes frames cfc !! k = Some pl ->
  pl.1 = column_error cfc (Z.of_nat 0 + 2 * Z.of_nat k) /\
  frames !! (0 + 2 * k)%nat = Some pl.2.1 /\
  frames !! S (0 + 2 * k) = Some pl.2.2.
Proof.
  unfold column_planes. rewrite list_lookup_imap. intros Hk.
  destruct (pairs_of (take (Z.to_nat cfc) frames) !! k) as [fp|] eqn:Hfp; [|done].
  inversion Hk; subst. apply pairs_of_lookup in Hfp as [H1 H2].
  apply lookup_take_Some in H1 as [H1 _]. apply lookup_take_Some in H2 as [H2 _].
  done.
Qed.

Lemma length_column_planes (frames : list (Mat Z)) (n : Z) :
  0 <= n -> 2 * n <= Z.of_nat (length frames) ->
  length (column_planes frames (2 * n)) = Z.to_nat n.
Proof.
  intros Hn Hle. unfold column_planes.
  rewrite length_imap, length_pairs_of, length_take_le by lia.
  replace (Z.to_nat (2 * n)) with (Z.to_nat n * 2)%nat by lia.
  by rewrite Nat.div_mul.
Qed.

Lemma row_planes_lookup (frames : list (Mat Z)) (cfc : Z) (k : nat) (pl : Plane) :
  0 <= cfc ->
  row_planes frames cfc !! k = Some pl ->
  pl.1 = row_error (Z.of_nat (length frames)) cfc
           (Z.of_nat (Z.to_nat cfc) + 2 * Z.of_nat k) /\
  frames !! (Z.to_nat cfc + 2 * k)%nat = Some pl.2.1 /\
  frames !! S (Z.to_nat cfc + 2 * k) = Some pl.2.2.
Proof.
  intros Hc. unfold row_planes. rewrite list_lookup_imap. intros Hk.
  destruct (pairs_of (drop (Z.to_nat cfc) frames) !! k) as [fp|] eqn:Hfp; [|done].
  inversion Hk; subst. apply pairs_of_lookup in Hfp as [H1 H2].
  rewrite lookup_drop in H1, H2. rewrite Z2Nat.id by done.
  replace (Z.to_nat cfc + S (2 * k))%nat with (S (Z.to_nat cfc + 2 * k)) in H2 by lia.
  done.
Qed.

Lemma length_row_planes (frames : list (Mat Z)) (cfc m : Z) :
  0 <= cfc -> 0 <= m -> Z.of_nat (length frames) = cfc + 2 * m ->
  length (row_planes frames cfc) = Z.to_nat m.
Proof.
  intros Hc Hm Hlen. unfold row_planes.
  rewrite length_imap, length_pairs_of, length_drop.
  replace (length frames - Z.to_nat cfc)%nat with (Z.to_nat m * 2)%nat by lia.
  by rewrite Nat.div_mul.
Qed.

(** The first loop is the fold of the pixel steps over the column pairs. *)
Lemma decode_columns_model (fuel : nat) (thr n : Z) (frames : list (Mat Z))
    (mask diff : Mat Z) (r c : nat) (ps : list PixelState) :
  well_sized r c mask = true ->
  Forall (fun f => well_sized r c f = true) frames ->
  Z.of_nat (r * c) < 2 ^ 30 ->
  0 <= n -> 2 * n <= Z.of_nat (length frames) -> (Z.to_nat n < fuel)%nat ->
  length ps = (r * c)%nat -> diff_inv r c mask diff ->
  exists diff' : Mat Z,
    decode_columns fuel frames mask thr (Z.of_nat c) (2 * n) (buffers_of ps, diff) =
    Some (buffers_of (decode_planes 0 thr mask (column_planes frames (2 * n)) ps), diff')
    /\ diff_inv r c mask diff'
    /\ length (decode_planes 0 thr mask (column_planes frames (2 * n)) ps) = (r * c)%nat.
Proof.
  intros Hmask Hframes Hsmall Hn Hle Hfuel Hps Hinv.
  destruct (planes_fold 0 thr frames mask r c 0 (column_error (2 * n))
              (column_planes frames (2 * n)) (or_introl eq_refl) Hmask Hframes Hsmall
              (column_planes_lookup frames (2 * n))
              (Z.to_nat n) ps diff) as (diff' & Hrun & Hinv' & Hlen); [|done|done|].
  { rewrite length_column_planes; lia. }
  rewrite take_ge in Hrun, Hlen by (rewrite length_column_planes; lia).
  exists diff'. split; [|done].
  unfold decode_columns.
  rewrite (for_loop_fold _ _ _ 2 (Z.to_nat n)); [exact Hrun | done | |].
  - intros k Hk. split; [apply Z.ltb_lt|]; lia.
  - apply Z.ltb_ge. lia.
Qed.

(** The second loop, over the row pairs. *)
Lemma decode_rows_model (fuel : nat) (thr cfc m : Z) (frames : list (Mat Z))
    (mask diff : Mat Z) (r c : nat) (ps : list PixelState) :
  well_sized r c mask = true ->
  Forall (fun f => well_sized r c f = true) frames ->
  Z.of_nat (r * c) < 2 ^ 30 ->
  0 <= cfc -> 0 <= m -> Z.of_nat (length frames) = cfc + 2 * m ->
  Z.of_nat (length frames) < 2 ^ 16 - 2 -> (Z.to_nat m < fuel)%nat ->
  length ps = (r * c)%nat -> diff_inv r c mask diff ->
  exists diff' : Mat Z,
    decode_rows fuel frames mask thr (Z.of_nat c) cfc (buffers_of ps, diff) =
    Some (buffers_of (decode_planes 1 thr mask (row_planes frames cfc) ps), diff')
    /\ diff_inv r c mask diff'
    /\ length (decode_planes 1 thr mask (row_planes frames cfc) ps) = (r * c)%nat.
Proof.
  intros Hmask Hframes Hsmall Hc Hm Hlenf Hbound Hfuel Hps Hinv.
  destruct (planes_fold 1 thr frames mask r c (Z.to_nat cfc)
              (row_error (Z.of_nat (length frames)) cfc)
              (row_planes frames cfc) (or_intror eq_refl) Hmask Hframes Hsmall
              (fun k pl => row_planes_lookup frames cfc k pl Hc)
              (Z.to_nat m) ps diff) as (diff' & Hrun & Hinv' & Hlen); [|done|done|].
  { rewrite (length_row_planes frames cfc m); lia. }
  rewrite take_ge in Hrun, Hlen by (rewrite (length_row_planes frames cfc m); lia).
  exists diff'. split; [|done].
  unfold decode_rows. rewrite Z2Nat.id in Hrun by done.
  rewrite (for_loop_fold _ _ _ 2 (Z.to_nat m)); [exact Hrun | done | |].
  - intros k Hk. split; [apply Z.ltb_lt; lia|].
    rewrite to_u16_small; lia.
  - apply Z.ltb_ge. lia.
Qed.

(** ** The histogram and the tolerance *)

Lemma count_errors_fold (error : list Z) (m : nat) (counts : list Z) :
  Forall (fun e => 0 <= e) error -> length counts = 5%nat ->
  (m <= length error)%nat ->
  foldlM (fun (counts : list Z) (k : nat) =>
            e ← arr_get error (0 + 1 * Z.of_nat k);
            if e <? 4 then c ← arr_get counts e; arr_set counts e (c + 1)
            else Some counts)
    (seq 0 m) counts =
  Some (foldl bump counts (take m error)).
Proof.
  intros Hpos Hlen. induction m as [|m IH]; intros Hm; [by rewrite take_0|].
  destruct (lookup_lt_is_Some_2 error m ltac:(lia)) as [e He].
  rewrite seq_S, foldlM_app, IH by lia. cbn [mbind option_bind foldlM].
  rewrite (take_S_r _ _ _ He), foldl_app. cbn [foldl].
  replace (0 + 1 * Z.of_nat (0 + m)) with (Z.of_nat m) by lia.
  rewrite arr_get_nat, He. cbn [mbind option_bind].
  assert (Hlen' : length (foldl bump counts (take m error)) = 5%nat).
  { clear -Hlen. generalize (take m error). intros l. revert counts Hlen.
    induction l as [|a l IHl]; intros counts Hlen; [done|]. simpl. apply IHl.
    unfold bump. destruct (a <? 4); [by rewrite length_insert|done]. }
  set (cs := foldl bump counts (take m error)) in *.
  unfold bump. destruct (Z.ltb_spec e 4) as [Hlt|Hge]; [|done].
  assert (0 <= e) by (eapply (proj1 (Forall_lookup _ _) Hpos); exact He).
  destruct (Z_of_nat_complete e H) as [j ->]. rewrite Nat2Z.id.
  rewrite arr_get_nat.
  destruct (lookup_lt_is_Some_2 cs j ltac:(lia)) as [c Hc].
  rewrite Hc. cbn [mbind option_bind default].
  rewrite arr_set_nat by lia. done.
Qed.

Lemma histogram_levels (error : list Z) :
  Forall (fun e => 0 <= e) error ->
  forall a0 a1 a2 a3 a4 : Z,
    foldl bump [a0; a1; a2; a3; a4] error =
    [a0 + level_count error 0; a1 + level_count error 1;
     a2 + level_count error 2; a3 + level_count error 3; a4].
Proof.
  unfold level_count.
  induction 1 as [|e error He _ IH]; intros a0 a1 a2 a3 a4.
  - cbn. by rewrite !Z.add_0_r.
  - cbn [foldl count_if].
    assert (Hcase : e = 0 \/ e = 1 \/ e = 2 \/ e = 3 \/ 4 <= e) by lia.
    destruct Hcase as [-> | [-> | [-> | [-> | Hge]]]].
    { rewrite (eq_refl : bump [a0; a1; a2; a3; a4] 0 = [a0 + 1; a1; a2; a3; a4]).
      rewrite IH. cbn. repeat (f_equal; try lia). }
    { rewrite (eq_refl : bump [a0; a1; a2; a3; a4] 1 = [a0; a1 + 1; a2; a3; a4]).
      rewrite IH. cbn. repeat (f_equal; try lia). }
    { rewrite (eq_refl : bump [a0; a1; a2; a3; a4] 2 = [a0; a1; a2 + 1; a3; a4]).
      rewrite IH. cbn. repeat (f_equal; try lia). }
    { rewrite (eq_refl : bump [a0; a1; a2; a3; a4] 3 = [a0; a1; a2; a3 + 1; a4]).
      rewrite IH. cbn. repeat (f_equal; try lia). }
    unfold bump. destruct (Z.ltb_spec e 4); [lia|].
    rewrite IH.
    destruct (Z.eqb_spec e 0); [lia|]. destruct (Z.eqb_spec e 1); [lia|].
    destruct (Z.eqb_spec e 2); [lia|]. destruct (Z.eqb_spec e 3); [lia|].
    done.
Qed.

Lemma cumulative_levels (error : list Z) :
  Forall (fun e => 0 <= e) error ->
  cumulative error 0 = level_count error 0 /\
  cumulative error 1 = level_count error 0 + level_count error 1 /\
  cumulative error 2 =
    level_count error 0 + level_count error 1 + level_count error 2 /\
  cumulative error 3 =
    level_count error 0 + level_count error 1 + level_count error 2
    + level_count error 3.
Proof.
  unfold cumulative, level_count.
  induction 1 as [|e error He _ (IH0 & IH1 & IH2 & IH3)]; [done|].
  cbn [count_if]. rewrite IH0, IH1, IH2, IH3.
  destruct (Z.leb_spec e 0), (Z.leb_spec e 1), (Z.leb_spec e 2), (Z.leb_spec e 3),
    (Z.eqb_spec e 0), (Z.eqb_spec e 1), (Z.eqb_spec e 2), (Z.eqb_spec e 3); lia.
Qed.

(** The selection loop on a histogram of five entries. *)
Lemma select_allowed_error_model (fuel : nat) (minPointCount h0 h1 h2 h3 h4 : Z) :
  (4 < fuel)%nat ->
  exists (t : Z) (counts : list Z),
    select_allowed_error fuel minPointCount 0 [h0; h1; h2; h3; h4] = Some (t, counts)
    /\ t = (if minPointCount <=? h0 then 0
            else if minPointCount <=? h0 + h1 then 1
            else if minPointCount <=? h0 + h1 + h2 then 2
            else if minPointCount <=? h0 + h1 + h2 + h3 then 3
            else 4)
    /\ (t = 0 -> arr_get counts t = Some h0)
    /\ (t = 1 -> arr_get counts t = Some (h0 + h1))
    /\ (t = 2 -> arr_get counts t = Some (h0 + h1 + h2))
    /\ (t = 3 -> arr_get counts t = Some (h0 + h1 + h2 + h3)).
Proof.
  intros Hfuel.
  do 5 (destruct fuel as [|fuel]; [lia|]). clear Hfuel.
  rewrite (eq_refl : select_allowed_error (S (S (S (S (S fuel))))) minPointCount 0
                       [h0; h1; h2; h3; h4] =
     if h0 <? minPointCount
     then select_allowed_error (S (S (S (S fuel)))) minPointCount 1
            [h0; h1 + h0; h2; h3; h4]
     else Some (0, [h0; h1; h2; h3; h4])).
  destruct (Z.ltb_spec h0 minPointCount), (Z.leb_spec minPointCount h0); try lia.
  2:{ do 2 eexists. split; [reflexivity|]. repeat split; intros; try done; try lia;
      unfold arr_get; cbn [Z.ltb Z.compare]; 
      change (Z.to_nat 1) with 1%nat; change (Z.to_nat 2) with 2%nat;
      change (Z.to_nat 3) with 3%nat; cbn; f_equal; lia. }
  rewrite (eq_refl : select_allowed_error (S (S (S (S fuel)))) minPointCount 1
                       [h0; h1 + h0; h2; h3; h4] =
     if h1 + h0 <? minPointCount
     then select_allowed_error (S (S (S fuel))) minPointCount 2
            [h0; h1 + h0; h2 + (h1 + h0); h3; h4]
     else Some (1, [h0; h1 + h0; h2; h3; h4])).
  destruct (Z.ltb_spec (h1 + h0) minPointCount),
    (Z.leb_spec minPointCount (h0 + h1)); try lia.
  2:{ do 2 eexists. split; [reflexivity|]. repeat split; intros; try done; try lia;
      unfold arr_get; cbn [Z.ltb Z.compare]; 
      change (Z.to_nat 1) with 1%nat; change (Z.to_nat 2) with 2%nat;
      change (Z.to_nat 3) with 3%nat; cbn; f_equal; lia. }
  rewrite (eq_refl : select_allowed_error (S (S (S fuel))) minPointCount 2
                       [h0; h1 + h0; h2 + (h1 + h0); h3; h4] =
     if h2 + (h1 + h0) <? minPointCount
     then select_allowed_error (S (S fuel)) minPointCount 3
            [h0; h1 + h0; h2 + (h1 + h0); h3 + (h2 + (h1 + h0)); h4]
     else Some (2, [h0; h1 + h0; h2 + (h1 + h0); h3; h4])).
  destruct (Z.ltb_spec (h2 + (h1 + h0)) minPointCount),
    (Z.leb_spec minPointCount (h0 + h1 + h2)); try lia.
  2:{ do 2 eexists. split; [reflexivity|]. repeat split; intros; try done; try lia;
      unfold arr_get; cbn [Z.ltb Z.compare]; 
      change (Z.to_nat 1) with 1%nat; change (Z.to_nat 2) with 2%nat;
      change (Z.to_nat 3) with 3%nat; cbn; f_equal; lia. }
  rewrite (eq_refl : select_allowed_error (S (S fuel)) minPointCount 3
                       [h0; h1 + h0; h2 + (h1 + h0); h3 + (h2 + (h1 + h0)); h4] =
     if h3 + (h2 + (h1 + h0)) <? minPointCount
     then select_allowed_error (S fuel) minPointCount 4
            [h0; h1 + h0; h2 + (h1 + h0); h3 + (h2 + (h1 + h0));
             h4 + (h3 + (h2 + (h1 + h0)))]
     else Some (3, [h0; h1 + h0; h2 + (h1 + h0); h3 + (h2 + (h1 + h0)); h4])).
  destruct (Z.ltb_spec (h3 + (h2 + (h1 + h0))) minPointCount),
    (Z.leb_spec minPointCount (h0 + h1 + h2 + h3)); try lia.
  2:{ do 2 eexists. split; [reflexivity|]. repeat split; intros; try done; try lia;
      unfold arr_get; cbn [Z.ltb Z.compare]; 
      change (Z.to_nat 1) with 1%nat; change (Z.to_nat 2) with 2%nat;
      change (Z.to_nat 3) with 3%nat; cbn; f_equal; lia. }
  do 2 eexists. split; [reflexivity|]. repeat split; intros; try done; lia.
Qed.

(** ** The final scan *)

Lemma scan_pixel_model (ps : list PixelState) (projectionSize : Size)
    (allowed_error cp ce : Z) (w y x : nat) (cam proj : list Point)
    (s : PixelState) :
  ps !! (y * w + x)%nat = Some s ->
  cp = 2 * Z.of_nat (y * w + x) -> ce = Z.of_nat (y * w + x) ->
  scan_pixel (buffers_of ps) projectionSize allowed_error
    (Z.of_nat y) (Z.of_nat x) (mkScan cp ce cam proj) =
  Some (mkScan (cp + 2) (ce + 1)
          (cam ++ (scan_point ps projectionSize allowed_error w y x).*1)
          (proj ++ (scan_point ps projectionSize allowed_error w y x).*2)).
Proof.
  intros Hs -> ->. unfold scan_pixel, scan_point.
  cbn [current_point current_error cameraPoints projectionPoints].
  change (coordinates (buffers_of ps)) with (coords_of ps).
  change (error (buffers_of ps)) with (map px_error ps).
  rewrite <- (Z.add_0_r (2 * Z.of_nat (y * w + x))) at 1.
  rewrite arr_get_coords_x, arr_get_coords_y, arr_get_map, Hs.
  cbn [fmap option_fmap option_map mbind option_bind].
  unfold qualifies.
  destruct ((0 <=? px_x s) && (px_x s <? width projectionSize) && (0 <=? px_y s)
            && (px_y s <? height projectionSize));
    cbn [andb mbind option_bind].
  - destruct (px_error s <=? allowed_error);
      cbn [current_point current_error cameraPoints projectionPoints
           fmap list_fmap fst snd]; [done|].
    by rewrite !app_nil_r.
  - cbn [current_point current_error cameraPoints projectionPoints
         fmap list_fmap fst snd].
    by rewrite !app_nil_r.
Qed.

Lemma scan_row_fold (ps : list PixelState) (projectionSize : Size)
    (allowed_error : Z) (w y : nat) (m : nat) (cam proj : list Point) :
  (y * w + w <= length ps)%nat -> (m <= w)%nat ->
  foldlM (fun s (x : nat) =>
            scan_pixel (buffers_of ps) projectionSize allowed_error
              (Z.of_nat y) (0 + 1 * Z.of_nat x) s)
    (seq 0 m) (mkScan (2 * Z.of_nat (y * w)) (Z.of_nat (y * w)) cam proj) =
  Some (mkScan (2 * Z.of_nat (y * w + m)) (Z.of_nat (y * w + m))
          (cam ++ (seq 0 m ≫= scan_point ps projectionSize allowed_error w y).*1)
          (proj ++ (seq 0 m ≫= scan_point ps projectionSize allowed_error w y).*2)).
Proof.
  intros Hlen. induction m as [|m IH]; intros Hm.
  - cbn. by rewrite Nat.add_0_r, !app_nil_r.
  - rewrite seq_S, foldlM_app, IH by lia. cbn [mbind option_bind foldlM].
    destruct (lookup_lt_is_Some_2 ps (y * w + m) ltac:(lia)) as [s Hs].
    replace (0 + 1 * Z.of_nat (0 + m)) with (Z.of_nat m) by lia.
    rewrite (scan_pixel_model ps projectionSize allowed_error _ _ w y m _ _ s Hs)
      by done.
    rewrite bind_app, !fmap_app, !app_assoc. cbn [mbind list_bind app].
    rewrite !app_nil_r. do 2 f_equal; lia.
Qed.

Lemma scan_row_loop (fuel : nat) (ps : list PixelState) (projectionSize : Size)
    (allowed_error : Z) (w y : nat) (cam proj : list Point) :
  (y * w + w <= length ps)%nat -> Z.of_nat w < 2 ^ 16 -> (w < fuel)%nat ->
  for_loop fuel (fun x => x <? Z.of_nat w) (fun x => to_u16 (x + 1))
    (scan_pixel (buffers_of ps) projectionSize allowed_error (Z.of_nat y)) 0
    (mkScan (2 * Z.of_nat (y * w)) (Z.of_nat (y * w)) cam proj) =
  Some (mkScan (2 * Z.of_nat (S y * w)) (Z.of_nat (S y * w))
          (cam ++ (seq 0 w ≫= scan_point ps projectionSize allowed_error w y).*1)
          (proj ++ (seq 0 w ≫= scan_point ps projectionSize allowed_error w y).*2)).
Proof.
  intros Hlen Hw Hfuel.
  rewrite (for_loop_fold _ _ _ 1 w); [| done | |].
  - rewrite (scan_row_fold ps projectionSize allowed_error w y w cam proj) by done.
    do 2 f_equal; lia.
  - intros k Hk. split; [apply Z.ltb_lt; lia|]. rewrite to_u16_small; lia.
  - apply Z.ltb_ge. lia.
Qed.

Lemma scan_pixels_model (fuel : nat) (ps : list PixelState)
    (projectionSize : Size) (allowed_error : Z) (w h : nat)
    (cam proj : list Point) :
  length ps = (h * w)%nat -> Z.of_nat w < 2 ^ 16 -> Z.of_nat h < 2 ^ 16 ->
  (w < fuel)%nat -> (h < fuel)%nat ->
  exists cp ce : Z,
    scan_pixels fuel (buffers_of ps) projectionSize allowed_error
      (Z.of_nat w) (Z.of_nat h) (mkScan 0 0 cam proj) =
    Some (mkScan cp ce
            (cam ++ (scan_model ps projectionSize allowed_error w h).*1)
            (proj ++ (scan_model ps projectionSize allowed_error w h).*2)).
Proof.
  intros Hlen Hw Hh Hfw Hfh. unfold scan_pixels, scan_model.
  rewrite (for_loop_fold _ _ _ 1 h); [| done | |].
  - assert (Hrows : forall m : nat, (m <= h)%nat ->
      foldlM (fun s (k : nat) =>
                for_loop fuel (fun x => x <? Z.of_nat w) (fun x => to_u16 (x + 1))
                  (scan_pixel (buffers_of ps) projectionSize allowed_error
                     (0 + 1 * Z.of_nat k)) 0 s)
        (seq 0 m) (mkScan 0 0 cam proj) =
      Some (mkScan (2 * Z.of_nat (m * w)) (Z.of_nat (m * w))
              (cam ++ (seq 0 m ≫= fun y =>
                         seq 0 w ≫= scan_point ps projectionSize allowed_error w y).*1)
              (proj ++ (seq 0 m ≫= fun y =>
                         seq 0 w ≫= scan_point ps projectionSize allowed_error w y).*2))).
    { induction m as [|m IH]; intros Hm.
      - cbn. by rewrite !app_nil_r.
      - rewrite seq_S, foldlM_app, IH by lia. cbn [mbind option_bind foldlM].
        replace (0 + 1 * Z.of_nat (0 + m)) with (Z.of_nat m) by lia.
        rewrite scan_row_loop; [| nia | done | done].
        rewrite bind_app, !fmap_app, !app_assoc. cbn [mbind list_bind app].
        by rewrite !app_nil_r. }
    rewrite (Hrows h) by done. eauto.
  - intros k Hk. split; [apply Z.ltb_lt; lia|]. rewrite to_u16_small; lia.
  - apply Z.ltb_ge. lia.
Qed.

(** ** The whole call *)

Lemma bit_step_range (c : Z) (t : bool) : 0 <= bit_step c t < 2 ^ 16.
Proof. unfold bit_step. destruct t; apply to_u16_range. Qed.

Lemma pixel_step_ok (axis w thr pixel : Z) (s : PixelState) :
  0 <= w < 2 ^ 16 -> pixel_ok s -> pixel_ok (pixel_step axis w thr pixel s).
Proof.
  intros Hw (Hx & Hy & He). unfold pixel_ok, pixel_step, error_step. cbn.
  pose proof (bit_step_range (px_x s) (xorb (px_temp s) (0 <=? pixel))).
  pose proof (bit_step_range (px_y s) (xorb (px_temp s) (0 <=? pixel))).
  destruct (axis =? 0), (in_noise_band thr pixel && (px_error s <? w)); lia.
Qed.

Lemma decode_planes_ok (axis thr : Z) (mask : Mat Z) (planes : list Plane)
    (ps : list PixelState) :
  Forall (fun pl : Plane => 0 <= pl.1 < 2 ^ 16) planes ->
  Forall pixel_ok ps -> Forall pixel_ok (decode_planes axis thr mask planes ps).
Proof.
  intros Hpl. revert ps. induction Hpl as [|pl planes Hw _ IH]; intros ps Hps; [done|].
  cbn. apply IH. clear IH.
  generalize (plane_diff mask pl.2.1 pl.2.2). intros d. revert d.
  induction Hps as [|s ps Hs _ IHps]; intros [|x d]; cbn; try done.
  constructor; [by apply pixel_step_ok | apply IHps].
Qed.

Lemma column_planes_weights (frames : list (Mat Z)) (cfc : Z) :
  Forall (fun pl : Plane => 0 <= pl.1 < 2 ^ 16) (column_planes frames cfc).
Proof.
  apply Forall_lookup. intros k pl Hk. unfold column_planes in Hk.
  rewrite list_lookup_imap in Hk.
  destruct (pairs_of (take (Z.to_nat cfc) frames) !! k); [|done].
  inversion Hk; subst. cbn. unfold column_error, to_u8.
  pose proof (Z.mod_pos_bound (Z.shiftr (cfc - 2 * Z.of_nat k) 1) (2 ^ 8)). lia.
Qed.

Lemma row_planes_weights (frames : list (Mat Z)) (cfc : Z) :
  Forall (fun pl : Plane => 0 <= pl.1 < 2 ^ 16) (row_planes frames cfc).
Proof.
  apply Forall_lookup. intros k pl Hk. unfold row_planes in Hk.
  rewrite list_lookup_imap in Hk.
  destruct (pairs_of (drop (Z.to_nat cfc) frames) !! k); [|done].
  inversion Hk; subst. cbn. apply to_u16_range.
Qed.

(** Every decoded pixel state fits its 16-bit slots. *)
Lemma decode_model_ok (frames : list (Mat Z)) (projectionSize : Size)
    (mask : Mat Z) (thr : Z) :
  Forall pixel_ok (decode_model frames projectionSize mask thr).
Proof.
  unfold decode_model.
  apply decode_planes_ok; [apply row_planes_weights|].
  apply Forall_fmap. apply Forall_impl with (P := pixel_ok).
  - intros s (Hx & Hy & He). unfold pixel_ok. cbn. done.
  - apply decode_planes_ok; [apply column_planes_weights|].
    apply Forall_replicate. unfold pixel_ok. cbn. lia.
Qed.

Lemma buffers_of_replicate (n : nat) :
  calloc_buffers (Z.of_nat n) = buffers_of (replicate n (mkPixel 0 0 false 0)).
Proof.
  unfold calloc_buffers, buffers_of.
  replace (Z.to_nat (2 * Z.of_nat n)) with (n + n)%nat by lia.
  rewrite Nat2Z.id. f_equal.
  - induction n as [|n IH]; [done|].
    replace (S n + S n)%nat with (S (S (n + n))) by lia. cbn. by rewrite IH.
  - induction n as [|n IH]; [done|]. cbn. by rewrite <- IH.
  - induction n as [|n IH]; [done|]. cbn. by rewrite <- IH.
Qed.

Lemma buffers_of_clear_temp (ps : list PixelState) (n : nat) :
  length ps = n ->
  mkBuffers (coordinates (buffers_of ps)) (replicate n false)
    (error (buffers_of ps)) =
  buffers_of (map clear_temp ps).
Proof.
  intros <-. unfold buffers_of. cbn [coordinates error]. f_equal.
  - induction ps as [|s ps IH]; [done|]. cbn. by rewrite IH.
  - induction ps as [|s ps IH]; [done|]. cbn. by rewrite IH.
  - induction ps as [|s ps IH]; [done|]. cbn. by rewrite IH.
Qed.

Lemma valid_input_spec (frames : list (Mat Z)) (projectionSize : Size)
    (mask : Mat Z) :
  valid_input frames projectionSize mask = true ->
  exists (f0 : Mat Z) (rest : list (Mat Z)),
    frames = f0 :: rest /\
    Forall (fun f => well_sized (rows f0) (cols f0) f = true) frames /\
    well_sized (rows f0) (cols f0) mask = true /\
    Z.of_nat (rows f0) < 2 ^ 16 /\ Z.of_nat (cols f0) < 2 ^ 16 /\
    Z.of_nat (rows f0 * cols f0) < 2 ^ 30 /\
    1 <= width projectionSize < 2 ^ 31 /\
    column_frame_count (width projectionSize) <= Z.of_nat (length frames) /\
    Z.even (Z.of_nat (length frames)
            - column_frame_count (width projectionSize)) = true /\
    Z.of_nat (length frames) < 2 ^ 16 - 2.
Proof.
  unfold valid_input. destruct frames as [|f0 rest]; [done|].
  rewrite !andb_true_iff, forallb_forall, !Z.ltb_lt, !Z.leb_le.
  intros ((((((((((Hall & Hm) & Hr) & Hc) & Hne) & Hrc) & Hw1) & Hw2) & Hcfc) & Hev)
          & Hlen).
  exists f0, rest. split; [done|].
  split; [by apply Forall_forall|].
  split; [done|]. repeat split; try done. lia.
Qed.


(** The selector returns the first level that reaches [minPointCount]. *)
Lemma select_tolerance_model (fuel : nat) (error : list Z) (minPointCount : Z) :
  Forall (fun e => 0 <= e) error ->
  Z.of_nat (length error) < 2 ^ 32 ->
  (length error + 5 < fuel)%nat ->
  select_tolerance fuel error (Z.of_nat (length error)) minPointCount =
  Some (tolerance_model error minPointCount, reserved_model error minPointCount).
Proof.
  intros Herr Hsmall Hfuel. unfold select_tolerance.
  assert (Hcount : count_errors fuel error (Z.of_nat (length error)) (replicate 5 0) =
                   Some [level_count error 0; level_count error 1;
                         level_count error 2; level_count error 3; 0]).
  { unfold count_errors.
    rewrite (for_loop_fold _ _ _ 1 (length error)); [| lia | |].
    - rewrite count_errors_fold; [| done | done | lia].
      rewrite take_ge by lia.
      change (replicate 5 0) with [0; 0; 0; 0; 0].
      by rewrite histogram_levels.
    - intros k Hk. split; [apply Z.ltb_lt; lia|]. rewrite to_u32_small; lia.
    - apply Z.ltb_ge. lia. }
  rewrite Hcount. cbn [mbind option_bind].
  destruct (select_allowed_error_model fuel minPointCount
              (level_count error 0) (level_count error 1)
              (level_count error 2) (level_count error 3) 0)
    as (t & counts & Hsel & Ht & Ht0 & Ht1 & Ht2 & Ht3); [lia|].
  rewrite Hsel. cbn [mbind option_bind fst snd].
  destruct (cumulative_levels _ Herr) as (Hc0 & Hc1 & Hc2 & Hc3).
  rewrite <- Hc3 in Ht, Ht3. rewrite <- Hc2 in Ht, Ht2.
  rewrite <- Hc1 in Ht, Ht1. rewrite <- Hc0 in Ht, Ht0.
  fold (tolerance_model error minPointCount) in Ht. subst t.
  do 2 f_equal. unfold reserved_model.
  assert (Hcases : tolerance_model error minPointCount = 0
                   \/ tolerance_model error minPointCount = 1
                   \/ tolerance_model error minPointCount = 2
                   \/ tolerance_model error minPointCount = 3
                   \/ tolerance_model error minPointCount = 4).
  { unfold tolerance_model.
    repeat match goal with |- context [if ?b then _ else _] => destruct b end;
      tauto. }
  destruct Hcases as [H | [H | [H | [H | H]]]].
  - rewrite (Ht0 H), H. done.
  - rewrite (Ht1 H), H. done.
  - rewrite (Ht2 H), H. done.
  - rewrite (Ht3 H), H. done.
  - rewrite H. done.
Qed.

(** On a valid input and with enough fuel, one call returns, and its
    outcome is the one told from the pixel states. *)
Lemma run_model (fuel : nat) (cam0 proj0 : list Point) (frames : list (Mat Z))
    (projectionSize : Size) (mask : Mat Z) (minPointCount thr : Z) :
  valid_input frames projectionSize mask = true ->
  enough_fuel fuel frames ->
  getCameraProjectionPairs_run fuel cam0 proj0 frames projectionSize mask
    minPointCount thr =
  Some (outcome_model cam0 proj0 frames projectionSize mask minPointCount thr).
Proof.
  intros Hvalid Hfuel.
  destruct (valid_input_spec _ _ _ Hvalid)
    as (f0 & rest & -> & Hall & Hm & Hr & Hc & Hrc & HW & Hcfc & Hev & Hlen).
  unfold enough_fuel in Hfuel.
  destruct (column_frame_count_eq _ HW) as [Hn Hcfceq].
  apply Z.even_spec in Hev as [m Hm2].
  pose proof (decode_model_ok (f0 :: rest) projectionSize mask thr) as Hok.
  unfold outcome_model, getCameraProjectionPairs_run.
  cbn [camera_rows camera_cols].
  set (ps := decode_model (f0 :: rest) projectionSize mask thr) in *.
  assert (Hps : exists diff' : Mat Z,
    (decode_columns fuel (f0 :: rest) mask thr (Z.of_nat (cols f0))
       (column_frame_count (width projectionSize))
       (buffers_of (replicate (rows f0 * cols f0) (mkPixel 0 0 false 0)), empty_Mat)
     ≫= fun s1 =>
       decode_rows fuel (f0 :: rest) mask thr (Z.of_nat (cols f0))
         (column_frame_count (width projectionSize))
         (mkBuffers (coordinates s1.1)
            (replicate (rows f0 * cols f0) false) (error s1.1), s1.2))
    = Some (buffers_of ps, diff') /\ length ps = (rows f0 * cols f0)%nat).
  { subst ps. unfold decode_model. rewrite Hcfceq in *.
    destruct (decode_columns_model fuel thr (Z.log2_up (width projectionSize))
                (f0 :: rest) mask empty_Mat (rows f0) (cols f0)
                (replicate (rows f0 * cols f0) (mkPixel 0 0 false 0)))
      as (diff1 & Hrun1 & Hinv1 & Hlen1);
      [done | done | done | lia | lia | cbn [length] in *; lia
      | by rewrite length_replicate | by apply empty_diff_inv |].
    rewrite Hrun1. cbn [mbind option_bind fst snd].
    rewrite (buffers_of_clear_temp _ _ Hlen1).
    destruct (decode_rows_model fuel thr (2 * Z.log2_up (width projectionSize)) m
                (f0 :: rest) mask diff1 (rows f0) (cols f0)
                (map clear_temp
                   (decode_planes 0 thr mask
                      (column_planes (f0 :: rest) (2 * Z.log2_up (width projectionSize)))
                      (replicate (rows f0 * cols f0) (mkPixel 0 0 false 0)))))
      as (diff2 & Hrun2 & Hinv2 & Hlen2);
      [done | done | done | lia | cbn [length] in *; lia | lia | lia
      | cbn [length] in *; lia | by rewrite length_map | done |].
    exists diff2. by rewrite Hrun2. }
  destruct Hps as (diff' & Hdec & Hlenps).
  change (arr_get (f0 :: rest) 0) with (Some f0). cbn [mbind option_bind].
  rewrite (to_u32_small (Z.of_nat (rows f0))) by lia.
  rewrite (to_u32_small (Z.of_nat (cols f0))) by lia.
  replace (Z.of_nat (cols f0) * Z.of_nat (rows f0))
    with (Z.of_nat (rows f0 * cols f0)) by lia.
  rewrite (to_u32_small (Z.of_nat (rows f0 * cols f0))) by lia.
  rewrite buffers_of_replicate, Nat2Z.id.
  destruct (decode_columns fuel (f0 :: rest) mask thr (Z.of_nat (cols f0))
              (column_frame_count (width projectionSize)) _) as [s1|];
    [|done].
  cbn [mbind option_bind] in Hdec |- *. rewrite Hdec.
  cbn [mbind option_bind fst snd].
  change (error (buffers_of ps)) with (map px_error ps).
  assert (Herr : Forall (fun e => 0 <= e) (map px_error ps)).
  { apply Forall_fmap. apply Forall_impl with (P := pixel_ok); [|exact Hok].
    intros s (_ & _ & He). cbn. lia. }
  pose proof (select_tolerance_model fuel (map px_error ps) minPointCount Herr) as Hsel.
  rewrite length_map, Hlenps in Hsel.
  rewrite Hsel by (cbn [length] in *; lia). cbn [mbind option_bind fst snd].
  destruct (scan_pixels_model fuel ps projectionSize
              (tolerance_model (map px_error ps) minPointCount)
              (cols f0) (rows f0) cam0 proj0)
    as (cp & ce & Hscan); [done | done | done | lia | lia |].
  rewrite Hscan. cbn [mbind option_bind cameraPoints projectionPoints].
  done.
Qed.

(** ** One pixel through the bit-plane pairs *)

(** The state of pixel [p] after a run of bit-plane pairs is the fold of
    the pixel steps over the pixel's own differences. *)
Lemma decode_planes_lookup (axis thr : Z) (mask : Mat Z) (p : nat)
    (planes : list Plane) :
  forall (ps : list PixelState) (s : PixelState),
    ps !! p = Some s ->
    Forall (fun pl : Plane =>
              (p < length (plane_diff mask pl.2.1 pl.2.2))%nat) planes ->
    decode_planes axis thr mask planes ps !! p =
    Some (foldl (fun s (pl : Plane) =>
                   pixel_step axis pl.1 thr
                     (default 0 (plane_diff mask pl.2.1 pl.2.2 !! p)) s)
            s planes).
Proof.
  induction planes as [|pl planes IH]; intros ps s Hs Hlen; [done|].
  apply Forall_cons_1 in Hlen as [Hp Hlen]. cbn beta in Hp.
  unfold decode_planes. cbn [foldl]. fold (decode_planes axis thr mask planes).
  destruct (lookup_lt_is_Some_2 (plane_diff mask pl.2.1 pl.2.2) p Hp) as [d Hd].
  apply IH; [|done]. rewrite Hd. cbn [default].
  apply lookup_zip_with_Some. eauto.
Qed.

Lemma error_step_max (thr w pixel e : Z) :
  error_step thr w pixel e = if in_noise_band thr pixel then Z.max e w else e.
Proof.
  unfold error_step. destruct (in_noise_band thr pixel); [|done].
  rewrite andb_true_l. destruct (Z.ltb_spec e w); lia.
Qed.

Lemma max_weight_nonneg (ws : list Z) : 0 <= max_weight ws.
Proof. unfold max_weight. induction ws as [|w ws IH]; cbn; lia. Qed.

(** The error level after a run of pairs is the largest of the level
    before and the weights recorded during the run. *)
Lemma px_error_foldl (axis thr : Z) (mask : Mat Z) (p : nat) (planes : list Plane) :
  forall s : PixelState,
    0 <= px_error s ->
    px_error (foldl (fun s (pl : Plane) =>
                       pixel_step axis pl.1 thr
                         (default 0 (plane_diff mask pl.2.1 pl.2.2 !! p)) s)
                s planes) =
    Z.max (px_error s)
      (max_weight (recorded_weights thr
         (map (fun pl : Plane =>
                 (pl.1, default 0 (plane_diff mask pl.2.1 pl.2.2 !! p))) planes))).
Proof.
  induction planes as [|pl planes IH]; intros s Hs.
  - cbn. lia.
  - cbn [foldl map recorded_weights fst snd]. rewrite IH.
    + cbn [pixel_step px_error]. rewrite error_step_max.
      destruct (in_noise_band thr _); [|done]. cbn [max_weight foldr].
      fold (max_weight (recorded_weights thr
        (map (fun pl : Plane => (pl.1, default 0 (plane_diff mask pl.2.1 pl.2.2 !! p)))
           planes))). lia.
    + cbn [pixel_step px_error]. rewrite error_step_max.
      destruct (in_noise_band thr _); lia.
Qed.

Lemma recorded_weights_app (thr : Z) (t1 t2 : list (Z * Z)) :
  recorded_weights thr (t1 ++ t2) =
  recorded_weights thr t1 ++ recorded_weights thr t2.
Proof.
  induction t1 as [|wd t1 IH]; [done|]. cbn.
  destruct (in_noise_band thr wd.2); cbn; by rewrite IH.
Qed.

Lemma max_weight_app (ws1 ws2 : list Z) :
  max_weight (ws1 ++ ws2) = Z.max (max_weight ws1) (max_weight ws2).
Proof.
  induction ws1 as [|w ws1 IH]; cbn.
  - pose proof (max_weight_nonneg ws2). unfold max_weight in *. lia.
  - unfold max_weight in *. rewrite IH. lia.
Qed.

Lemma decode_model_length (frames : list (Mat Z)) (projectionSize : Size)
    (mask : Mat Z) (thr : Z) :
  valid_input frames projectionSize mask = true ->
  length (decode_model frames projectionSize mask thr) =
  (camera_rows frames * camera_cols frames)%nat.
Proof.
  intros Hvalid.
  pose proof (run_model (S (length frames + camera_rows frames + camera_cols frames
                     + camera_rows frames * camera_cols frames + 5)) [] []
                frames projectionSize mask 0 thr Hvalid) as Hrun.
  destruct (valid_input_spec _ _ _ Hvalid)
    as (f0 & rest & -> & Hall & Hm & Hr & Hc & Hrc & HW & Hcfc & Hev & Hlen).
  cbn [camera_rows camera_cols] in *.
  destruct (column_frame_count_eq _ HW) as [Hn Hcfceq].
  apply Z.even_spec in Hev as [m Hm2].
  unfold decode_model. rewrite Hcfceq in *.
  destruct (decode_columns_model 100 thr (Z.log2_up (width projectionSize))
              (f0 :: rest) mask empty_Mat (rows f0) (cols f0)
              (replicate (rows f0 * cols f0) (mkPixel 0 0 false 0)))
    as (diff1 & _ & Hinv1 & Hlen1);
    [done | done | done | lia | lia | lia
    | by rewrite length_replicate | by apply empty_diff_inv |].
  destruct (decode_rows_model (S (Z.to_nat m)) thr (2 * Z.log2_up (width projectionSize)) m
              (f0 :: rest) mask diff1 (rows f0) (cols f0)
              (map clear_temp
                 (decode_planes 0 thr mask
                    (column_planes (f0 :: rest) (2 * Z.log2_up (width projectionSize)))
                    (replicate (rows f0 * cols f0) (mkPixel 0 0 false 0)))))
    as (diff2 & _ & Hinv2 & Hlen2);
    [done | done | done | lia | cbn [length] in *; lia | lia | lia
    | lia | by rewrite length_map | done |].
  done.
Qed.

Lemma planes_lengths (frames : list (Mat Z)) (projectionSize : Size) (mask : Mat Z) :
  valid_input frames projectionSize mask = true ->
  let cfc := column_frame_count (width projectionSize) in
  Forall (fun pl : Plane =>
            length (plane_diff mask pl.2.1 pl.2.2) =
            (camera_rows frames * camera_cols frames)%nat)
    (column_planes frames cfc ++ row_planes frames cfc).
Proof.
  intros Hvalid cfc.
  destruct (valid_input_spec _ _ _ Hvalid)
    as (f0 & rest & -> & Hall & Hm & Hr & Hc & Hrc & HW & Hcfc & Hev & Hlen).
  destruct (column_frame_count_eq _ HW) as [Hn Hcfceq].
  cbn [camera_rows camera_cols].
  assert (Hws : forall i f, (f0 :: rest) !! i = Some f ->
                            well_sized (rows f0) (cols f0) f = true).
  { intros i f Hi. eapply (proj1 (Forall_lookup _ _) Hall). exact Hi. }
  apply Forall_app. split; apply Forall_lookup; intros k pl Hk.
  - apply column_planes_lookup in Hk as (_ & H1 & H2).
    apply length_plane_diff; eauto.
  - apply row_planes_lookup in Hk as (_ & H1 & H2); [|subst cfc; lia].
    apply length_plane_diff; eauto.
Qed.

(** The state of one pixel after the whole decode: the fold of the pixel
    steps over the column pairs, the toggle cleared, then over the row pairs. *)
Lemma decode_model_lookup (frames : list (Mat Z)) (projectionSize : Size)
    (mask : Mat Z) (thr : Z) (p : nat) :
  valid_input frames projectionSize mask = true ->
  (p < camera_rows frames * camera_cols frames)%nat ->
  let cfc := column_frame_count (width projectionSize) in
  let step axis := fun s (pl : Plane) =>
        pixel_step axis pl.1 thr
          (default 0 (plane_diff mask pl.2.1 pl.2.2 !! p)) s in
  decode_model frames projectionSize mask thr !! p =
  Some (foldl (step 1)
          (clear_temp (foldl (step 0) (mkPixel 0 0 false 0)
                         (column_planes frames cfc)))
          (row_planes frames cfc)).
Proof.
  intros Hvalid Hp cfc step.
  pose proof (planes_lengths frames projectionSize mask Hvalid) as Hlens.
  cbn zeta in Hlens. fold cfc in Hlens. apply Forall_app in Hlens as [Hcol Hrow].
  unfold decode_model. fold cfc.
  assert (Hn : match frames with
               | [] => 0%nat
               | f0 :: _ => (rows f0 * cols f0)%nat
               end = (camera_rows frames * camera_cols frames)%nat).
  { by destruct frames. }
  rewrite Hn.
  apply decode_planes_lookup.
  - rewrite list_lookup_fmap.
    rewrite (decode_planes_lookup 0 thr mask p (column_planes frames cfc)
               _ (mkPixel 0 0 false 0)); [done | |].
    + apply lookup_replicate_2. lia.
    + eapply Forall_impl; [|exact Hcol]. intros pl Hpl. cbn beta in *. lia.
  - eapply Forall_impl; [|exact Hrow]. intros pl Hpl. cbn beta in *. lia.
Qed.

(** ** The error level of a pixel *)

Lemma arr_set_Some {A : Type} (a a' : list A) (i : Z) (v : A) :
  arr_set a i v = Some a' ->
  a' = <[Z.to_nat i := v]> a /\ (Z.to_nat i < length a)%nat.
Proof.
  unfold arr_set. destruct (Z.leb_spec 0 i); cbn [andb]; [|done].
  destruct (Z.ltb_spec i (Z.of_nat (length a))); [|done].
  intros [= <-]. split; [done|lia].
Qed.

Lemma arr_get_Some {A : Type} (a : list A) (i : Z) (x : A) :
  arr_get a i = Some x -> a !! Z.to_nat i = Some x.
Proof. unfold arr_get. by destruct (i <? 0). Qed.

(** C3. Every call of the per-pixel lambda leaves each stored error level
    as it is or replaces it by a strictly larger one, in the first loop as
    in the second; and after one call of getCameraProjectionPairs on a
    valid input the error level of every pixel is the largest weight
    recorded for it over the bit-plane pairs of both axes (zero when none
    was recorded). *)
Theorem error_level_only_grows (fuel : nat) (cam0 proj0 : list Point)
    (frames : list (Mat Z)) (projectionSize : Size) (mask : Mat Z)
    (minPointCount thr : Z) :
  valid_input frames projectionSize mask = true ->
  enough_fuel fuel frames ->
  (forall (axis w cw pixel : Z) (position : Z * Z) (b b' : Buffers),
     decode_pixel axis w thr cw pixel position b = Some b' ->
     length (error b') = length (error b) /\
     forall (p : nat) (e' : Z), error b' !! p = Some e' ->
       exists e : Z, error b !! p = Some e /\ (e' = e \/ e < e'))
  /\
  exists o : Outcome,
    getCameraProjectionPairs_run fuel cam0 proj0 frames projectionSize mask
      minPointCount thr = Some o /\
    length (error (decoded o)) = (camera_rows frames * camera_cols frames)%nat /\
    forall (p : nat) (e : Z), error (decoded o) !! p = Some e ->
      e = max_weight (recorded_weights thr
            (pixel_trace frames projectionSize mask p)).
Proof.
  intros Hvalid Hfuel. split.
  - intros axis w cw pixel position b b' Hrun. unfold decode_pixel in Hrun.
    set (pos := to_i32 (to_u32 (position.1 * cw + position.2))) in *.
    destruct (arr_get (coordinates b) (2 * pos + axis)) as [c|]; [|done].
    cbn [mbind option_bind] in Hrun.
    destruct (arr_set (coordinates b) (2 * pos + axis) _) as [coords1|]; [|done].
    cbn [mbind option_bind] in Hrun.
    destruct (arr_get (temp b) pos) as [t|]; [|done].
    cbn [mbind option_bind] in Hrun.
    destruct (arr_set (temp b) pos _) as [temp1|]; [|done].
    cbn [mbind option_bind] in Hrun.
    destruct (arr_get (error b) pos) as [e|] eqn:He; [|done].
    cbn [mbind option_bind] in Hrun.
    apply arr_get_Some in He.
    assert (Herr : exists error1 : list Z,
               error b' = error1 /\
               (error1 = error b \/
                (e < w /\ error1 = <[Z.to_nat pos := w]> (error b)))).
    { destruct (in_noise_band thr pixel && (e <? w)) eqn:Hc.
      - destruct (arr_set (error b) pos w) as [error1|] eqn:Hset; [|done].
        cbn [mbind option_bind] in Hrun.
        apply arr_set_Some in Hset as [-> _].
        apply andb_true_iff in Hc as [_ Hlt]. apply Z.ltb_lt in Hlt.
        exists (<[Z.to_nat pos := w]> (error b)). split; [|by right].
        destruct (xorb t (0 <=? pixel)).
        + destruct (arr_get coords1 _) as [c1|]; [|done].
          cbn [mbind option_bind] in Hrun.
          destruct (arr_set coords1 _ _) as [c2|]; [|done].
          cbn [mbind option_bind] in Hrun. by inversion Hrun.
        + cbn [mbind option_bind] in Hrun. by inversion Hrun.
      - cbn [mbind option_bind] in Hrun.
        exists (error b). split; [|by left].
        destruct (xorb t (0 <=? pixel)).
        + destruct (arr_get coords1 _) as [c1|]; [|done].
          cbn [mbind option_bind] in Hrun.
          destruct (arr_set coords1 _ _) as [c2|]; [|done].
          cbn [mbind option_bind] in Hrun. by inversion Hrun.
        + cbn [mbind option_bind] in Hrun. by inversion Hrun. }
    destruct Herr as (error1 & -> & [-> | [Hlt ->]]).
    + split; [done|]. intros p e' Hp. exists e'. auto.
    + split; [by rewrite length_insert|]. intros p e' Hp.
      destruct (decide (p = Z.to_nat pos)) as [-> | Hne].
      * exists e. split; [done|].
        rewrite list_lookup_insert_eq in Hp by (by eapply lookup_lt_Some).
        inversion Hp; subst. by right.
      * rewrite list_lookup_insert_ne in Hp by done. exists e'. auto.
  - exists (outcome_model cam0 proj0 frames projectionSize mask minPointCount thr).
    split; [by apply run_model|].
    cbn [outcome_model decoded]. change (error (buffers_of ?ps)) with (map px_error ps).
    rewrite length_map, decode_model_length by done. split; [done|].
    intros p e Hp. rewrite list_lookup_fmap in Hp.
    destruct (decode_model frames projectionSize mask thr !! p) as [s|] eqn:Hs;
      [|done].
    inversion Hp; subst. clear Hp.
    pose proof (lookup_lt_Some _ _ _ Hs) as Hlt.
    rewrite decode_model_length in Hlt by done.
    rewrite (decode_model_lookup frames projectionSize mask thr p Hvalid Hlt) in Hs.
    cbn zeta in Hs. inversion Hs; subst. clear Hs.
    rewrite px_error_foldl.
    + change (px_error (clear_temp ?s)) with (px_error s).
      rewrite px_error_foldl by (cbn; lia). cbn [px_error].
      unfold pixel_trace. rewrite map_app, recorded_weights_app, max_weight_app.
      pose proof (max_weight_nonneg (recorded_weights thr
        (map (fun pl : Plane => (pl.1, default 0 (plane_diff mask pl.2.1 pl.2.2 !! p)))
           (column_planes frames (column_frame_count (width projectionSize)))))).
      lia.
    + change (px_error (clear_temp ?s)) with (px_error s).
      rewrite px_error_foldl by (cbn; lia). cbn [px_error].
      pose proof (max_weight_nonneg (recorded_weights thr
        (map (fun pl : Plane => (pl.1, default 0 (plane_diff mask pl.2.1 pl.2.2 !! p)))
           (column_planes frames (column_frame_count (width projectionSize)))))).
      lia.
Qed.

Lemma error_level_only_grows_witness :
  exists o : Outcome,
    getCameraProjectionPairs_run 200 [] [] scenario_frames scenario_size
      scenario_mask 50 10 = Some o /\
    length (error (decoded o)) = 100%nat.
Proof.
  destruct (error_level_only_grows 200 [] [] scenario_frames scenario_size
              scenario_mask 50 10) as (_ & o & Hrun & Hlen & _).
  - vm_compute. reflexivity.
  - vm_compute. lia.
  - exists o. split; [exact Hrun | exact Hlen].
Defined.

(** ** Decoding a noise-free Gray code *)

Lemma gray_code_bit (v b : Z) :
  0 <= b ->
  Z.testbit (gray_code v) b = xorb (Z.testbit v b) (Z.testbit v (b + 1)).
Proof.
  intros Hb. unfold gray_code. rewrite Z.lxor_spec, Z.shiftr_spec by lia. done.
Qed.

Lemma shiftr_step (v b : Z) :
  0 <= b ->
  Z.shiftr v b = 2 * Z.shiftr v (b + 1) + (if Z.testbit v b then 1 else 0).
Proof.
  intros Hb.
  rewrite !Z.shiftr_div_pow2, Z.testbit_eqb by lia.
  rewrite Z.pow_add_r by lia. change (2 ^ 1) with 2.
  assert (0 < 2 ^ b) by lia.
  rewrite <- Z.div_div by lia.
  set (q := v / 2 ^ b).
  pose proof (Z.div_mod q 2 ltac:(lia)).
  pose proof (Z.mod_pos_bound q 2 ltac:(lia)).
  destruct (Z.eqb_spec (q mod 2) 1); lia.
Qed.

Lemma shiftr_small (v n : Z) : 0 <= n -> 0 <= v < 2 ^ n -> Z.shiftr v n = 0.
Proof. intros Hn Hv. rewrite Z.shiftr_div_pow2 by lia. apply Z.div_small. lia. Qed.

Lemma testbit_small (v n : Z) : 0 <= n -> 0 <= v < 2 ^ n -> Z.testbit v n = false.
Proof.
  intros Hn Hv. rewrite Z.testbit_eqb by lia.
  rewrite Z.div_small by lia. done.
Qed.

Lemma shiftr_bound (v n b : Z) :
  0 <= b -> 0 <= n -> 0 <= v < 2 ^ n -> 0 <= Z.shiftr v b < 2 ^ n.
Proof.
  intros Hb Hn Hv. rewrite Z.shiftr_div_pow2 by lia.
  assert (0 < 2 ^ b) by lia. split.
  - apply Z.div_pos; lia.
  - apply Z.le_lt_trans with v; [|lia]. apply Z.div_le_upper_bound; nia.
Qed.

Lemma noise_band_255 (thr : Z) (g : bool) :
  thr <= 255 -> in_noise_band thr (if g then 255 else -255) = false.
Proof.
  intros Hthr. unfold in_noise_band.
  destruct g; [destruct (Z.ltb_spec 255 thr); [lia|by rewrite andb_false_r]|].
  destruct (Z.ltb_spec (- thr) (-255)); [lia|done].
Qed.

(** One noise-free bit-plane pair: the toggle becomes the next binary bit
    and the accumulator takes it in. *)
Lemma gray_pixel_step (axis w thr v b : Z) (s : PixelState) :
  thr <= 255 -> 0 <= b -> 0 <= v < 2 ^ 16 ->
  px_temp s = Z.testbit v (b + 1) ->
  let s' := pixel_step axis w thr
              (if Z.testbit (gray_code v) b then 255 else -255) s in
  px_temp s' = Z.testbit v b /\ px_error s' = px_error s /\
  (axis = 0 -> px_x s = Z.shiftr v (b + 1) ->
     px_x s' = Z.shiftr v b /\ px_y s' = px_y s) /\
  (axis = 1 -> px_y s = Z.shiftr v (b + 1) ->
     px_y s' = Z.shiftr v b /\ px_x s' = px_x s).
Proof.
  intros Hthr Hb Hv Ht s'. subst s'. unfold pixel_step.
  cbn [px_temp px_error px_x px_y].
  assert (Hpix : (0 <=? (if Z.testbit (gray_code v) b then 255 else -255)) =
                 Z.testbit (gray_code v) b) by (by destruct (Z.testbit _ b)).
  rewrite Hpix, Ht, gray_code_bit by done.
  assert (Htog : xorb (Z.testbit v (b + 1))
                   (xorb (Z.testbit v b) (Z.testbit v (b + 1))) = Z.testbit v b)
    by (by destruct (Z.testbit v (b + 1)), (Z.testbit v b)).
  rewrite Htog.
  assert (Hstep : bit_step (Z.shiftr v (b + 1)) (Z.testbit v b) = Z.shiftr v b).
  { unfold bit_step. rewrite Z.shiftl_mul_pow2 by lia. change (2 ^ 1) with 2.
    pose proof (shiftr_bound v 16 b Hb ltac:(lia) Hv) as Hbd.
    pose proof (shiftr_step v b Hb) as Hs.
    pose proof (shiftr_bound v 16 (b + 1) ltac:(lia) ltac:(lia) Hv) as Hbd1.
    destruct (Z.testbit v b).
    - rewrite (to_u16_small (Z.shiftr v (b + 1) * 2)) by lia.
      rewrite to_u16_small; lia.
    - rewrite to_u16_small; lia. }
  split; [done|]. split.
  { unfold error_step. rewrite <- gray_code_bit by done.
    by rewrite noise_band_255. }
  split.
  - intros -> Hx. cbn. by rewrite Hx, Hstep.
  - intros -> Hy. cbn. by rewrite Hy, Hstep.
Qed.

(** A noise-free axis of [n] bit-plane pairs rebuilds the coordinate [v]
    and records no weight. *)
Lemma gray_fold (axis thr : Z) (mask : Mat Z) (p : nat) (v : Z) (n : nat)
    (planes : list Plane) (s0 : PixelState) :
  thr <= 255 -> 0 <= v < 2 ^ Z.of_nat n -> 0 <= v < 2 ^ 16 ->
  length planes = n ->
  (forall (k : nat) (pl : Plane), planes !! k = Some pl ->
     default 0 (plane_diff mask pl.2.1 pl.2.2 !! p) =
     if Z.testbit (gray_code v) (Z.of_nat (n - 1 - k)) then 255 else -255) ->
  px_temp s0 = false ->
  let s := foldl (fun s (pl : Plane) =>
                    pixel_step axis pl.1 thr
                      (default 0 (plane_diff mask pl.2.1 pl.2.2 !! p)) s)
             s0 planes in
  px_error s = px_error s0 /\
  (axis = 0 -> px_x s0 = 0 -> px_x s = v /\ px_y s = px_y s0) /\
  (axis = 1 -> px_y s0 = 0 -> px_y s = v /\ px_x s = px_x s0).
Proof.
  intros Hthr Hvn Hv Hlen Hplanes Ht0.
  set (step := fun s (pl : Plane) =>
                 pixel_step axis pl.1 thr
                   (default 0 (plane_diff mask pl.2.1 pl.2.2 !! p)) s).
  assert (Hpre : forall m : nat, (m <= n)%nat ->
    let s := foldl step s0 (take m planes) in
    px_temp s = Z.testbit v (Z.of_nat (n - m)) /\ px_error s = px_error s0 /\
    (axis = 0 -> px_x s0 = 0 ->
       px_x s = Z.shiftr v (Z.of_nat (n - m)) /\ px_y s = px_y s0) /\
    (axis = 1 -> px_y s0 = 0 ->
       px_y s = Z.shiftr v (Z.of_nat (n - m)) /\ px_x s = px_x s0)).
  { induction m as [|m IH]; intros Hm.
    - rewrite take_0, Nat.sub_0_r. cbn [foldl].
      rewrite testbit_small, shiftr_small by lia. 
      split; [done|]. split; [done|]. split; intros _ H0; by rewrite H0.
    - destruct (IH ltac:(lia)) as (IHt & IHe & IHx & IHy). clear IH.
      destruct (lookup_lt_is_Some_2 planes m ltac:(lia)) as [pl Hpl].
      rewrite (take_S_r _ _ _ Hpl), foldl_app. cbn [foldl].
      set (s1 := foldl step s0 (take m planes)) in *.
      assert (Hsp : step s1 pl =
                pixel_step axis pl.1 thr
                  (if Z.testbit (gray_code v) (Z.of_nat (n - 1 - m))
                   then 255 else -255) s1).
      { unfold step. by rewrite (Hplanes m pl Hpl). }
      rewrite Hsp. clear Hsp.
      replace (Z.of_nat (n - m)) with (Z.of_nat (n - 1 - m) + 1) in IHt, IHx, IHy by lia.
      replace (Z.of_nat (n - S m)) with (Z.of_nat (n - 1 - m)) by lia.
      destruct (gray_pixel_step axis pl.1 thr v (Z.of_nat (n - 1 - m)) s1
                  Hthr ltac:(lia) Hv IHt) as (Gt & Ge & Gx & Gy).
      split; [done|]. split; [congruence|]. split.
      + intros Ha H0. destruct (IHx Ha H0) as [Hx1 Hy1].
        destruct (Gx Ha Hx1) as [Hx2 Hy2]. split; congruence.
      + intros Ha H0. destruct (IHy Ha H0) as [Hy1 Hx1].
        destruct (Gy Ha Hy1) as [Hy2 Hx2]. split; congruence. }
  intros s. specialize (Hpre n (Nat.le_refl n)). cbn zeta in Hpre.
  rewrite take_ge in Hpre by lia. rewrite Nat.sub_diag in Hpre.
  change (Z.shiftr v (Z.of_nat 0)) with (Z.shiftr v 0) in Hpre.
  rewrite Z.shiftr_0_r in Hpre.
  destruct Hpre as (_ & He & Hx & Hy). done.
Qed.

Lemma pair_bind_lookup {A B : Type} (f g : A -> B) (l : list A) (k : nat) :
  (l ≫= fun a => [f a; g a]) !! (2 * k)%nat = f <$> l !! k /\
  (l ≫= fun a => [f a; g a]) !! S (2 * k) = g <$> l !! k.
Proof.
  revert k. induction l as [|a l IH]; intros k; [done|].
  destruct k as [|k]; [done|].
  replace (2 * S k)%nat with (S (S (2 * k))) by lia. cbn. apply IH.
Qed.

Lemma pair_bind_length {A B : Type} (f g : A -> B) (l : list A) :
  length (l ≫= fun a => [f a; g a]) = (2 * length l)%nat.
Proof. induction l as [|a l IH]; [done|]. cbn in *. rewrite IH. lia. Qed.

Lemma length_gray_frames (r c : nat) (code : list Z) (n : nat) :
  length (gray_frames r c code n) = (2 * n)%nat.
Proof. unfold gray_frames. by rewrite pair_bind_length, length_seq. Qed.

Lemma gray_frames_lookup (r c : nat) (code : list Z) (n k : nat) :
  (k < n)%nat ->
  gray_frames r c code n !! (2 * k)%nat =
    Some (pattern_frame r c code (Z.of_nat (n - 1 - k))) /\
  gray_frames r c code n !! S (2 * k) =
    Some (inverse_frame r c code (Z.of_nat (n - 1 - k))).
Proof.
  intros Hk. unfold gray_frames.
  destruct (pair_bind_lookup
              (fun k => pattern_frame r c code (Z.of_nat (n - 1 - k)))
              (fun k => inverse_frame r c code (Z.of_nat (n - 1 - k)))
              (seq 0 n) k) as [H1 H2].
  rewrite H1, H2, lookup_seq_lt by done. done.
Qed.

Lemma synthetic_diff (r c : nat) (mask : Mat Z) (code : list Z) (b : Z)
    (p : nat) (m v : Z) :
  data mask !! p = Some m -> m <> 0 -> code !! p = Some v ->
  plane_diff mask (pattern_frame r c code b) (inverse_frame r c code b) !! p =
  Some (if Z.testbit (gray_code v) b then 255 else -255).
Proof.
  intros Hm Hm0 Hv. unfold plane_diff, pattern_frame, inverse_frame. cbn [data].
  apply lookup_zip_with_Some.
  exists m, (if Z.testbit (gray_code v) b then 255 else -255).
  split; [|split; [done|]].
  - destruct (Z.eqb_spec m 0); [done|]. by destruct (Z.testbit (gray_code v) b).
  - apply lookup_zip_with_Some.
    exists (if Z.testbit (gray_code v) b then 255 else 0),
           (if Z.testbit (gray_code v) b then 0 else 255).
    rewrite !list_lookup_fmap, Hv. split; [|done].
    by destruct (Z.testbit (gray_code v) b).
Qed.

Lemma synthetic_ok_spec (r c : nat) (xs ys : list Z) (ny : nat)
    (projectionSize : Size) (mask : Mat Z) :
  synthetic_ok r c xs ys ny projectionSize mask = true ->
  length xs = (r * c)%nat /\ length ys = (r * c)%nat /\
  (forall p x, xs !! p = Some x -> 0 <= x < width projectionSize) /\
  (forall p y, ys !! p = Some y ->
     0 <= y < height projectionSize /\ y < 2 ^ Z.of_nat ny) /\
  width projectionSize <= 2 ^ 16 /\ (ny <= 16)%nat /\
  (forall p m, data mask !! p = Some m -> m <> 0).
Proof.
  unfold synthetic_ok.
  rewrite !andb_true_iff, !forallb_forall, !Nat.eqb_eq, Z.leb_le, Nat.leb_le.
  intros ((((((Hx & Hy) & Hxs) & Hys) & HW) & Hny) & Hmask).
  repeat split; try done.
  - apply list_elem_of_lookup_2, list_elem_of_In, Hxs in H.
    apply andb_true_iff in H as [H1 H2]. lia.
  - apply list_elem_of_lookup_2, list_elem_of_In, Hxs in H.
    apply andb_true_iff in H as [H1 H2]. lia.
  - apply list_elem_of_lookup_2, list_elem_of_In, Hys in H.
    rewrite !andb_true_iff in H. lia.
  - apply list_elem_of_lookup_2, list_elem_of_In, Hys in H.
    rewrite !andb_true_iff in H. lia.
  - apply list_elem_of_lookup_2, list_elem_of_In, Hys in H.
    rewrite !andb_true_iff in H. lia.
  - intros p m Hm. apply list_elem_of_lookup_2, list_elem_of_In, Hmask in Hm.
    destruct (Z.eqb_spec m 0); [done|lia].
Qed.

Lemma log2_up_pow (W : Z) : 1 <= W -> W <= 2 ^ Z.log2_up W.
Proof.
  intros HW. destruct (Z.eq_dec W 1) as [->|Hne]; [done|].
  apply Z.log2_up_spec. lia.
Qed.

Lemma gray_frames_sizes (r c : nat) (code : list Z) (n : nat) :
  Forall (fun f : Mat Z => rows f = r /\ cols f = c) (gray_frames r c code n).
Proof.
  unfold gray_frames. generalize (seq 0 n). intros l.
  induction l as [|k l IH]; [constructor|].
  cbn. constructor; [done|]. constructor; [done|]. exact IH.
Qed.

Lemma synthetic_camera (r c : nat) (xs ys : list Z) (nx ny : nat) :
  synthetic_frames r c xs ys nx ny <> [] ->
  camera_rows (synthetic_frames r c xs ys nx ny) = r /\
  camera_cols (synthetic_frames r c xs ys nx ny) = c.
Proof.
  intros Hne.
  assert (Hall : Forall (fun f : Mat Z => rows f = r /\ cols f = c)
                   (synthetic_frames r c xs ys nx ny)).
  { apply Forall_app. split; apply gray_frames_sizes. }
  destruct (synthetic_frames r c xs ys nx ny) as [|f0 rest]; [done|].
  apply Forall_cons_1 in Hall as [[Hr Hc] _]. done.
Qed.

(** In a noise-free capture every pixel decodes to its own coordinate
    pair, with error level 0. *)
Lemma synthetic_pixel (r c : nat) (xs ys : list Z) (ny : nat)
    (projectionSize : Size) (mask : Mat Z) (thr : Z) (p : nat) (s : PixelState) :
  let nx := Z.to_nat (Z.log2_up (width projectionSize)) in
  let frames := synthetic_frames r c xs ys nx ny in
  valid_input frames projectionSize mask = true ->
  synthetic_ok r c xs ys ny projectionSize mask = true ->
  thr <= 255 ->
  decode_model frames projectionSize mask thr !! p = Some s ->
  xs !! p = Some (px_x s) /\ ys !! p = Some (px_y s) /\ px_error s = 0.
Proof.
  intros nx frames Hvalid Hok Hthr Hs.
  destruct (synthetic_ok_spec _ _ _ _ _ _ _ Hok)
    as (Hlx & Hly & Hxs & Hys & HW16 & Hny & Hmask).
  pose proof (lookup_lt_Some _ _ _ Hs) as Hlt.
  rewrite decode_model_length in Hlt by done.
  rewrite (decode_model_lookup frames projectionSize mask thr p Hvalid Hlt) in Hs.
  cbn zeta in Hs.
  destruct (valid_input_spec _ _ _ Hvalid)
    as (f0 & rest & Hfr & Hall & Hm & Hr & Hc & Hrc & HW & Hcfc & Hev & Hlen).
  destruct (column_frame_count_eq _ HW) as [Hn Hcfceq].
  destruct (synthetic_camera r c xs ys nx ny) as [Hcr Hcc].
  { fold frames. by rewrite Hfr. }
  fold frames in Hcr, Hcc. rewrite Hcr, Hcc in Hlt.
  assert (Hmw : well_sized r c mask = true).
  { rewrite <- Hcr, <- Hcc, Hfr. exact Hm. }
  apply well_sized_spec in Hmw as (_ & _ & Hml).
  destruct (lookup_lt_is_Some_2 xs p ltac:(lia)) as [x Hx].
  destruct (lookup_lt_is_Some_2 ys p ltac:(lia)) as [y Hy].
  destruct (lookup_lt_is_Some_2 (data mask) p ltac:(lia)) as [m Hmp].
  pose proof (Hmask p m Hmp) as Hm0.
  destruct (Hxs p x Hx) as [Hx0 HxW]. destruct (Hys p y Hy) as [[Hy0 HyH] Hy2].
  pose proof (log2_up_pow (width projectionSize) ltac:(lia)) as HWpow.
  rewrite Hcfceq in Hs.
  assert (Hnx : Z.of_nat nx = Z.log2_up (width projectionSize)) by (subst nx; lia).
  assert (Hlf : length frames = (2 * nx + 2 * ny)%nat).
  { subst frames. unfold synthetic_frames.
    by rewrite length_app, !length_gray_frames. }
  (* the column pairs *)
  set (s1 := foldl _ (mkPixel 0 0 false 0) (column_planes frames _)) in Hs.
  destruct (gray_fold 0 thr mask p x nx
              (column_planes frames (2 * Z.log2_up (width projectionSize)))
              (mkPixel 0 0 false 0) Hthr) as (He1 & Hx1 & _).
  { rewrite Hnx. lia. }
  { lia. }
  { rewrite length_column_planes; lia. }
  { intros k pl Hk.
    pose proof (lookup_lt_Some _ _ _ Hk) as Hkl.
    rewrite length_column_planes in Hkl by lia.
    apply column_planes_lookup in Hk as (_ & H1 & H2).
    destruct (gray_frames_lookup r c xs nx k ltac:(lia)) as [G1 G2].
    subst frames. unfold synthetic_frames in H1, H2.
    rewrite lookup_app_l in H1 by (rewrite length_gray_frames; lia).
    rewrite lookup_app_l in H2 by (rewrite length_gray_frames; lia).
    cbn [Nat.add] in H1, H2.
    assert (E1 : pl.2.1 = pattern_frame r c xs (Z.of_nat (nx - 1 - k))) by congruence.
    assert (E2 : pl.2.2 = inverse_frame r c xs (Z.of_nat (nx - 1 - k))) by congruence.
    rewrite E1, E2.
    by rewrite (synthetic_diff r c mask xs _ p m x). }
  { done. }
  fold s1 in He1, Hx1. destruct (Hx1 eq_refl eq_refl) as [Hsx Hsy].
  cbn [px_error px_y] in He1, Hsy.
  (* the row pairs *)
  destruct (gray_fold 1 thr mask p y ny
              (row_planes frames (2 * Z.log2_up (width projectionSize)))
              (clear_temp s1) Hthr) as (He2 & _ & Hy2').
  { lia. }
  { split; [lia|]. apply Z.lt_le_trans with (2 ^ Z.of_nat ny); [lia|].
    apply Z.pow_le_mono_r; lia. }
  { rewrite (length_row_planes frames _ (Z.of_nat ny)); lia. }
  { intros k pl Hk.
    pose proof (lookup_lt_Some _ _ _ Hk) as Hkl.
    rewrite (length_row_planes frames _ (Z.of_nat ny)) in Hkl by lia.
    apply row_planes_lookup in Hk as (_ & H1 & H2); [|lia].
    destruct (gray_frames_lookup r c ys ny k ltac:(lia)) as [G1 G2].
    subst frames. unfold synthetic_frames in H1, H2.
    rewrite lookup_app_r in H1 by (rewrite length_gray_frames; lia).
    rewrite lookup_app_r in H2 by (rewrite length_gray_frames; lia).
    rewrite length_gray_frames in H1, H2.
    replace (Z.to_nat (2 * Z.log2_up (width projectionSize)) + 2 * k - 2 * nx)%nat
      with (2 * k)%nat in H1 by lia.
    replace (S (Z.to_nat (2 * Z.log2_up (width projectionSize)) + 2 * k) - 2 * nx)%nat
      with (S (2 * k)) in H2 by lia.
    assert (E1 : pl.2.1 = pattern_frame r c ys (Z.of_nat (ny - 1 - k))) by congruence.
    assert (E2 : pl.2.2 = inverse_frame r c ys (Z.of_nat (ny - 1 - k))) by congruence.
    rewrite E1, E2.
    by rewrite (synthetic_diff r c mask ys _ p m y). }
  { done. }
  inversion Hs as [Hs']. clear Hs.
  change (px_error (clear_temp s1)) with (px_error s1) in He2.
  change (px_x (clear_temp s1)) with (px_x s1) in Hy2'.
  change (px_y (clear_temp s1)) with (px_y s1) in Hy2'.
  destruct (Hy2' eq_refl Hsy) as [Hfy Hfx].
  rewrite Hfx, Hfy, He2, He1, Hsx. done.
Qed.

(** ** Comprehensions over the camera pixels *)

Lemma fmap_bind_list {A B C : Type} (f : B -> C) (g : A -> list B) (l : list A) :
  f <$> (l ≫= g) = l ≫= (fun a => f <$> g a).
Proof.
  induction l as [|a l IH]; [done|]. cbn. by rewrite fmap_app, IH.
Qed.

Lemma seq_bind_ext {B : Type} (f g : nat -> list B) (n : nat) :
  (forall k : nat, (k < n)%nat -> f k = g k) ->
  seq 0 n ≫= f = seq 0 n ≫= g.
Proof.
  induction n as [|n IH]; intros Hfg; [done|].
  rewrite seq_S, !bind_app, IH by (intros; apply Hfg; lia).
  cbn. by rewrite Hfg by lia.
Qed.

Lemma flatten_rows {B : Type} (g : nat -> B) (w h : nat) :
  (seq 0 h ≫= fun y => seq 0 w ≫= fun x => [g (y * w + x)%nat]) =
  g <$> seq 0 (h * w).
Proof.
  induction h as [|h IH]; [done|].
  rewrite seq_S, bind_app, IH. cbn [mbind list_bind Nat.add]. rewrite app_nil_r.
  replace (S h * w)%nat with (h * w + w)%nat by lia.
  rewrite seq_app, fmap_app. f_equal. cbn [Nat.add].
  rewrite (bind_singleton (fun x => g (h * w + x)%nat)).
  pose proof (fmap_add_seq (h * w) 0 w) as Hseq. rewrite Nat.add_0_r in Hseq.
  rewrite <- Hseq, <- list_fmap_compose. done.
Qed.

Lemma cumulative_zeros (n : nat) (l : Z) :
  0 <= l -> cumulative (replicate n 0) l = Z.of_nat n.
Proof.
  intros Hl. unfold cumulative. induction n as [|n IH]; [done|].
  cbn [replicate count_if]. rewrite IH.
  destruct (Z.leb_spec 0 l); lia.
Qed.

Lemma camera_points_positions (w h : nat) :
  camera_points w h = (fun rc : Z * Z => mkPoint rc.2 rc.1) <$> positions h w.
Proof.
  unfold camera_points, positions. rewrite fmap_bind_list.
  apply seq_bind_ext. intros y _. by rewrite fmap_bind_list.
Qed.

Lemma length_camera_points (w h : nat) : length (camera_points w h) = (h * w)%nat.
Proof. by rewrite camera_points_positions, length_fmap, length_positions. Qed.

Lemma tolerance_model_range (error : list Z) (minPointCount : Z) :
  0 <= tolerance_model error minPointCount <= 4.
Proof.
  unfold tolerance_model.
  repeat match goal with |- context [if ?b then _ else _] => destruct b end; lia.
Qed.

(** When every pixel passes the test, the scan returns every camera point
    with the pixel's decoded coordinates. *)
Lemma scan_model_all (ps : list PixelState) (projectionSize : Size)
    (t : Z) (w h : nat) (g : nat -> Point) :
  (forall p : nat, (p < h * w)%nat ->
     exists s : PixelState, ps !! p = Some s /\
       qualifies projectionSize t s = true /\ g p = mkPoint (px_x s) (px_y s)) ->
  (scan_model ps projectionSize t w h).*1 = camera_points w h /\
  (scan_model ps projectionSize t w h).*2 = g <$> seq 0 (h * w).
Proof.
  intros Hall.
  assert (Hpt : forall y x : nat, (y < h)%nat -> (x < w)%nat ->
            scan_point ps projectionSize t w y x =
            [(mkPoint (Z.of_nat x) (Z.of_nat y), g (y * w + x)%nat)]).
  { intros y x Hy Hx. destruct (Hall (y * w + x)%nat ltac:(nia)) as (s & Hs & Hq & Hg).
    unfold scan_point. by rewrite Hs, Hq, Hg. }
  unfold scan_model, camera_points. rewrite !fmap_bind_list. split.
  - apply seq_bind_ext. intros y Hy. rewrite fmap_bind_list.
    apply seq_bind_ext. intros x Hx. by rewrite Hpt.
  - rewrite <- flatten_rows.
    apply seq_bind_ext. intros y Hy. rewrite fmap_bind_list.
    apply seq_bind_ext. intros x Hx. by rewrite Hpt.
Qed.

(** C1. A noise-free Gray-code capture is decoded exactly: one pair per
    camera pixel, in row-major order, the projector point being the
    coordinate pair the patterns encode; every error level is 0; and the
    tolerance is level 0 as soon as [minPointCount] does not exceed the
    number of camera pixels.  The noise band must stay below the full
    swing of the patterns ([threshold <= 255]). *)
Theorem noise_free_round_trip (fuel r c : nat) (xs ys : list Z) (ny : nat)
    (projectionSize : Size) (mask : Mat Z) (minPointCount thr : Z) :
  let nx := Z.to_nat (Z.log2_up (width projectionSize)) in
  let frames := synthetic_frames r c xs ys nx ny in
  valid_input frames projectionSize mask = true ->
  synthetic_ok r c xs ys ny projectionSize mask = true ->
  thr <= 255 ->
  enough_fuel fuel frames ->
  exists o : Outcome,
    getCameraProjectionPairs_run fuel [] [] frames projectionSize mask
      minPointCount thr = Some o /\
    getCameraProjectionPairs fuel [] [] frames projectionSize mask
      minPointCount thr = Some (camera_points c r, zip_with mkPoint xs ys) /\
    length (camera_points c r) = (r * c)%nat /\
    error (decoded o) = replicate (r * c) 0 /\
    (minPointCount <= Z.of_nat (r * c) -> tolerance o = 0).
Proof.
  intros nx frames Hvalid Hok Hthr Hfuel.
  pose proof (run_model fuel [] [] frames projectionSize mask minPointCount thr
                Hvalid Hfuel) as Hrun.
  exists (outcome_model [] [] frames projectionSize mask minPointCount thr).
  destruct (synthetic_ok_spec _ _ _ _ _ _ _ Hok)
    as (Hlx & Hly & Hxs & Hys & HW16 & Hny & Hmask).
  destruct (synthetic_camera r c xs ys nx ny) as [Hcr Hcc].
  { fold frames. intros Hnil. rewrite Hnil in Hvalid. done. }
  fold frames in Hcr, Hcc.
  set (ps := decode_model frames projectionSize mask thr).
  assert (Hlen : length ps = (r * c)%nat).
  { subst ps. rewrite decode_model_length by done. by rewrite Hcr, Hcc. }
  assert (Hpix : forall p s, ps !! p = Some s ->
            xs !! p = Some (px_x s) /\ ys !! p = Some (px_y s) /\ px_error s = 0).
  { intros p s Hs. by apply (synthetic_pixel r c xs ys ny projectionSize mask thr p s). }
  assert (Herr : map px_error ps = replicate (r * c) 0).
  { apply list_eq. intros p. rewrite list_lookup_fmap.
    destruct (ps !! p) as [s|] eqn:Hs.
    - destruct (Hpix p s Hs) as (_ & _ & He). cbn. rewrite He. symmetry.
      apply lookup_replicate_2. apply lookup_lt_Some in Hs. lia.
    - cbn. symmetry. apply lookup_replicate_None.
      apply lookup_ge_None in Hs. lia. }
  set (t := tolerance_model (map px_error ps) minPointCount).
  pose proof (tolerance_model_range (map px_error ps) minPointCount) as Ht.
  fold t in Ht.
  destruct (scan_model_all ps projectionSize t c r
              (fun p => mkPoint (default 0 (xs !! p)) (default 0 (ys !! p))))
    as [Hcam Hproj].
  { intros p Hp. destruct (lookup_lt_is_Some_2 ps p ltac:(lia)) as [s Hs].
    destruct (Hpix p s Hs) as (Hx & Hy & He).
    exists s. split; [done|]. split.
    - destruct (Hxs p _ Hx) as [Hx0 HxW]. destruct (Hys p _ Hy) as [[Hy0 HyH] _].
      unfold qualifies. rewrite He.
      destruct (Z.leb_spec 0 (px_x s)); [|lia].
      destruct (Z.ltb_spec (px_x s) (width projectionSize)); [|lia].
      destruct (Z.leb_spec 0 (px_y s)); [|lia].
      destruct (Z.ltb_spec (px_y s) (height projectionSize)); [|lia].
      destruct (Z.leb_spec 0 t); [done|lia].
    - by rewrite Hx, Hy. }
  assert (Hzip : (fun p => mkPoint (default 0 (xs !! p)) (default 0 (ys !! p)))
                   <$> seq 0 (r * c) = zip_with mkPoint xs ys).
  { apply list_eq. intros p. rewrite list_lookup_fmap.
    destruct (decide (p < r * c)%nat) as [Hp|Hp].
    - rewrite lookup_seq_lt by done. cbn.
      destruct (lookup_lt_is_Some_2 xs p ltac:(lia)) as [x Hx].
      destruct (lookup_lt_is_Some_2 ys p ltac:(lia)) as [y Hy].
      rewrite Hx, Hy. cbn. symmetry. apply lookup_zip_with_Some. eauto.
    - rewrite lookup_ge_None_2 by (rewrite length_seq; lia). cbn. symmetry.
      apply lookup_ge_None_2. rewrite length_zip_with. lia. }
  split; [exact Hrun|]. split.
  { unfold getCameraProjectionPairs. rewrite Hrun. cbn [mbind option_bind].
    unfold outcome_model. cbn [out_camera out_projection app].
    fold ps. fold t. rewrite Hcr, Hcc, Hcam, Hproj, Hzip. done. }
  split; [by rewrite length_camera_points|].
  split; [exact Herr|].
  intros Hmin. unfold outcome_model. cbn [tolerance]. fold ps.
  rewrite Herr. unfold tolerance_model.
  rewrite cumulative_zeros by lia.
  destruct (Z.leb_spec minPointCount (Z.of_nat (r * c))); [done|lia].
Qed.

Lemma noise_free_round_trip_witness :
  exists o : Outcome,
    getCameraProjectionPairs_run 200 [] [] scenario_frames scenario_size
      scenario_mask 50 10 = Some o /\
    getCameraProjectionPairs 200 [] [] scenario_frames scenario_size
      scenario_mask 50 10 =
      Some (camera_points 10 10, zip_with mkPoint scenario_xs scenario_ys) /\
    length (camera_points 10 10) = 100%nat /\
    error (decoded o) = replicate 100 0 /\
    tolerance o = 0.
Proof.
  destruct (noise_free_round_trip 200 10 10 scenario_xs scenario_ys 3
              scenario_size scenario_mask 50 10)
    as (o & Hrun & Hpairs & Hlen & Herr & Htol).
  - vm_compute. reflexivity.
  - vm_compute. reflexivity.
  - vm_compute. discriminate.
  - vm_compute. lia.
  - exists o. split; [exact Hrun|]. split; [exact Hpairs|].
    split; [exact Hlen|]. split; [exact Herr|].
    apply Htol. vm_compute. discriminate.
Defined.

(** ** The pairs that the scan returns *)

Lemma seq_bind_sublist {B : Type} (f g : nat -> list B) (n : nat) :
  (forall k : nat, (k < n)%nat -> f k `sublist_of` g k) ->
  (seq 0 n ≫= f) `sublist_of` (seq 0 n ≫= g).
Proof.
  induction n as [|n IH]; intros Hfg; [done|].
  rewrite seq_S, !bind_app. apply sublist_app; [apply IH; intros; apply Hfg; lia|].
  cbn. rewrite !app_nil_r. apply Hfg. lia.
Qed.

Lemma scan_point_elem (ps : list PixelState) (projectionSize : Size) (t : Z)
    (w y x : nat) (pr : Point * Point) :
  pr ∈ scan_point ps projectionSize t w y x <->
  exists s : PixelState,
    ps !! (y * w + x)%nat = Some s /\ qualifies projectionSize t s = true /\
    pr = (mkPoint (Z.of_nat x) (Z.of_nat y), mkPoint (px_x s) (px_y s)).
Proof.
  unfold scan_point. destruct (ps !! (y * w + x)%nat) as [s|].
  - destruct (qualifies projectionSize t s) eqn:Hq.
    + rewrite list_elem_of_singleton. split.
      * intros ->. eauto.
      * intros (s' & [= <-] & _ & ->). done.
    + rewrite elem_of_nil. split; [done|].
      intros (s' & [= <-] & Hq' & _). congruence.
  - rewrite elem_of_nil. split; [done|]. intros (s' & Hs & _). done.
Qed.

Lemma scan_model_elem (ps : list PixelState) (projectionSize : Size) (t : Z)
    (w h : nat) (pr : Point * Point) :
  pr ∈ scan_model ps projectionSize t w h <->
  exists (y x : nat) (s : PixelState),
    (y < h)%nat /\ (x < w)%nat /\
    ps !! (y * w + x)%nat = Some s /\ qualifies projectionSize t s = true /\
    pr = (mkPoint (Z.of_nat x) (Z.of_nat y), mkPoint (px_x s) (px_y s)).
Proof.
  unfold scan_model. rewrite list_elem_of_bind. split.
  - intros (y & Hin & Hy). apply list_elem_of_bind in Hin as (x & Hin & Hx).
    apply elem_of_seq in Hy, Hx. apply scan_point_elem in Hin as (s & Hs & Hq & ->).
    exists y, x, s. repeat split; try done; lia.
  - intros (y & x & s & Hy & Hx & Hs & Hq & ->).
    exists y. split; [|apply elem_of_seq; lia].
    apply list_elem_of_bind. exists x. split; [|apply elem_of_seq; lia].
    apply scan_point_elem. eauto.
Qed.

Lemma scan_model_sublist (ps : list PixelState) (projectionSize : Size) (t : Z)
    (w h : nat) :
  (scan_model ps projectionSize t w h).*1 `sublist_of` camera_points w h.
Proof.
  unfold scan_model, camera_points. rewrite fmap_bind_list.
  apply seq_bind_sublist. intros y _. rewrite fmap_bind_list.
  apply seq_bind_sublist. intros x _. unfold scan_point.
  destruct (ps !! (y * w + x)%nat) as [s|]; [|apply sublist_nil_l].
  destruct (qualifies projectionSize t s); [done|apply sublist_nil_l].
Qed.

Lemma qualifies_spec (projectionSize : Size) (t : Z) (s : PixelState) :
  qualifies projectionSize t s = true <->
  0 <= px_x s < width projectionSize /\ 0 <= px_y s < height projectionSize /\
  px_error s <= t.
Proof.
  unfold qualifies. rewrite !andb_true_iff, !Z.leb_le, !Z.ltb_lt. lia.
Qed.

(** C2. On a valid input the call appends to the two vectors the same
    number of points; the camera points appended are a sub-sequence of the
    row-major enumeration of the camera pixels; camera pixel (x, y) is
    among them exactly when its decoded coordinate lies in
    [0, width) x [0, height) and its error level is at most the tolerance;
    and the projector point at the same index is that decoded coordinate. *)
Theorem pairs_filter_in_scan_order (fuel : nat) (cam0 proj0 : list Point)
    (frames : list (Mat Z)) (projectionSize : Size) (mask : Mat Z)
    (minPointCount thr : Z) :
  valid_input frames projectionSize mask = true ->
  enough_fuel fuel frames ->
  let ps := decode_model frames projectionSize mask thr in
  let w := camera_cols frames in
  let h := camera_rows frames in
  exists (o : Outcome) (cam proj : list Point),
    getCameraProjectionPairs_run fuel cam0 proj0 frames projectionSize mask
      minPointCount thr = Some o /\
    decoded o = buffers_of ps /\
    out_camera o = cam0 ++ cam /\ out_projection o = proj0 ++ proj /\
    length cam = length proj /\
    (length cam0 = length proj0 ->
       length (out_camera o) = length (out_projection o)) /\
    cam `sublist_of` camera_points w h /\
    (forall x y : nat, (x < w)%nat -> (y < h)%nat ->
       (mkPoint (Z.of_nat x) (Z.of_nat y) ∈ cam <->
        exists s : PixelState,
          ps !! (y * w + x)%nat = Some s /\
          0 <= px_x s < width projectionSize /\
          0 <= px_y s < height projectionSize /\
          px_error s <= tolerance o)) /\
    (forall (i : nat) (a b : Point),
       cam !! i = Some a -> proj !! i = Some b ->
       exists (x y : nat) (s : PixelState),
         (x < w)%nat /\ (y < h)%nat /\
         a = mkPoint (Z.of_nat x) (Z.of_nat y) /\
         ps !! (y * w + x)%nat = Some s /\ b = mkPoint (px_x s) (px_y s)).
Proof.
  intros Hvalid Hfuel ps w h.
  pose proof (run_model fuel cam0 proj0 frames projectionSize mask minPointCount thr
                Hvalid Hfuel) as Hrun.
  set (o := outcome_model cam0 proj0 frames projectionSize mask minPointCount thr)
    in *.
  set (pairs := scan_model ps projectionSize (tolerance o) w h).
  exists o, (pairs.*1), (pairs.*2).
  split; [exact Hrun|]. split; [done|]. split; [done|]. split; [done|].
  split; [by rewrite !length_fmap|].
  split.
  { intros Hlen0. change (out_camera o) with (cam0 ++ pairs.*1).
    change (out_projection o) with (proj0 ++ pairs.*2).
    rewrite !length_app, !length_fmap. lia. }
  split; [apply scan_model_sublist|].
  split.
  - intros x y Hx Hy. rewrite list_elem_of_fmap. split.
    + intros (pr & Hfst & Hin).
      apply scan_model_elem in Hin as (y' & x' & s & Hy' & Hx' & Hs & Hq & ->).
      cbn [fst] in Hfst. unfold mkPoint in Hfst. inversion Hfst as [[Hxx Hyy]].
      apply Nat2Z.inj in Hxx, Hyy. subst x' y'.
      exists s. split; [done|]. by apply qualifies_spec.
    + intros (s & Hs & Hbx & Hby & He).
      exists (mkPoint (Z.of_nat x) (Z.of_nat y), mkPoint (px_x s) (px_y s)).
      split; [done|]. apply scan_model_elem.
      exists y, x, s. repeat split; try done. by apply qualifies_spec.
  - intros i a b Ha Hb.
    rewrite list_lookup_fmap in Ha, Hb.
    destruct (pairs !! i) as [pr|] eqn:Hpr; [|done].
    cbn in Ha, Hb. inversion Ha; subst a. inversion Hb; subst b.
    apply list_elem_of_lookup_2 in Hpr.
    apply scan_model_elem in Hpr as (y & x & s & Hy & Hx & Hs & Hq & ->).
    exists x, y, s. done.
Qed.

Lemma pairs_filter_in_scan_order_witness :
  exists (o : Outcome) (cam proj : list Point),
    getCameraProjectionPairs_run 200 [mkPoint 7 7] [mkPoint 1 1] scenario_frames
      scenario_size scenario_mask 50 10 = Some o /\
    out_camera o = [mkPoint 7 7] ++ cam /\
    out_projection o = [mkPoint 1 1] ++ proj /\
    length cam = length proj.
Proof.
  destruct (pairs_filter_in_scan_order 200 [mkPoint 7 7] [mkPoint 1 1]
              scenario_frames scenario_size scenario_mask 50 10)
    as (o & cam & proj & Hrun & _ & Hcam & Hproj & Hlen & _).
  - vm_compute. reflexivity.
  - vm_compute. lia.
  - exists o, cam, proj. split; [exact Hrun|]. split; [exact Hcam|].
    split; [exact Hproj | exact Hlen].
Defined.

(** ** The comparisons against zero *)

Lemma coords_of_range (ps : list PixelState) (i : nat) (v : Z) :
  Forall pixel_ok ps -> coords_of ps !! i = Some v -> 0 <= v < 2 ^ 16.
Proof.
  intros Hok. revert i. induction Hok as [|s ps (Hx & Hy & _) _ IH]; intros i Hi;
    [done|].
  destruct i as [|[|i]]; cbn in Hi.
  - inversion Hi; subst. done.
  - inversion Hi; subst. done.
  - by apply (IH i).
Qed.

(** C7. In the buffers that one call decodes, every coordinate slot holds
    a value from 0 to 65535, so the comparisons [p_x >= 0] and [p_y >= 0]
    of the final scan are true at every pixel: the scan body does the same
    with and without them, and a pixel is rejected on bounds by the
    comparisons with the projector width and height alone. *)
Theorem lower_bound_checks_never_reject (fuel : nat) (cam0 proj0 : list Point)
    (frames : list (Mat Z)) (projectionSize : Size) (mask : Mat Z)
    (minPointCount thr : Z) :
  valid_input frames projectionSize mask = true ->
  enough_fuel fuel frames ->
  exists o : Outcome,
    getCameraProjectionPairs_run fuel cam0 proj0 frames projectionSize mask
      minPointCount thr = Some o /\
    (forall (i : nat) (v : Z),
       coordinates (decoded o) !! i = Some v -> (0 <=? v) = true) /\
    (forall (y x : Z) (s : Scan),
       scan_pixel (decoded o) projectionSize (tolerance o) y x s =
       scan_pixel_upper_only (decoded o) projectionSize (tolerance o) y x s) /\
    (forall s : PixelState,
       s ∈ decode_model frames projectionSize mask thr ->
       qualifies projectionSize (tolerance o) s =
       below_upper_bounds projectionSize (tolerance o) s).
Proof.
  intros Hvalid Hfuel.
  pose proof (run_model fuel cam0 proj0 frames projectionSize mask minPointCount thr
                Hvalid Hfuel) as Hrun.
  set (o := outcome_model cam0 proj0 frames projectionSize mask minPointCount thr)
    in *.
  pose proof (decode_model_ok frames projectionSize mask thr) as Hok.
  assert (Hnonneg : forall (i : nat) (v : Z),
            coordinates (decoded o) !! i = Some v -> (0 <=? v) = true).
  { intros i v Hi. apply Z.leb_le.
    apply (coords_of_range _ i v Hok) in Hi. lia. }
  exists o. split; [exact Hrun|]. split; [exact Hnonneg|]. split.
  - intros y x s. unfold scan_pixel, scan_pixel_upper_only.
    destruct (arr_get (coordinates (decoded o)) (current_point s)) as [p_x|] eqn:Hx;
      [|done].
    destruct (arr_get (coordinates (decoded o)) (current_point s + 1)) as [p_y|]
      eqn:Hy; [|done].
    cbn [mbind option_bind].
    apply arr_get_Some, Hnonneg in Hx. apply arr_get_Some, Hnonneg in Hy.
    by rewrite Hx, Hy, !andb_true_l, !andb_true_r.
  - intros s Hs. unfold qualifies, below_upper_bounds.
    apply list_elem_of_In in Hs.
    destruct (proj1 (Forall_forall _ _) Hok s Hs) as ([Hx _] & [Hy _] & _).
    apply Z.leb_le in Hx, Hy. by rewrite Hx, Hy, !andb_true_l, !andb_true_r.
Qed.

Lemma lower_bound_checks_never_reject_witness :
  exists o : Outcome,
    getCameraProjectionPairs_run 200 [] [] scenario_frames scenario_size
      scenario_mask 50 10 = Some o /\
    forall (i : nat) (v : Z),
      coordinates (decoded o) !! i = Some v -> (0 <=? v) = true.
Proof.
  destruct (lower_bound_checks_never_reject 200 [] [] scenario_frames
              scenario_size scenario_mask 50 10) as (o & Hrun & Hpos & _).
  - vm_compute. reflexivity.
  - vm_compute. lia.
  - exists o. split; [exact Hrun | exact Hpos].
Defined.

(** ** The tolerance selector *)

Lemma count_if_mono (P Q : Z -> bool) (l : list Z) :
  (forall e, P e = true -> Q e = true) -> count_if P l <= count_if Q l.
Proof.
  intros HPQ. induction l as [|e l IH]; cbn; [lia|].
  destruct (P e) eqn:HP; [rewrite (HPQ e HP); lia|].
  destruct (Q e); lia.
Qed.

Lemma cumulative_mono (error : list Z) (l1 l2 : Z) :
  l1 <= l2 -> cumulative error l1 <= cumulative error l2.
Proof.
  intros Hl. apply count_if_mono. intros e He.
  apply Z.leb_le in He. apply Z.leb_le. lia.
Qed.

Lemma count_if_ext (P Q : Z -> bool) (l : list Z) :
  (forall e, P e = Q e) -> count_if P l = count_if Q l.
Proof. intros HPQ. induction l as [|e l IH]; cbn; [done|]. by rewrite HPQ, IH. Qed.

(** The level that [tolerance_model] returns is the least of 0, 1, 2, 3
    whose cumulative count reaches [minPointCount], and 4 when none does. *)
Lemma tolerance_model_spec (error : list Z) (minPointCount : Z) :
  let t := tolerance_model error minPointCount in
  (0 <= t < 4 /\ minPointCount <= cumulative error t /\
   forall l : Z, 0 <= l < t -> cumulative error l < minPointCount)
  \/
  (t = 4 /\ forall l : Z, 0 <= l < 4 -> cumulative error l < minPointCount).
Proof.
  unfold tolerance_model.
  pose proof (cumulative_mono error) as Hmono.
  destruct (Z.leb_spec minPointCount (cumulative error 0)) as [H0|H0].
  { left. split; [lia|]. split; [done|]. intros l Hl. lia. }
  destruct (Z.leb_spec minPointCount (cumulative error 1)) as [H1|H1].
  { left. split; [lia|]. split; [done|]. intros l Hl.
    specialize (Hmono l 0 ltac:(lia)). lia. }
  destruct (Z.leb_spec minPointCount (cumulative error 2)) as [H2|H2].
  { left. split; [lia|]. split; [done|]. intros l Hl.
    specialize (Hmono l 1 ltac:(lia)). lia. }
  destruct (Z.leb_spec minPointCount (cumulative error 3)) as [H3|H3].
  { left. split; [lia|]. split; [done|]. intros l Hl.
    specialize (Hmono l 2 ltac:(lia)). lia. }
  right. split; [done|]. intros l Hl. specialize (Hmono l 3 ltac:(lia)). lia.
Qed.

(** C5. The selector returns; when one of the levels 0, 1, 2, 3 has a
    cumulative count of at least [minPointCount], the tolerance is the
    least such level and that count is the capacity reserved; when none
    has, the tolerance is the sentinel 4 and nothing is reserved.  The
    cumulative count of a level below 4 counts pixels of levels below 4
    only. *)
Theorem tolerance_is_least_sufficient_level (fuel : nat) (error : list Z)
    (minPointCount : Z) :
  Forall (fun e => 0 <= e) error ->
  Z.of_nat (length error) < 2 ^ 32 ->
  (length error + 5 < fuel)%nat ->
  exists (t : Z) (res : option Z),
    select_tolerance fuel error (Z.of_nat (length error)) minPointCount =
      Some (t, res) /\
    (forall l : Z, 0 <= l < 4 -> minPointCount <= cumulative error l ->
       0 <= t <= l /\ minPointCount <= cumulative error t /\
       (forall l' : Z, 0 <= l' < t -> cumulative error l' < minPointCount) /\
       res = Some (cumulative error t)) /\
    ((forall l : Z, 0 <= l < 4 -> cumulative error l < minPointCount) ->
       t = 4 /\ res = None) /\
    (forall l : Z, 0 <= l < 4 ->
       cumulative error l = count_if (fun e => (e <=? l) && (e <? 4)) error).
Proof.
  intros Herr Hsmall Hfuel.
  exists (tolerance_model error minPointCount), (reserved_model error minPointCount).
  split; [by apply select_tolerance_model|].
  pose proof (tolerance_model_spec error minPointCount) as Hspec. cbn zeta in Hspec.
  unfold reserved_model.
  set (t := tolerance_model error minPointCount) in *.
  split; [|split].
  - intros l Hl Hmin. destruct Hspec as [(Ht & Hreach & Hleast) | (Ht & Hnone)].
    + split.
      * destruct (Z.le_gt_cases t l) as [Hle|Hgt]; [lia|].
        specialize (Hleast l ltac:(lia)). lia.
      * split; [done|]. split; [done|].
        destruct (Z.ltb_spec t 4); [done|lia].
    + specialize (Hnone l Hl). lia.
  - intros Hnone. destruct Hspec as [(Ht & Hreach & Hleast) | (Ht & _)].
    + specialize (Hnone t Ht). lia.
    + split; [done|]. rewrite Ht. done.
  - intros l Hl. unfold cumulative. apply count_if_ext. intros e.
    destruct (Z.leb_spec e l); [|done].
    destruct (Z.ltb_spec e 4); [done|lia].
Qed.

Lemma tolerance_is_least_sufficient_level_witness :
  exists (t : Z) (res : option Z),
    select_tolerance 20 [0; 2; 1; 7; 0; 3; 65535; 1] 8 4 = Some (t, res) /\
    t = 1 /\ res = Some 4.
Proof.
  destruct (tolerance_is_least_sufficient_level 20 [0; 2; 1; 7; 0; 3; 65535; 1] 4)
    as (t & res & Hrun & Hsome & _ & _).
  - repeat constructor; lia.
  - vm_compute. reflexivity.
  - vm_compute. lia.
  - destruct (Hsome 1) as (Ht & _ & Hleast & Hres).
    + lia.
    + vm_compute. discriminate.
    + assert (Ht1 : t = 1).
      { destruct (Z.eq_dec t 0) as [H0|H0]; [|lia].
        exfalso. subst t. destruct (Hsome 1) as (_ & Hreach & _ & _).
        - lia.
        - vm_compute. discriminate.
        - vm_compute in Hreach. apply Hreach. reflexivity. }
      subst t. exists 1, res. split; [exact Hrun|]. split; [reflexivity|].
      rewrite Hres. vm_compute. reflexivity.
Defined.

(** C6. For a fixed error buffer the tolerance does not decrease when
    [minPointCount] grows, and a [minPointCount] above the number of pixels
    whose level is below 4 yields the sentinel 4 with nothing reserved. *)
Theorem tolerance_monotone_in_minPointCount (fuel : nat) (error : list Z)
    (min1 min2 : Z) :
  Forall (fun e => 0 <= e) error ->
  Z.of_nat (length error) < 2 ^ 32 ->
  (length error + 5 < fuel)%nat ->
  min1 <= min2 ->
  exists (t1 t2 : Z) (res1 res2 : option Z),
    select_tolerance fuel error (Z.of_nat (length error)) min1 = Some (t1, res1) /\
    select_tolerance fuel error (Z.of_nat (length error)) min2 = Some (t2, res2) /\
    t1 <= t2 /\
    (count_if (fun e => e <? 4) error < min2 -> t2 = 4 /\ res2 = None).
Proof.
  intros Herr Hsmall Hfuel Hmin.
  exists (tolerance_model error min1), (tolerance_model error min2),
         (reserved_model error min1), (reserved_model error min2).
  split; [by apply select_tolerance_model|].
  split; [by apply select_tolerance_model|].
  pose proof (tolerance_model_spec error min1) as H1.
  pose proof (tolerance_model_spec error min2) as H2. cbn zeta in H1, H2.
  unfold reserved_model.
  set (t1 := tolerance_model error min1) in *.
  set (t2 := tolerance_model error min2) in *.
  split.
  - destruct H2 as [(Ht2 & Hreach2 & _) | (Ht2 & _)].
    + destruct H1 as [(Ht1 & _ & Hleast1) | (Ht1 & Hnone1)].
      * destruct (Z.le_gt_cases t1 t2) as [Hle|Hgt]; [done|].
        specialize (Hleast1 t2 ltac:(lia)). lia.
      * specialize (Hnone1 t2 Ht2). lia.
    + pose proof (tolerance_model_range error min1). fold t1 in H. lia.
  - intros Htotal.
    assert (Hcum3 : cumulative error 3 = count_if (fun e => e <? 4) error).
    { unfold cumulative. apply count_if_ext. intros e.
      destruct (Z.leb_spec e 3), (Z.ltb_spec e 4); try done; lia. }
    destruct H2 as [(Ht2 & Hreach2 & _) | (Ht2 & _)].
    + pose proof (cumulative_mono error t2 3 ltac:(lia)). lia.
    + split; [done|]. rewrite Ht2. done.
Qed.

Lemma tolerance_monotone_in_minPointCount_witness :
  exists (t1 t2 : Z) (res1 res2 : option Z),
    select_tolerance 20 [0; 2; 1; 7; 0; 3; 65535; 1] 8 4 = Some (t1, res1) /\
    select_tolerance 20 [0; 2; 1; 7; 0; 3; 65535; 1] 8 7 = Some (t2, res2) /\
    t1 <= t2 /\ t2 = 4 /\ res2 = None.
Proof.
  destruct (tolerance_monotone_in_minPointCount 20 [0; 2; 1; 7; 0; 3; 65535; 1] 4 7)
    as (t1 & t2 & res1 & res2 & Hrun1 & Hrun2 & Hle & Hsent).
  - repeat constructor; lia.
  - vm_compute. reflexivity.
  - vm_compute. lia.
  - lia.
  - exists t1, t2, res1, res2. split; [exact Hrun1|]. split; [exact Hrun2|].
    split; [exact Hle|]. apply Hsent. vm_compute. reflexivity.
Defined.

(** ** The weights of the bit-plane pairs *)

(** The weights of the first loop: with [n] column pairs, pair [k] gets
    [n - k], so the weights fall from [n] to 1. *)
Lemma column_weights_decrease (W : Z) (k : nat) :
  1 <= W <= 2 ^ 28 -> Z.of_nat k < Z.log2_up W ->
  column_error (column_frame_count W) (2 * Z.of_nat k) =
  Z.log2_up W - Z.of_nat k.
Proof.
  intros HW Hk. destruct (column_frame_count_eq W ltac:(lia)) as [Hn ->].
  unfold column_error.
  replace (2 * Z.log2_up W - 2 * Z.of_nat k)
    with ((Z.log2_up W - Z.of_nat k) * 2) by lia.
  rewrite Z.shiftr_div_pow2 by lia. change (2 ^ 1) with 2.
  rewrite Z.div_mul by lia. apply to_u8_small. lia.
Qed.

(** The weights of the second loop: with [n] column pairs and [m] row
    pairs, row pair [j] gets [m - n - j] reduced modulo 2^16, where
    [m - j] was meant: [column_frame_count] is subtracted from a counter
    that already starts at [column_frame_count]. *)
Lemma row_weights_formula (W m : Z) (j : nat) :
  1 <= W <= 2 ^ 28 -> 0 <= m ->
  column_frame_count W + 2 * m < 2 ^ 16 ->
  row_error (column_frame_count W + 2 * m) (column_frame_count W)
    (column_frame_count W + 2 * Z.of_nat j) =
  to_u16 (m - Z.log2_up W - Z.of_nat j).
Proof.
  intros HW Hm Hsize. destruct (column_frame_count_eq W ltac:(lia)) as [Hn Hcfc].
  rewrite Hcfc in *. unfold row_error.
  rewrite (to_u16_small (2 * Z.log2_up W + 2 * m)) by lia.
  replace (2 * Z.log2_up W + 2 * m - 2 * Z.log2_up W
           - (2 * Z.log2_up W + 2 * Z.of_nat j))
    with ((m - Z.log2_up W - Z.of_nat j) * 2) by lia.
  rewrite Z.shiftr_div_pow2 by lia. change (2 ^ 1) with 2.
  by rewrite Z.div_mul by lia.
Qed.

(** C4. In the scenario (projector 8x8, twelve frames) the column pairs
    get the weights 3, 2, 1 in decode order, and the row pairs get 0,
    65535, 65534: the first, most significant row pair carries the lowest
    weight, not the highest.  Accordingly an undecidable most significant
    column bit gives every pixel the error level 3 and an undecidable
    least significant column bit the level 1, while an undecidable most
    significant row bit leaves every pixel at level 0 and an undecidable
    least significant row bit gives level 65534. *)
Theorem row_weights_in_scenario :
  let cfc := column_frame_count (width scenario_size) in
  let levels i :=
    (fun o => error (decoded o)) <$>
    getCameraProjectionPairs_run 200 [] [] (scenario_with_blank_pair i)
      scenario_size scenario_mask 50 10 in
  (column_planes scenario_frames cfc).*1 = [3; 2; 1] /\
  (row_planes scenario_frames cfc).*1 = [0; 65535; 65534] /\
  levels 0%nat = Some (replicate 100 3) /\
  levels 4%nat = Some (replicate 100 1) /\
  levels 6%nat = Some (replicate 100 0) /\
  levels 10%nat = Some (replicate 100 65534).
Proof. vm_compute. repeat split; reflexivity. Qed.

(** ** The layout of the frame sequence *)

Lemma imap_weights_snd {A : Type} (wf : nat -> Z) (l : list A) :
  (imap (fun k a => (wf k, a)) l).*2 = l.
Proof.
  revert wf. induction l as [|a l IH]; intros wf; [done|].
  cbn. f_equal. apply (IH (wf ∘ S)).
Qed.

(** The layout on valid inputs, with [column_frame_count] at the exact
    value of the logarithm (projector widths from 1 to 2^28): the first
    loop decodes the horizontal axis from the first [2 * ceil(log2 width)]
    frames, taken two by two, and the second loop decodes the vertical
    axis from all the frames after them, taken two by two; no frame is
    left over. *)
Lemma frame_layout (fuel : nat) (cam0 proj0 : list Point)
    (frames : list (Mat Z)) (projectionSize : Size) (mask : Mat Z)
    (minPointCount thr : Z) :
  valid_input frames projectionSize mask = true ->
  enough_fuel fuel frames ->
  let n := Z.log2_up (width projectionSize) in
  let cfc := column_frame_count (width projectionSize) in
  let column_pairs := column_planes frames cfc in
  let row_pairs := row_planes frames cfc in
  exists o : Outcome,
    getCameraProjectionPairs_run fuel cam0 proj0 frames projectionSize mask
      minPointCount thr = Some o /\
    decoded o =
      buffers_of
        (decode_planes 1 thr mask row_pairs
           (map clear_temp
              (decode_planes 0 thr mask column_pairs
                 (replicate (camera_rows frames * camera_cols frames)
                    (mkPixel 0 0 false 0))))) /\
    cfc = 2 * n /\
    column_pairs.*2 = pairs_of (take (Z.to_nat (2 * n)) frames) /\
    length column_pairs = Z.to_nat n /\
    row_pairs.*2 = pairs_of (drop (Z.to_nat (2 * n)) frames) /\
    (2 * length column_pairs + 2 * length row_pairs = length frames)%nat.
Proof.
  intros Hvalid Hfuel n cfc column_pairs row_pairs.
  pose proof (run_model fuel cam0 proj0 frames projectionSize mask minPointCount thr
                Hvalid Hfuel) as Hrun.
  destruct (valid_input_spec _ _ _ Hvalid)
    as (f0 & rest & Hfr & Hall & Hm & Hr & Hc & Hrc & HW & Hcfc & Hev & Hlen).
  destruct (column_frame_count_eq _ HW) as [Hn Hcfceq].
  apply Z.even_spec in Hev as [m Hm2].
  fold cfc in Hcfceq, Hcfc, Hm2. fold n in Hn, Hcfceq.
  exists (outcome_model cam0 proj0 frames projectionSize mask minPointCount thr).
  split; [exact Hrun|]. split.
  { unfold outcome_model. cbn [decoded]. unfold decode_model.
    subst column_pairs row_pairs cfc. rewrite Hfr.
    cbn [camera_rows camera_cols]. done. }
  split; [exact Hcfceq|].
  assert (Hlc : length column_pairs = Z.to_nat n).
  { subst column_pairs. rewrite Hcfceq. apply length_column_planes; lia. }
  assert (Hlr : length row_pairs = Z.to_nat m).
  { subst row_pairs. apply (length_row_planes frames cfc m); lia. }
  split; [subst column_pairs; unfold column_planes; rewrite Hcfceq;
          apply imap_weights_snd|].
  split; [exact Hlc|].
  split; [subst row_pairs; unfold row_planes; rewrite Hcfceq;
          apply imap_weights_snd|].
  lia.
Qed.

Lemma frame_layout_witness :
  exists o : Outcome,
    getCameraProjectionPairs_run 200 [] [] scenario_frames scenario_size
      scenario_mask 50 10 = Some o /\
    column_frame_count (width scenario_size) = 2 * 3 /\
    length (column_planes scenario_frames
              (column_frame_count (width scenario_size))) = 3%nat.
Proof.
  destruct (frame_layout 200 [] [] scenario_frames scenario_size scenario_mask 50 10)
    as (o & Hrun & _ & Hcfc & _ & Hlen & _).
  - vm_compute. reflexivity.
  - vm_compute. lia.
  - exists o. split; [exact Hrun|]. split; [exact Hcfc | exact Hlen].
Defined.

(** ** The frame count in double precision *)

(** C8.  The count of line 67 as the code computes it, at the projector
    width 2^29.  With a [log] that returns the natural logarithms of 2
    and of 2^29 rounded to nearest, the double-precision quotient is
    29.000000000000004 (0x1.d000000000001p+4) and not 29, its ceiling is
    30, and [column_frame_count] is 60: the first loop takes the 60
    leading frames as 30 horizontal bit-plane pairs, where
    [2 * ceil(log2(2^29))] is 58. *)
Theorem column_frame_count_at_2_pow_29 `{LibM} :
  log PrimFloat.two = ln_2 ->
  log (double_of_int (2 ^ 29)) = ln_2_pow_29 ->
  PrimFloat.div (log (double_of_int (2 ^ 29))) (log PrimFloat.two)
    = FloatOps.SF2Prim (SpecFloat.S754_finite false 8162774324609025 (-48)) /\
  column_frame_count_double (2 ^ 29) = Some 60 /\
  (forall frames : list (Mat Z),
     (60 <= length frames)%nat ->
     (column_planes frames 60).*2 = pairs_of (take 60 frames) /\
     length (column_planes frames 60) = 30%nat) /\
  2 * Z.log2_up (2 ^ 29) = 58.
Proof.
  intros H2 H29. unfold column_frame_count_double. rewrite H2, H29.
  split; [vm_compute; reflexivity|]. split; [vm_compute; reflexivity|].
  split; [|vm_compute; reflexivity].
  intros frames Hlen. split.
  - unfold column_planes. rewrite imap_weights_snd. done.
  - apply (length_column_planes frames 30); lia.
Qed.

Lemma column_frame_count_at_2_pow_29_witness :
  @column_frame_count_double example_LibM (2 ^ 29) = Some 60 /\
  2 * Z.log2_up (2 ^ 29) = 58.
Proof.
  destruct (@column_frame_count_at_2_pow_29 example_LibM)
    as (_ & Hcode & _ & Hclaim).
  - vm_compute. reflexivity.
  - vm_compute. reflexivity.
  - split; [exact Hcode | exact Hclaim].
Defined.

(** ** getMask on equal frames *)

Lemma subtract_self_zero (l : list Z) :
  Forall (fun v => v = 0) (zip_with (fun a b => sat_u8 (a - b)) l l).
Proof.
  induction l as [|a l IH]; [constructor|]. cbn. constructor; [|exact IH].
  by rewrite Z.sub_diag.
Qed.

Lemma threshold_binary_zero (m : Mat Z) (thresh : Z) :
  0 <= thresh -> all_false m -> all_false (threshold_binary m thresh).
Proof.
  intros Ht Hm. unfold all_false, threshold_binary in *. cbn [data].
  induction Hm as [|v l Hv _ IH]; [constructor|]. cbn. constructor; [|exact IH].
  subst v. destruct (Z.ltb_spec thresh 0); [lia|done].
Qed.

Lemma threshold_binary_negative (m : Mat Z) (thresh : Z) :
  thresh < 0 -> all_false m ->
  Forall (fun v => v = 255) (data (threshold_binary m thresh)).
Proof.
  intros Ht Hm. unfold all_false, threshold_binary in *. cbn [data].
  induction Hm as [|v l Hv _ IH]; [constructor|]. cbn. constructor; [|exact IH].
  subst v. destruct (Z.ltb_spec thresh 0); [done|lia].
Qed.

(** C9, as the code has it. With equal white and black frames (not
    empty) the difference is zero at every pixel and [getMask] returns a
    mask of the size of the frame.  The mask is all-false in the adaptive
    mode and in the fixed mode with a threshold of at least zero.  With a
    negative fixed threshold the test [0 > threshold] holds at every pixel
    and every element of the mask is 255. *)
Theorem getMask_equal_frames `{ImgProc} (F : Mat BGR) (useOtsu : bool)
    (threshold : Z) :
  is_empty F = false ->
  exists mask : Mat Z,
    getMask F F useOtsu threshold = Some mask /\
    rows mask = rows F /\ cols mask = cols F /\
    length (data mask) = length (data F) /\
    (useOtsu = true \/ 0 <= threshold -> all_false mask) /\
    (useOtsu = false -> threshold < 0 ->
       Forall (fun v => v = 255) (data mask)).
Proof.
  intros HF. unfold getMask, cvtColor_BGR2GRAY, subtract_8U. rewrite HF.
  cbn [mbind option_bind].
  rewrite same_size_true by done. cbn [mbind option_bind].
  set (difference := mkMat _ _ _).
  assert (Hzero : all_false difference) by apply subtract_self_zero.
  assert (Hlen : length (data difference) = length (data F)).
  { subst difference. cbn. rewrite length_zip_with, length_map. lia. }
  destruct useOtsu.
  - rewrite (GaussianBlur_zero difference Hzero).
    exists (threshold_binary difference (otsu_threshold difference)).
    split; [done|]. split; [done|]. split; [done|].
    split; [cbn [threshold_binary data]; by rewrite length_map|].
    split; [|done]. intros _.
    apply threshold_binary_zero; [apply otsu_threshold_nonneg | exact Hzero].
  - exists (threshold_binary difference threshold).
    split; [done|]. split; [done|]. split; [done|].
    split; [cbn [threshold_binary data]; by rewrite length_map|].
    split.
    + intros [Hcfg|Hcfg]; [done|]. by apply threshold_binary_zero.
    + intros _ Hneg. by apply threshold_binary_negative.
Qed.

Lemma getMask_equal_frames_witness :
  exists mask : Mat Z,
    @getMask example_ImgProc (one_pixel 10 20 30) (one_pixel 10 20 30) false 20
      = Some mask /\
    all_false mask.
Proof.
  destruct (@getMask_equal_frames example_ImgProc (one_pixel 10 20 30) false 20)
    as (mask & Hrun & _ & _ & _ & Hfalse & _).
  - reflexivity.
  - exists mask. split; [exact Hrun|]. apply Hfalse. right. lia.
Defined.

(** With the fixed threshold -1 the mask of two equal frames is all-true. *)
Lemma getMask_equal_frames_negative_threshold :
  exists mask : Mat Z,
    @getMask example_ImgProc (one_pixel 10 20 30) (one_pixel 10 20 30) false (-1)
      = Some mask /\
    data mask = [255] /\ ~ all_false mask.
Proof.
  exists (mkMat 1 1 [255]). split; [vm_compute; reflexivity|].
  split; [reflexivity|]. unfold all_false. cbn [data]. intros Hall.
  inversion Hall as [|v l Hv _]. discriminate Hv.
Qed.

(** ** process *)

Lemma mapM_snoc {A B : Type} (f : A -> option B) (l : list A) (a : A) :
  mapM f (l ++ [a]) = bs ← mapM f l; b ← f a; Some (bs ++ [b]).
Proof.
  induction l as [|a0 l IH]; cbn.
  - by destruct (f a).
  - destruct (f a0) as [b0|]; [|done]. cbn. rewrite IH.
    destruct (mapM f l) as [bs|]; [|done]. cbn. by destruct (f a).
Qed.

Lemma convert_frames_fold `{ImgProc} (frames : list (Mat BGR)) (m : nat) :
  (2 + m <= length frames)%nat ->
  foldlM (fun (processed_frames : list (Mat Z)) (k : nat) =>
            f ← arr_get frames (2 + 1 * Z.of_nat k);
            frame ← cvtColor_BGR2GRAY f;
            Some (processed_frames ++ [frame]))
    (seq 0 m) [] =
  mapM cvtColor_BGR2GRAY (take m (drop 2 frames)).
Proof.
  induction m as [|m IH]; intros Hm; [by rewrite take_0|].
  rewrite seq_S, foldlM_app, IH by lia.
  destruct (lookup_lt_is_Some_2 frames (2 + m) ltac:(lia)) as [f Hf].
  rewrite (take_S_r _ _ f) by (by rewrite lookup_drop).
  rewrite mapM_snoc.
  destruct (mapM cvtColor_BGR2GRAY (take m (drop 2 frames))) as [bs|]; [|done].
  cbn [mbind option_bind foldlM].
  replace (2 + 1 * Z.of_nat (0 + m)) with (Z.of_nat (2 + m)) by lia.
  rewrite arr_get_nat, Hf. cbn [mbind option_bind].
  by destruct (cvtColor_BGR2GRAY f).
Qed.

(** The conversion loop turns the frames from index 2 on into grayscale,
    in order, and nothing else. *)
Lemma convert_frames_model `{ImgProc} (fuel : nat) (frames : list (Mat BGR)) :
  (length frames < fuel)%nat ->
  convert_frames fuel frames = mapM cvtColor_BGR2GRAY (drop 2 frames).
Proof.
  intros Hfuel. unfold convert_frames.
  rewrite (for_loop_fold _ _ _ 1 (length frames - 2)); [| lia | |].
  - destruct (decide (2 <= length frames)%nat) as [Hge|Hlt].
    + rewrite convert_frames_fold by lia.
      rewrite take_ge by (rewrite length_drop; lia). done.
    + replace (length frames - 2)%nat with 0%nat by lia. cbn.
      rewrite drop_ge by lia. done.
  - intros k Hk. split; [apply Z.ltb_lt; lia | lia].
  - apply Z.ltb_ge. lia.
Qed.

(** C10. [process] hands frames 0 and 1 to [getMask] as the white and the
    black frame and hands to [getCameraProjectionPairs] the grayscale
    conversions of the frames from index 2 on, with that mask; the first
    two frames reach the decoder through the mask alone, so two sequences
    that differ in them only and give the same mask give the same result. *)
Theorem process_reads_first_two_frames_for_mask `{ImgProc}
    {Homography Maps : Type} (dflt : Defaults)
    (findMaps : list Point -> list Point -> Size -> Homography -> Z -> Z -> Maps)
    (fuel : nat) (white black : Mat BGR) (rest : list (Mat BGR))
    (projectionSize : Size) (initial_homography : Homography)
    (meshRefinementCount meshRefinementDistLimit : Z) :
  (length rest + 2 < fuel)%nat ->
  process dflt findMaps fuel (white :: black :: rest) projectionSize
    initial_homography meshRefinementCount meshRefinementDistLimit =
  (processed_frames ← mapM cvtColor_BGR2GRAY rest;
   _ ← processed_frames !! 0%nat;
   mask ← getMask white black (default_useOtsu dflt) (default_mask_threshold dflt);
   pairs ← getCameraProjectionPairs fuel [] [] processed_frames
              projectionSize mask (default_minPointCount dflt)
              (default_threshold dflt);
   Some (findMaps pairs.1 pairs.2 projectionSize initial_homography
           meshRefinementCount meshRefinementDistLimit))
  /\
  forall white' black' : Mat BGR,
    getMask white' black' (default_useOtsu dflt) (default_mask_threshold dflt) =
    getMask white black (default_useOtsu dflt) (default_mask_threshold dflt) ->
    process dflt findMaps fuel (white' :: black' :: rest) projectionSize
      initial_homography meshRefinementCount meshRefinementDistLimit =
    process dflt findMaps fuel (white :: black :: rest) projectionSize
      initial_homography meshRefinementCount meshRefinementDistLimit.
Proof.
  intros Hfuel.
  assert (Hproc : forall w b : Mat BGR,
    process dflt findMaps fuel (w :: b :: rest) projectionSize
      initial_homography meshRefinementCount meshRefinementDistLimit =
    (processed_frames ← mapM cvtColor_BGR2GRAY rest;
     _ ← processed_frames !! 0%nat;
     mask ← getMask w b (default_useOtsu dflt) (default_mask_threshold dflt);
     pairs ← getCameraProjectionPairs fuel [] [] processed_frames
                projectionSize mask (default_minPointCount dflt)
                (default_threshold dflt);
     Some (findMaps pairs.1 pairs.2 projectionSize initial_homography
             meshRefinementCount meshRefinementDistLimit))).
  { intros w b. unfold process.
    rewrite convert_frames_model by (cbn [length]; lia).
    change (drop 2 (w :: b :: rest)) with rest.
    destruct (mapM cvtColor_BGR2GRAY rest) as [processed|]; [|done].
    cbn [mbind option_bind].
    change (arr_get processed 0) with (processed !! 0%nat).
    destruct (processed !! 0%nat); reflexivity. }
  split; [apply Hproc|].
  intros white' black' Hmask. rewrite !Hproc.
  destruct (mapM cvtColor_BGR2GRAY rest) as [processed|]; [|done].
  cbn [mbind option_bind]. destruct (processed !! 0%nat); [|done].
  cbn [mbind option_bind]. by rewrite Hmask.
Qed.

Lemma process_reads_first_two_frames_for_mask_witness :
  @process example_ImgProc unit (list Point * list Point)
    (mkDefaults false 20 1 10) (fun cam proj _ _ _ _ => (cam, proj)) 20
    [one_pixel 255 255 255; one_pixel 0 0 0;
     one_pixel 255 255 255; one_pixel 0 0 0]
    (mkSize 1 2) tt 0 0 =
  Some ([mkPoint 0 0], [mkPoint 0 1]).
Proof.
  rewrite (proj1 (@process_reads_first_two_frames_for_mask example_ImgProc unit
                    (list Point * list Point) (mkDefaults false 20 1 10)
                    (fun cam proj _ _ _ _ => (cam, proj)) 20
                    (one_pixel 255 255 255) (one_pixel 0 0 0)
                    [one_pixel 255 255 255; one_pixel 0 0 0]
                    (mkSize 1 2) tt 0 0 ltac:(cbn; lia))).
  vm_compute. reflexivity.
Defined.

(** * Further properties of the three functions *)

(** ** Reads past the end of the frame sequence *)

(** A loop whose body fails at its [m]-th round does not return, whatever
    the fuel. *)
Lemma for_loop_fails {S : Type} (cond : Z -> bool) (step : Z -> Z)
    (body : Z -> S -> option S) (d : Z) (m : nat) :
  forall (fuel : nat) (start : Z) (s : S),
    (forall k : nat, (k < m)%nat ->
       step (start + d * Z.of_nat k) = start + d * Z.of_nat (Datatypes.S k)) ->
    (forall s' : S, body (start + d * Z.of_nat m) s' = None) ->
    forall r : S, for_loop fuel cond step body start s = Some r ->
      exists k : nat, (k <= m)%nat /\ cond (start + d * Z.of_nat k) = false.
Proof.
  induction m as [|m IH]; intros fuel start s Hstep Hfail r Hrun.
  - destruct fuel as [|fuel]; [done|]. simpl in Hrun.
    destruct (cond start) eqn:Hc.
    + replace (start + d * Z.of_nat 0) with start in Hfail by lia.
      by rewrite Hfail in Hrun.
    + exists 0%nat. split; [lia|]. by replace (start + d * Z.of_nat 0) with start by lia.
  - destruct fuel as [|fuel]; [done|]. simpl in Hrun.
    destruct (cond start) eqn:Hc.
    + destruct (body start s) as [s'|]; [|done].
      pose proof (Hstep 0%nat ltac:(lia)) as Hs.
      replace (start + d * Z.of_nat 0) with start in Hs by lia.
      rewrite Hs in Hrun.
      apply IH in Hrun as (k & Hk & Hck).
      * exists (Datatypes.S k). split; [lia|].
        by replace (start + d * Z.of_nat (Datatypes.S k))
          with (start + d * Z.of_nat 1 + d * Z.of_nat k) by lia.
      * intros k Hk.
        replace (start + d * Z.of_nat 1 + d * Z.of_nat k)
          with (start + d * Z.of_nat (Datatypes.S k)) by lia.
        rewrite Hstep by lia. lia.
      * intros s''.
        replace (start + d * Z.of_nat 1 + d * Z.of_nat m)
          with (start + d * Z.of_nat (Datatypes.S m)) by lia.
        apply Hfail.
    + exists 0%nat. split; [lia|]. by replace (start + d * Z.of_nat 0) with start by lia.
Qed.

Lemma arr_get_past_end {A : Type} (a : list A) (i : Z) :
  Z.of_nat (length a) <= i -> arr_get a i = None.
Proof.
  intros Hi. unfold arr_get. destruct (Z.ltb_spec i 0); [done|].
  apply lookup_ge_None. lia.
Qed.

(** A bit-plane pair of which a frame is missing makes the iteration fail. *)
Lemma decode_plane_past_end (axis : Z) (frames : list (Mat Z)) (mask : Mat Z)
    (thr cw w i : Z) (s : Buffers * Mat Z) :
  Z.of_nat (length frames) <= i + 1 ->
  decode_plane axis frames mask thr cw w i s = None.
Proof.
  intros Hi. unfold decode_plane.
  destruct (arr_get frames i) as [f1|]; [|done]. cbn [mbind option_bind].
  by rewrite arr_get_past_end by lia.
Qed.

Lemma column_frame_count_even (W : Z) :
  exists n : Z, 0 <= n /\ column_frame_count W = 2 * n.
Proof.
  unfold column_frame_count, to_u16.
  set (x := Z.log2_up W mod 2 ^ 16).
  assert (Hx : 0 <= x < 2 ^ 16) by (apply Z.mod_pos_bound; lia).
  exists ((x * 2) mod 2 ^ 16 / 2).
  assert (H2 : (x * 2) mod 2 ^ 16 = 2 * (x mod 2 ^ 15)).
  { change (2 ^ 16) with (2 * 2 ^ 15). rewrite (Z.mul_comm x 2).
    rewrite Zmult_mod_distr_l. done. }
  rewrite H2. rewrite (Z.mul_comm 2 (x mod 2 ^ 15)), Z.div_mul by lia.
  split; [|lia]. apply Z.mod_pos_bound. lia.
Qed.

Lemma decode_columns_too_few (fuel : nat) (frames : list (Mat Z)) (mask : Mat Z)
    (thr cw cfc : Z) (s : Buffers * Mat Z) :
  Z.of_nat (length frames) < cfc ->
  decode_columns fuel frames mask thr cw cfc s = None.
Proof.
  intros Hlen. unfold decode_columns.
  destruct (for_loop _ _ _ _ _ _) as [r|] eqn:Hrun; [|done]. exfalso.
  apply (for_loop_fails _ _ _ 2 (length frames / 2)%nat) in Hrun
    as (k & Hk & Hc).
  - apply Z.ltb_ge in Hc.
    pose proof (Nat.div_mod_eq (length frames) 2) as Hdm.
    pose proof (Nat.mod_upper_bound (length frames) 2 ltac:(lia)). lia.
  - intros k Hk. lia.
  - intros s'. apply decode_plane_past_end.
    pose proof (Nat.div_mod_eq (length frames) 2) as Hdm.
    pose proof (Nat.mod_upper_bound (length frames) 2 ltac:(lia)). lia.
Qed.

Lemma decode_rows_dangling (fuel : nat) (frames : list (Mat Z)) (mask : Mat Z)
    (thr cw cfc : Z) (s : Buffers * Mat Z) :
  0 <= cfc <= Z.of_nat (length frames) ->
  Z.odd (Z.of_nat (length frames) - cfc) = true ->
  Z.of_nat (length frames) < 2 ^ 16 - 2 ->
  decode_rows fuel frames mask thr cw cfc s = None.
Proof.
  intros Hcfc Hodd Hlen. unfold decode_rows.
  destruct (for_loop _ _ _ _ _ _) as [r|] eqn:Hrun; [|done]. exfalso.
  rewrite Z.odd_spec in Hodd. destruct Hodd as [q Hq].
  apply (for_loop_fails _ _ _ 2 (Z.to_nat q)) in Hrun as (k & Hk & Hc).
  - apply Z.ltb_ge in Hc. lia.
  - intros k Hk. unfold to_u16. rewrite Z.mod_small; lia.
  - intros s'. apply decode_plane_past_end. lia.
Qed.

(** X1. getCameraProjectionPairs does not check the number of frames: on a
    sequence shorter than [column_frame_count], and on one whose frames
    after the column pairs are odd in number, a loop over the bit-plane
    pairs reads a frame past the end of the sequence, and the call does
    not return a result. *)
Theorem missing_frame_is_read_past_the_end (fuel : nat)
    (cam0 proj0 : list Point) (frames : list (Mat Z)) (projectionSize : Size)
    (mask : Mat Z) (minPointCount thr : Z) :
  Z.of_nat (length frames) < 2 ^ 16 - 2 ->
  Z.of_nat (length frames) < column_frame_count (width projectionSize) \/
  Z.odd (Z.of_nat (length frames) - column_frame_count (width projectionSize))
    = true ->
  getCameraProjectionPairs_run fuel cam0 proj0 frames projectionSize mask
    minPointCount thr = None.
Proof.
  intros Hlen Hbad. unfold getCameraProjectionPairs_run.
  destruct (arr_get frames 0) as [f0|]; [|done]. cbn [mbind option_bind].
  destruct (Z.lt_ge_cases (Z.of_nat (length frames))
              (column_frame_count (width projectionSize))) as [Hlt | Hge].
  - by rewrite decode_columns_too_few.
  - destruct Hbad as [Hlt | Hodd]; [lia|].
    destruct (decode_columns _ _ _ _ _ _ _) as [s1|]; [|done].
    cbn [mbind option_bind].
    rewrite decode_rows_dangling; [done| |done|done].
    destruct (column_frame_count_even (width projectionSize)) as (n & Hn & Hc).
    lia.
Qed.

Lemma missing_frame_is_read_past_the_end_witness :
  getCameraProjectionPairs_run 100 [] []
    [mkMat 1 1 [255]; mkMat 1 1 [0]; mkMat 1 1 [255]] (mkSize 2 2)
    (mkMat 1 1 [255]) 1 10 = None.
Proof.
  apply missing_frame_is_read_past_the_end.
  - vm_compute. reflexivity.
  - right. vm_compute. reflexivity.
Defined.

(** ** A mask of another size *)

Lemma decode_plane_mask_size (axis : Z) (f0 : Mat Z) (rest : list (Mat Z))
    (mask : Mat Z) (thr cw w : Z) (s : Buffers * Mat Z) :
  is_empty mask = false ->
  same_size f0 mask = false ->
  decode_plane axis (f0 :: rest) mask thr cw w 0 s = None.
Proof.
  intros Hne Hsz. unfold decode_plane.
  change (arr_get (f0 :: rest) 0) with (Some f0). cbn [mbind option_bind].
  destruct (arr_get (f0 :: rest) (0 + 1)) as [f2|]; [|done].
  cbn [mbind option_bind]. unfold subtract_masked_16S.
  rewrite Hne, Hsz. cbn [orb]. by rewrite andb_false_r.
Qed.

Lemma column_frame_count_nonneg (W : Z) : 0 <= column_frame_count W.
Proof. unfold column_frame_count, to_u16. apply Z.mod_pos_bound. lia. Qed.

(** X2. A mask that is not empty and whose size differs from the size of
    the first frame makes getCameraProjectionPairs fail at its first
    bit-plane pair (cv::subtract throws): no input with such a mask gives
    a result. *)
Theorem mask_of_another_size_fails (fuel : nat) (cam0 proj0 : list Point)
    (f0 : Mat Z) (rest : list (Mat Z)) (projectionSize : Size)
    (mask : Mat Z) (minPointCount thr : Z) :
  is_empty mask = false ->
  same_size f0 mask = false ->
  getCameraProjectionPairs_run fuel cam0 proj0 (f0 :: rest) projectionSize mask
    minPointCount thr = None.
Proof.
  intros Hne Hsz. unfold getCameraProjectionPairs_run.
  change (arr_get (f0 :: rest) 0) with (Some f0). cbn [mbind option_bind].
  pose proof (column_frame_count_nonneg (width projectionSize)) as Hc.
  destruct (Z.eq_dec (column_frame_count (width projectionSize)) 0) as [H0 | Hpos].
  - rewrite H0. unfold decode_columns at 1.
    destruct fuel as [|fuel]; [done|].
    cbn [for_loop Z.ltb Z.compare mbind option_bind].
    unfold decode_rows. cbn [for_loop].
    replace (0 <? Z.of_nat (length (f0 :: rest))) with true
      by (symmetry; apply Z.ltb_lt; cbn [length]; lia).
    by rewrite decode_plane_mask_size.
  - unfold decode_columns at 1. destruct fuel as [|fuel]; [done|].
    cbn [for_loop].
    replace (0 <? column_frame_count (width projectionSize)) with true
      by (symmetry; apply Z.ltb_lt; lia).
    by rewrite decode_plane_mask_size.
Qed.

Lemma mask_of_another_size_fails_witness :
  getCameraProjectionPairs_run 100 [] []
    [mkMat 1 2 [255; 0]; mkMat 1 2 [0; 255]] (mkSize 2 1)
    (mkMat 1 1 [255]) 1 10 = None.
Proof. apply mask_of_another_size_fails; reflexivity. Defined.

(** ** Frame sequences that process cannot handle *)

Lemma convert_frames_length `{ImgProc} (fuel : nat) (frames : list (Mat BGR))
    (processed_frames : list (Mat Z)) :
  convert_frames fuel frames = Some processed_frames ->
  length processed_frames = (length frames - 2)%nat.
Proof.
  unfold convert_frames.
  assert (Hgen : forall (fuel : nat) (i : Z) (acc r : list (Mat Z)),
    2 <= i -> Z.of_nat (length acc) = i - 2 ->
    for_loop fuel (fun i => i <? Z.of_nat (length frames)) (fun i => i + 1)
      (fun i processed_frames =>
         f ← arr_get frames i;
         frame ← cvtColor_BGR2GRAY f;
         Some (processed_frames ++ [frame])) i acc = Some r ->
    Z.of_nat (length r) = Z.max i (Z.of_nat (length frames)) - 2).
  { clear fuel processed_frames. induction fuel as [|fuel IH]; intros i acc r Hi Hacc Hrun;
      [done|].
    cbn [for_loop] in Hrun. destruct (Z.ltb_spec i (Z.of_nat (length frames))).
    - destruct (arr_get frames i) as [f|]; [|done]. cbn [mbind option_bind] in Hrun.
      destruct (cvtColor_BGR2GRAY f) as [g|]; [|done]. cbn [mbind option_bind] in Hrun.
      apply IH in Hrun; [lia|lia|]. rewrite length_app. cbn [length]. lia.
    - inversion Hrun; subst. lia. }
  intros Hrun. apply Hgen in Hrun; [|lia|done]. lia.
Qed.

(** X3. process needs the white frame, the black frame, the column pairs
    and whole row pairs: with fewer than three frames, with fewer than
    [2 + column_frame_count] frames, or with an odd number of frames after
    the column pairs, it reads past the end of a frame sequence and gives
    no result. *)
Theorem process_frame_count `{ImgProc} {Homography Maps : Type}
    (dflt : Defaults)
    (findMaps : list Point -> list Point -> Size -> Homography -> Z -> Z -> Maps)
    (fuel : nat) (frames : list (Mat BGR)) (projectionSize : Size)
    (h0 : Homography) (count limit : Z) :
  Z.of_nat (length frames) < 2 ^ 16 - 2 ->
  Z.of_nat (length frames) < 3 \/
  Z.of_nat (length frames) < 2 + column_frame_count (width projectionSize) \/
  Z.odd (Z.of_nat (length frames) - column_frame_count (width projectionSize))
    = true ->
  process dflt findMaps fuel frames projectionSize h0 count limit = None.
Proof.
  intros Hlen Hbad. unfold process.
  destruct (convert_frames fuel frames) as [processed_frames|] eqn:Hconv; [|done].
  cbn [mbind option_bind]. apply convert_frames_length in Hconv.
  destruct (arr_get processed_frames 0) as [g0|] eqn:Hg0; [|done].
  cbn [mbind option_bind].
  assert (H3 : (3 <= length frames)%nat).
  { unfold arr_get in Hg0. cbn in Hg0. apply lookup_lt_Some in Hg0. lia. }
  destruct (arr_get frames 0) as [white|]; [|done]. cbn [mbind option_bind].
  destruct (arr_get frames 1) as [black|]; [|done]. cbn [mbind option_bind].
  destruct (getMask _ _ _ _) as [mask|]; [|done]. cbn [mbind option_bind].
  unfold getCameraProjectionPairs, getCameraProjectionPairs_run.
  destruct (arr_get processed_frames 0) as [f0|]; [|done].
  cbn [mbind option_bind].
  set (cfc := column_frame_count (width projectionSize)) in *.
  destruct (Z.lt_ge_cases (Z.of_nat (length processed_frames)) cfc)
    as [Hlt | Hge].
  - by rewrite decode_columns_too_few.
  - destruct (decode_columns _ _ _ _ _ _ _) as [s1|]; [|done].
    cbn [mbind option_bind].
    rewrite decode_rows_dangling; [done| | |lia].
    + destruct (column_frame_count_even (width projectionSize)) as (n & Hn & Hc).
      fold cfc in Hc. lia.
    + destruct Hbad as [Hbad | [Hbad | Hbad]]; [lia|lia|].
      rewrite Hconv.
      replace (Z.of_nat (length frames - 2) - cfc)
        with (Z.of_nat (length frames) - cfc + 2 * (-1)) by lia.
      by rewrite Z.odd_add_mul_2.
Qed.

Lemma process_frame_count_witness :
  process (H := example_ImgProc) (mkDefaults false 10 1 10)
    (fun cam proj _ (_ : unit) _ _ => (cam, proj)) 100
    [one_pixel 255 255 255; one_pixel 0 0 0; one_pixel 255 255 255]
    (mkSize 2 2) tt 0 0 = None.
Proof.
  apply process_frame_count.
  - vm_compute. reflexivity.
  - right. right. vm_compute. reflexivity.
Defined.

(** X4. An empty frame anywhere in the sequence makes process fail:
    cv::cvtColor throws on it, in the conversion loop for a pattern frame
    and in getMask for the white or the black frame. *)
Theorem process_empty_frame `{ImgProc} {Homography Maps : Type}
    (dflt : Defaults)
    (findMaps : list Point -> list Point -> Size -> Homography -> Z -> Z -> Maps)
    (fuel : nat) (frames : list (Mat BGR)) (projectionSize : Size)
    (h0 : Homography) (count limit : Z) (i : nat) (f : Mat BGR) :
  frames !! i = Some f ->
  is_empty f = true ->
  process dflt findMaps fuel frames projectionSize h0 count limit = None.
Proof.
  intros Hf He. unfold process.
  destruct (convert_frames fuel frames) as [processed_frames|] eqn:Hconv; [|done].
  cbn [mbind option_bind].
  destruct (arr_get processed_frames 0) as [g0|]; [|done]. cbn [mbind option_bind].
  destruct (arr_get frames 0) as [white|] eqn:Hw; [|done]. cbn [mbind option_bind].
  destruct (arr_get frames 1) as [black|] eqn:Hb; [|done]. cbn [mbind option_bind].
  apply arr_get_Some in Hw, Hb.
  change (Z.to_nat 0) with 0%nat in Hw. change (Z.to_nat 1) with 1%nat in Hb.
  destruct (decide (i < 2)%nat) as [Hi | Hi].
  - unfold getMask, cvtColor_BGR2GRAY.
    destruct i as [|[|i]]; [| |lia].
    + assert (f = white) as -> by congruence. rewrite He.
      by destruct (is_empty black).
    + assert (f = black) as -> by congruence. by rewrite He.
  - exfalso. unfold convert_frames in Hconv.
    apply (for_loop_fails _ _ _ 1 (i - 2)) in Hconv as (k & Hk & Hc).
    + apply Z.ltb_ge in Hc. apply lookup_lt_Some in Hf. lia.
    + intros k Hk. lia.
    + intros s'. unfold arr_get.
      destruct (Z.ltb_spec (2 + 1 * Z.of_nat (i - 2)) 0); [lia|].
      replace (Z.to_nat (2 + 1 * Z.of_nat (i - 2))) with i by lia.
      rewrite Hf. cbn [mbind option_bind]. unfold cvtColor_BGR2GRAY.
      by rewrite He.
Qed.

Lemma process_empty_frame_witness :
  process (H := example_ImgProc) (mkDefaults false 10 1 10)
    (fun cam proj _ (_ : unit) _ _ => (cam, proj)) 100
    [one_pixel 255 255 255; one_pixel 0 0 0; one_pixel 255 255 255;
     mkMat 0 0 []]
    (mkSize 1 2) tt 0 0 = None.
Proof.
  apply (process_empty_frame _ _ _ _ _ _ _ _ 3%nat (mkMat 0 0 [])); reflexivity.
Defined.

(** ** getMask *)

Lemma same_size_is_empty {A B : Type} (a : Mat A) (b : Mat B) :
  same_size a b = true -> is_empty b = is_empty a.
Proof.
  unfold same_size, is_empty. intros Hs.
  apply andb_true_iff in Hs as [Hr Hc].
  apply Nat.eqb_eq in Hr, Hc. by rewrite Hr, Hc.
Qed.

(** X5. getMask returns a mask exactly when neither frame is empty and the
    two frames have the same size; in every other case an OpenCV call
    throws (cv::cvtColor on an empty frame, cv::subtract on frames of
    different sizes). *)
Theorem getMask_returns_iff `{ImgProc} (whiteFrame blackFrame : Mat BGR)
    (useOtsu : bool) (threshold : Z) :
  is_Some (getMask whiteFrame blackFrame useOtsu threshold) <->
  is_empty whiteFrame = false /\ is_empty blackFrame = false /\
  same_size whiteFrame blackFrame = true.
Proof.
  unfold getMask, cvtColor_BGR2GRAY, subtract_8U.
  destruct (is_empty blackFrame) eqn:Hb; cbn [mbind option_bind].
  { split; [by intros [? ?]|]. by intros (_ & ? & _). }
  destruct (is_empty whiteFrame) eqn:Hw; cbn [mbind option_bind].
  { split; [by intros [? ?]|]. by intros (? & _). }
  change (same_size (mkMat (rows whiteFrame) (cols whiteFrame) ?d1)
            (mkMat (rows blackFrame) (cols blackFrame) ?d2))
    with (same_size whiteFrame blackFrame).
  destruct (same_size whiteFrame blackFrame); cbn [mbind option_bind].
  - split; [done|]. intros _. by destruct useOtsu.
  - split; [by intros [? ?]|]. by intros (_ & _ & ?).
Qed.

(** X6. In the fixed-threshold mode the mask has the size of the frames
    and its element at a pixel is 255 or 0; it is 255 exactly when the
    threshold is negative, or when it is below 255 and below the
    difference of the gray levels of the white and the black frame at that
    pixel.  Hence a threshold of 255 or more gives an all-false mask, and
    a pixel that is not brighter in the white frame is never in the mask
    of a non-negative threshold. *)
Theorem getMask_fixed_threshold `{ImgProc} (whiteFrame blackFrame : Mat BGR)
    (threshold : Z) :
  is_empty whiteFrame = false ->
  same_size whiteFrame blackFrame = true ->
  exists mask : Mat Z,
    getMask whiteFrame blackFrame false threshold = Some mask /\
    rows mask = rows whiteFrame /\ cols mask = cols whiteFrame /\
    forall (p : nat) (w b : BGR),
      data whiteFrame !! p = Some w -> data blackFrame !! p = Some b ->
      data mask !! p =
        Some (if (threshold <? 0)
                 || ((threshold <? 255)
                     && (threshold <? gray_of_bgr w - gray_of_bgr b))
              then 255 else 0).
Proof.
  intros Hw Hs. unfold getMask, cvtColor_BGR2GRAY, subtract_8U.
  rewrite (same_size_is_empty _ _ Hs), Hw. cbn [mbind option_bind].
  change (same_size (mkMat (rows whiteFrame) (cols whiteFrame) ?d1)
            (mkMat (rows blackFrame) (cols blackFrame) ?d2))
    with (same_size whiteFrame blackFrame).
  rewrite Hs. cbn [mbind option_bind].
  eexists. split; [done|]. split; [done|]. split; [done|].
  intros p w b Hpw Hpb. cbn [threshold_binary data].
  rewrite list_lookup_fmap, lookup_zip_with, !list_lookup_fmap, Hpw, Hpb.
  cbn [fmap option_fmap option_map mbind option_bind]. f_equal.
  unfold sat_u8.
  destruct (Z.ltb_spec threshold 0), (Z.ltb_spec threshold 255),
    (Z.ltb_spec threshold (gray_of_bgr w - gray_of_bgr b)),
    (Z.ltb_spec threshold
       (Z.max 0 (Z.min 255 (gray_of_bgr w - gray_of_bgr b))));
    cbn [orb andb]; first [done | lia].
Qed.

Lemma getMask_fixed_threshold_witness :
  exists mask : Mat Z,
    @getMask example_ImgProc (one_pixel 200 200 200) (one_pixel 10 20 30)
      false 20 = Some mask /\
    data mask !! 0%nat = Some 255.
Proof.
  destruct (@getMask_fixed_threshold example_ImgProc (one_pixel 200 200 200)
              (one_pixel 10 20 30) 20) as (mask & Hrun & _ & _ & Hp).
  - reflexivity.
  - reflexivity.
  - exists mask. split; [exact Hrun|].
    exact (Hp 0%nat (200, 200, 200) (10, 20, 30) eq_refl eq_refl).
Defined.

Lemma subtract_dark_zero (l1 l2 : list Z) :
  Forall2 Z.le l1 l2 ->
  Forall (fun v => v = 0) (zip_with (fun a b => sat_u8 (a - b)) l1 l2).
Proof.
  induction 1 as [|a b l1 l2 Hab _ IH]; [constructor|]. cbn.
  constructor; [|exact IH]. unfold sat_u8. lia.
Qed.

(** X7. When the white frame is nowhere brighter than the black frame
    (gray level by gray level), the clamped difference is zero at every
    pixel, and the mask is all-false in the adaptive mode and in the fixed
    mode with a threshold of at least zero: swapping the two calibration
    frames leaves no valid pixel. *)
Theorem getMask_white_not_brighter `{ImgProc} (whiteFrame blackFrame : Mat BGR)
    (useOtsu : bool) (threshold : Z) :
  is_empty whiteFrame = false ->
  same_size whiteFrame blackFrame = true ->
  Forall2 (fun w b => gray_of_bgr w <= gray_of_bgr b)
    (data whiteFrame) (data blackFrame) ->
  useOtsu = true \/ 0 <= threshold ->
  exists mask : Mat Z,
    getMask whiteFrame blackFrame useOtsu threshold = Some mask /\
    all_false mask.
Proof.
  intros Hw Hs Hle Hcfg. unfold getMask, cvtColor_BGR2GRAY, subtract_8U.
  rewrite (same_size_is_empty _ _ Hs), Hw. cbn [mbind option_bind].
  change (same_size (mkMat (rows whiteFrame) (cols whiteFrame) ?d1)
            (mkMat (rows blackFrame) (cols blackFrame) ?d2))
    with (same_size whiteFrame blackFrame).
  rewrite Hs. cbn [mbind option_bind].
  set (difference := mkMat _ _ _).
  assert (Hzero : all_false difference).
  { apply subtract_dark_zero. apply Forall2_fmap. exact Hle. }
  destruct useOtsu.
  - rewrite (GaussianBlur_zero difference Hzero). eexists. split; [done|].
    apply threshold_binary_zero; [apply otsu_threshold_nonneg | exact Hzero].
  - destruct Hcfg as [|Hthr]; [done|]. eexists. split; [done|].
    by apply threshold_binary_zero.
Qed.

Lemma getMask_white_not_brighter_witness :
  exists mask : Mat Z,
    @getMask example_ImgProc (one_pixel 10 20 30) (one_pixel 200 200 200)
      false 0 = Some mask /\
    all_false mask.
Proof.
  apply (@getMask_white_not_brighter example_ImgProc).
  - reflexivity.
  - reflexivity.
  - constructor; [|constructor]. vm_compute. discriminate.
  - right. lia.
Defined.

(** ** One pixel through the decoder, continued *)

Lemma plane_diff_lookup (mask f1 f2 : Mat Z) (p : nat) :
  plane_diff mask f1 f2 !! p =
  m ← data mask !! p; a ← data f1 !! p; b ← data f2 !! p;
  Some (if m =? 0 then 0 else sat_i16 (a - b)).
Proof.
  unfold plane_diff. rewrite !lookup_zip_with.
  destruct (data mask !! p); cbn [mbind option_bind]; [|done].
  destruct (data f1 !! p); cbn [mbind option_bind]; [|done].
  by destruct (data f2 !! p).
Qed.

(** The number of bit-plane pairs of each axis on a valid input. *)
Lemma valid_plane_counts (frames : list (Mat Z)) (projectionSize : Size)
    (mask : Mat Z) :
  valid_input frames projectionSize mask = true ->
  let cfc := column_frame_count (width projectionSize) in
  0 <= Z.log2_up (width projectionSize) /\
  0 <= (Z.of_nat (length frames) - cfc) / 2 /\
  length (column_planes frames cfc)
    = Z.to_nat (Z.log2_up (width projectionSize)) /\
  length (row_planes frames cfc)
    = Z.to_nat ((Z.of_nat (length frames) - cfc) / 2).
Proof.
  intros Hvalid cfc.
  destruct (valid_input_spec _ _ _ Hvalid)
    as (f0 & rest & -> & _ & _ & _ & _ & _ & HW & Hcfc & Heven & _).
  destruct (column_frame_count_eq _ HW) as [Hn Hc]. fold cfc in Hc, Hcfc, Heven.
  apply Z.even_spec in Heven as [m Hm].
  assert (Hdiv : (Z.of_nat (length (f0 :: rest)) - cfc) / 2 = m).
  { rewrite Hm, Z.mul_comm, Z.div_mul; lia. }
  rewrite Hdiv. split; [lia|]. split; [lia|]. split.
  - rewrite Hc. apply length_column_planes; lia.
  - apply length_row_planes; lia.
Qed.

Lemma foldl_pointwise {St A B : Type} (f : St -> A -> St) (g : St -> B -> St)
    (l : list A) :
  forall (l' : list B) (s : St),
    length l = length l' ->
    (forall (k : nat) (a : A) (b : B) (s : St),
       l !! k = Some a -> l' !! k = Some b -> f s a = g s b) ->
    foldl f s l = foldl g s l'.
Proof.
  induction l as [|a l IH]; intros [|b l'] s Hlen Hstep; try done.
  cbn [foldl]. rewrite (Hstep 0%nat a b s eq_refl eq_refl).
  apply IH; [cbn in Hlen; lia|].
  intros k a' b' s' Ha Hb. exact (Hstep (S k) a' b' s' Ha Hb).
Qed.

(** The state of pixel [p] after both loops, as the buffers hold it. *)
Lemma run_pixel (fuel : nat) (cam0 proj0 : list Point)
    (frames : list (Mat Z)) (projectionSize : Size) (mask : Mat Z)
    (minPointCount thr : Z) :
  valid_input frames projectionSize mask = true ->
  enough_fuel fuel frames ->
  exists o : Outcome,
    getCameraProjectionPairs_run fuel cam0 proj0 frames projectionSize mask
      minPointCount thr = Some o /\
    tolerance o = tolerance_model (error (decoded o)) minPointCount /\
    reserved o = reserved_model (error (decoded o)) minPointCount /\
    length (error (decoded o)) = (camera_rows frames * camera_cols frames)%nat /\
    forall p : nat,
      let s := decode_model frames projectionSize mask thr !! p in
      coordinates (decoded o) !! (2 * p)%nat = px_x <$> s /\
      coordinates (decoded o) !! (2 * p + 1)%nat = px_y <$> s /\
      error (decoded o) !! p = px_error <$> s.
Proof.
  intros Hvalid Hfuel.
  exists (outcome_model cam0 proj0 frames projectionSize mask minPointCount thr).
  split; [by apply run_model|]. cbn [outcome_model decoded tolerance reserved].
  change (error (buffers_of ?ps)) with (map px_error ps).
  change (coordinates (buffers_of ?ps)) with (coords_of ps).
  split; [done|]. split; [done|].
  split; [by rewrite length_map, decode_model_length|].
  intros p. cbn zeta. split; [apply coords_of_lookup_x|].
  split; [apply coords_of_lookup_y|]. apply list_lookup_fmap.
Qed.

Lemma pixel_fold_agree (axis thr : Z) (mask mask' : Mat Z) (p : nat)
    (planes planes' : list Plane) (s : PixelState) :
  length planes = length planes' ->
  Z.eqb 0 <$> data mask !! p = Z.eqb 0 <$> data mask' !! p ->
  (forall (k : nat) (pl pl' : Plane),
     planes !! k = Some pl -> planes' !! k = Some pl' ->
     pl.1 = pl'.1 /\ data pl.2.1 !! p = data pl'.2.1 !! p /\
     data pl.2.2 !! p = data pl'.2.2 !! p) ->
  foldl (fun s (pl : Plane) =>
           pixel_step axis pl.1 thr
             (default 0 (plane_diff mask pl.2.1 pl.2.2 !! p)) s) s planes =
  foldl (fun s (pl : Plane) =>
           pixel_step axis pl.1 thr
             (default 0 (plane_diff mask' pl.2.1 pl.2.2 !! p)) s) s planes'.
Proof.
  intros Hlen Hmask Hplanes. apply foldl_pointwise; [done|].
  intros k pl pl' s' Hpl Hpl'.
  destruct (Hplanes k pl pl' Hpl Hpl') as (-> & H1 & H2).
  rewrite !plane_diff_lookup, H1, H2.
  destruct (data mask !! p) as [m|], (data mask' !! p) as [m'|]; try done.
  cbn [mbind option_bind]. cbn [fmap option_fmap option_map] in Hmask.
  assert (Hm : (m =? 0) = (m' =? 0)).
  { rewrite (Z.eqb_sym m), (Z.eqb_sym m'). congruence. }
  by rewrite Hm.
Qed.

Lemma decode_model_agree (frames frames' : list (Mat Z))
    (projectionSize : Size) (mask mask' : Mat Z) (thr : Z) (p : nat) :
  valid_input frames projectionSize mask = true ->
  valid_input frames' projectionSize mask' = true ->
  length frames = length frames' ->
  Z.eqb 0 <$> data mask !! p = Z.eqb 0 <$> data mask' !! p ->
  (forall (i : nat) (f f' : Mat Z),
     frames !! i = Some f -> frames' !! i = Some f' ->
     data f !! p = data f' !! p) ->
  decode_model frames projectionSize mask thr !! p =
  decode_model frames' projectionSize mask' thr !! p.
Proof.
  intros Hvalid Hvalid' Hlen Hmask Hframes.
  assert (Hsize : (p < camera_rows frames * camera_cols frames)%nat <->
                  (p < camera_rows frames' * camera_cols frames')%nat).
  { destruct (valid_input_spec _ _ _ Hvalid) as (f0 & rest & -> & _ & Hm & _).
    destruct (valid_input_spec _ _ _ Hvalid') as (f0' & rest' & -> & _ & Hm' & _).
    apply well_sized_spec in Hm as (_ & _ & Hm).
    apply well_sized_spec in Hm' as (_ & _ & Hm').
    cbn [camera_rows camera_cols]. rewrite <- Hm, <- Hm'.
    rewrite <- !lookup_lt_is_Some.
    by destruct (data mask !! p), (data mask' !! p). }
  destruct (decide (p < camera_rows frames * camera_cols frames)%nat) as [Hp | Hp].
  - rewrite (decode_model_lookup frames projectionSize mask thr p Hvalid Hp).
    rewrite (decode_model_lookup frames' projectionSize mask' thr p Hvalid'
               (proj1 Hsize Hp)).
    cbn zeta. f_equal.
    destruct (valid_plane_counts _ _ _ Hvalid) as (_ & _ & Hc & Hr).
    destruct (valid_plane_counts _ _ _ Hvalid') as (_ & _ & Hc' & Hr').
    pose proof (column_frame_count_nonneg (width projectionSize)) as Hcfc.
    rewrite (pixel_fold_agree 0 thr mask mask' p
               (column_planes frames (column_frame_count (width projectionSize)))
               (column_planes frames' (column_frame_count (width projectionSize)))).
    + apply pixel_fold_agree; [by rewrite Hr, Hr', Hlen | done |].
      intros k pl pl' Hpl Hpl'.
      apply row_planes_lookup in Hpl as (-> & H1 & H2); [|done].
      apply row_planes_lookup in Hpl' as (-> & H1' & H2'); [|done].
      rewrite Hlen. split; [done|]. split; eauto.
    + by rewrite Hc, Hc'.
    + done.
    + intros k pl pl' Hpl Hpl'.
      apply column_planes_lookup in Hpl as (-> & H1 & H2).
      apply column_planes_lookup in Hpl' as (-> & H1' & H2').
      split; [done|]. split; eauto.
  - rewrite !(proj2 (lookup_ge_None _ _)); [done| |].
    + rewrite decode_model_length by done. lia.
    + rewrite decode_model_length by done. lia.
Qed.

(** X8. The decoder works pixel by pixel: what it stores for a camera
    pixel (the two coordinates and the error level) depends on the values
    of the frames at that pixel and on whether the mask is zero there,
    and on nothing else.  Two valid captures with the same number of
    frames that agree in this at pixel [p] give the same three values at
    [p], whatever they hold elsewhere. *)
Theorem decode_is_pixelwise (fuel fuel' : nat) (cam0 proj0 cam0' proj0' : list Point)
    (frames frames' : list (Mat Z)) (projectionSize : Size)
    (mask mask' : Mat Z) (minPointCount minPointCount' thr : Z) (p : nat) :
  valid_input frames projectionSize mask = true ->
  valid_input frames' projectionSize mask' = true ->
  enough_fuel fuel frames ->
  enough_fuel fuel' frames' ->
  length frames = length frames' ->
  Z.eqb 0 <$> data mask !! p = Z.eqb 0 <$> data mask' !! p ->
  (forall (i : nat) (f f' : Mat Z),
     frames !! i = Some f -> frames' !! i = Some f' ->
     data f !! p = data f' !! p) ->
  exists o o' : Outcome,
    getCameraProjectionPairs_run fuel cam0 proj0 frames projectionSize mask
      minPointCount thr = Some o /\
    getCameraProjectionPairs_run fuel' cam0' proj0' frames' projectionSize mask'
      minPointCount' thr = Some o' /\
    coordinates (decoded o) !! (2 * p)%nat
      = coordinates (decoded o') !! (2 * p)%nat /\
    coordinates (decoded o) !! (2 * p + 1)%nat
      = coordinates (decoded o') !! (2 * p + 1)%nat /\
    error (decoded o) !! p = error (decoded o') !! p.
Proof.
  intros Hvalid Hvalid' Hfuel Hfuel' Hlen Hmask Hframes.
  destruct (run_pixel fuel cam0 proj0 frames projectionSize mask minPointCount
              thr Hvalid Hfuel) as (o & Hrun & _ & _ & _ & Hpx).
  destruct (run_pixel fuel' cam0' proj0' frames' projectionSize mask'
              minPointCount' thr Hvalid' Hfuel') as (o' & Hrun' & _ & _ & _ & Hpx').
  exists o, o'. split; [exact Hrun|]. split; [exact Hrun'|].
  destruct (Hpx p) as (-> & -> & ->). destruct (Hpx' p) as (-> & -> & ->).
  by rewrite (decode_model_agree frames frames' projectionSize mask mask' thr p).
Qed.

Lemma decode_is_pixelwise_witness :
  exists o o' : Outcome,
    getCameraProjectionPairs_run 100 [] []
      [mkMat 1 2 [255; 0]; mkMat 1 2 [0; 255];
       mkMat 1 2 [255; 255]; mkMat 1 2 [0; 0]]
      (mkSize 2 2) (mkMat 1 2 [255; 255]) 1 10 = Some o /\
    getCameraProjectionPairs_run 100 [] []
      [mkMat 1 2 [255; 255]; mkMat 1 2 [0; 0];
       mkMat 1 2 [255; 0]; mkMat 1 2 [0; 255]]
      (mkSize 2 2) (mkMat 1 2 [1; 0]) 2 10 = Some o' /\
    error (decoded o) !! 0%nat = error (decoded o') !! 0%nat.
Proof.
  destruct (decode_is_pixelwise 100 100 [] [] [] []
              [mkMat 1 2 [255; 0]; mkMat 1 2 [0; 255];
               mkMat 1 2 [255; 255]; mkMat 1 2 [0; 0]]
              [mkMat 1 2 [255; 255]; mkMat 1 2 [0; 0];
               mkMat 1 2 [255; 0]; mkMat 1 2 [0; 255]]
              (mkSize 2 2) (mkMat 1 2 [255; 255]) (mkMat 1 2 [1; 0])
              1 2 10 0%nat)
    as (o & o' & Hrun & Hrun' & _ & _ & He).
  - vm_compute. reflexivity.
  - vm_compute. reflexivity.
  - cbn. lia.
  - cbn. lia.
  - reflexivity.
  - reflexivity.
  - intros i f f' Hf Hf'.
    destruct i as [|[|[|[|i]]]]; cbn in Hf, Hf'; try discriminate;
      inversion Hf; inversion Hf'; reflexivity.
  - exists o, o'. split; [exact Hrun|]. split; [exact Hrun'|]. exact He.
Defined.

(** ** The noise band *)

Lemma in_noise_band_nonpositive (thr pixel : Z) :
  thr <= 0 -> in_noise_band thr pixel = false.
Proof.
  intros Hthr. unfold in_noise_band.
  destruct (Z.ltb_spec (- thr) pixel), (Z.ltb_spec pixel thr); cbn; lia.
Qed.

Lemma recorded_weights_nonpositive (thr : Z) (trace : list (Z * Z)) :
  thr <= 0 -> recorded_weights thr trace = [].
Proof.
  intros Hthr. induction trace as [|wd trace IH]; [done|].
  cbn [recorded_weights]. by rewrite in_noise_band_nonpositive.
Qed.

(** The error level of pixel [p] after both loops. *)
Lemma decode_model_error (frames : list (Mat Z)) (projectionSize : Size)
    (mask : Mat Z) (thr : Z) (p : nat) (s : PixelState) :
  valid_input frames projectionSize mask = true ->
  decode_model frames projectionSize mask thr !! p = Some s ->
  px_error s =
    max_weight (recorded_weights thr (pixel_trace frames projectionSize mask p)).
Proof.
  intros Hvalid Hs.
  pose proof (lookup_lt_Some _ _ _ Hs) as Hlt.
  rewrite decode_model_length in Hlt by done.
  rewrite (decode_model_lookup frames projectionSize mask thr p Hvalid Hlt) in Hs.
  cbn zeta in Hs. inversion Hs; subst. clear Hs.
  pose proof (max_weight_nonneg (recorded_weights thr
    (map (fun pl : Plane => (pl.1, default 0 (plane_diff mask pl.2.1 pl.2.2 !! p)))
       (column_planes frames (column_frame_count (width projectionSize))))))
    as Hnn.
  rewrite px_error_foldl;
    change (px_error (clear_temp ?s)) with (px_error s);
    rewrite px_error_foldl by (cbn; lia); cbn [px_error]; [|lia].
  unfold pixel_trace. rewrite map_app, recorded_weights_app, max_weight_app. lia.
Qed.

(** X9. With a noise threshold of zero or less the test
    [pixel > -threshold && pixel < threshold] never holds: no error level
    is ever recorded, every pixel keeps level 0, and the tolerance is 0
    when [minPointCount] does not exceed the number of camera pixels and
    the sentinel 4 otherwise.  In both cases the error test of the final
    scan passes at every pixel. *)
Theorem nonpositive_threshold_records_nothing (fuel : nat)
    (cam0 proj0 : list Point) (frames : list (Mat Z)) (projectionSize : Size)
    (mask : Mat Z) (minPointCount thr : Z) :
  valid_input frames projectionSize mask = true ->
  enough_fuel fuel frames ->
  thr <= 0 ->
  exists o : Outcome,
    getCameraProjectionPairs_run fuel cam0 proj0 frames projectionSize mask
      minPointCount thr = Some o /\
    error (decoded o)
      = replicate (camera_rows frames * camera_cols frames) 0 /\
    tolerance o =
      (if minPointCount <=? Z.of_nat (camera_rows frames * camera_cols frames)
       then 0 else 4).
Proof.
  intros Hvalid Hfuel Hthr.
  destruct (run_pixel fuel cam0 proj0 frames projectionSize mask minPointCount
              thr Hvalid Hfuel) as (o & Hrun & Htol & _ & Hlen & Hpx).
  exists o. split; [exact Hrun|].
  assert (Herr : error (decoded o)
                 = replicate (camera_rows frames * camera_cols frames) 0).
  { apply (list_eq_same_length _ _ (camera_rows frames * camera_cols frames));
      [by rewrite length_replicate | exact Hlen |].
    intros i e z Hi He Hz. apply lookup_replicate in Hz as [-> _].
    destruct (Hpx i) as (_ & _ & Hei). rewrite Hei in He.
    destruct (decode_model frames projectionSize mask thr !! i) as [s|] eqn:Hs;
      [|done].
    inversion He; subst.
    rewrite (decode_model_error _ _ _ _ _ _ Hvalid Hs).
    by rewrite recorded_weights_nonpositive. }
  split; [exact Herr|]. rewrite Htol, Herr. unfold tolerance_model.
  rewrite !cumulative_zeros by lia.
  by destruct (minPointCount <=? _).
Qed.

Lemma nonpositive_threshold_records_nothing_witness :
  exists o : Outcome,
    getCameraProjectionPairs_run 200 [] [] (scenario_with_blank_pair 0)
      scenario_size scenario_mask 50 0 = Some o /\
    error (decoded o) = replicate 100 0 /\ tolerance o = 0.
Proof.
  apply (nonpositive_threshold_records_nothing 200 [] []
           (scenario_with_blank_pair 0) scenario_size scenario_mask 50 0).
  - vm_compute. reflexivity.
  - vm_compute. lia.
  - lia.
Defined.

(** ** Pixels outside the mask *)

Lemma masked_out_diff (mask f1 f2 : Mat Z) (p : nat) :
  data mask !! p = Some 0 -> default 0 (plane_diff mask f1 f2 !! p) = 0.
Proof.
  intros Hm. rewrite plane_diff_lookup, Hm. cbn [mbind option_bind].
  destruct (data f1 !! p); cbn [mbind option_bind]; [|done].
  by destruct (data f2 !! p).
Qed.

Lemma recorded_weights_masked_out (thr : Z) (mask : Mat Z) (p : nat)
    (planes : list Plane) :
  0 < thr -> data mask !! p = Some 0 ->
  recorded_weights thr
    (map (fun pl : Plane => (pl.1, default 0 (plane_diff mask pl.2.1 pl.2.2 !! p)))
       planes) = planes.*1.
Proof.
  intros Hthr Hm. induction planes as [|pl planes IH]; [done|].
  cbn [map recorded_weights fmap list_fmap]. cbn [snd fst].
  rewrite masked_out_diff by done.
  replace (in_noise_band thr 0) with true; [by rewrite IH|].
  unfold in_noise_band.
  destruct (Z.ltb_spec (- thr) 0), (Z.ltb_spec 0 thr); cbn; lia.
Qed.

(** X10. The mask does not take a pixel out of the decoder: outside the
    mask the difference image is zero at every bit-plane pair, which lies
    inside every noise band of a positive threshold.  Such a pixel ends
    with the largest weight of all the bit-plane pairs as its error
    level. *)
Theorem masked_out_pixel_error_level (fuel : nat) (cam0 proj0 : list Point)
    (frames : list (Mat Z)) (projectionSize : Size) (mask : Mat Z)
    (minPointCount thr : Z) (p : nat) :
  valid_input frames projectionSize mask = true ->
  enough_fuel fuel frames ->
  0 < thr ->
  data mask !! p = Some 0 ->
  exists o : Outcome,
    getCameraProjectionPairs_run fuel cam0 proj0 frames projectionSize mask
      minPointCount thr = Some o /\
    error (decoded o) !! p =
      Some (max_weight
              (column_planes frames (column_frame_count (width projectionSize))
               ++ row_planes frames (column_frame_count (width projectionSize))).*1).
Proof.
  intros Hvalid Hfuel Hthr Hm.
  destruct (run_pixel fuel cam0 proj0 frames projectionSize mask minPointCount
              thr Hvalid Hfuel) as (o & Hrun & _ & _ & Hlen & Hpx).
  exists o. split; [exact Hrun|].
  destruct (Hpx p) as (_ & _ & ->).
  assert (Hp : (p < camera_rows frames * camera_cols frames)%nat).
  { destruct (valid_input_spec _ _ _ Hvalid) as (f0 & rest & -> & _ & Hmk & _).
    apply well_sized_spec in Hmk as (_ & _ & Hmk).
    cbn [camera_rows camera_cols]. rewrite <- Hmk. by eapply lookup_lt_Some. }
  destruct (decode_model frames projectionSize mask thr !! p) as [s|] eqn:Hs.
  - cbn [fmap option_fmap option_map]. f_equal.
    rewrite (decode_model_error _ _ _ _ _ _ Hvalid Hs). unfold pixel_trace.
    by rewrite recorded_weights_masked_out.
  - apply lookup_ge_None in Hs. rewrite decode_model_length in Hs by done. lia.
Qed.

Lemma masked_out_pixel_error_level_witness :
  exists o : Outcome,
    getCameraProjectionPairs_run 100 [] []
      [mkMat 1 2 [255; 0]; mkMat 1 2 [0; 255];
       mkMat 1 2 [255; 255]; mkMat 1 2 [0; 0]]
      (mkSize 2 2) (mkMat 1 2 [255; 0]) 1 10 = Some o /\
    error (decoded o) !! 1%nat = Some 1.
Proof.
  apply (masked_out_pixel_error_level 100 [] []
           [mkMat 1 2 [255; 0]; mkMat 1 2 [0; 255];
            mkMat 1 2 [255; 255]; mkMat 1 2 [0; 0]]
           (mkSize 2 2) (mkMat 1 2 [255; 0]) 1 10 1%nat).
  - vm_compute. reflexivity.
  - cbn. lia.
  - lia.
  - reflexivity.
Defined.

(** ** The coordinate accumulators *)

Lemma bit_step_le (c : Z) (t : bool) :
  0 <= c -> 0 <= bit_step c t <= 2 * c + 1.
Proof.
  intros Hc. unfold bit_step, to_u16. rewrite Z.shiftl_mul_pow2 by lia.
  change (2 ^ 1) with 2.
  pose proof (Z.mod_pos_bound (c * 2) (2 ^ 16) ltac:(lia)) as H1.
  pose proof (Z.mod_le (c * 2) (2 ^ 16) ltac:(lia) ltac:(lia)) as H2.
  destruct t; [|lia].
  pose proof (Z.mod_pos_bound ((c * 2) mod 2 ^ 16 + 1) (2 ^ 16) ltac:(lia)) as H3.
  pose proof (Z.mod_le ((c * 2) mod 2 ^ 16 + 1) (2 ^ 16) ltac:(lia) ltac:(lia)) as H4.
  lia.
Qed.

Lemma bit_step_exact (c : Z) (t : bool) :
  0 <= c -> 2 * c + 1 < 2 ^ 16 ->
  bit_step c t = 2 * c + (if t then 1 else 0).
Proof.
  intros Hc Hlt. unfold bit_step, to_u16. rewrite Z.shiftl_mul_pow2 by lia.
  change (2 ^ 1) with 2. rewrite (Z.mod_small (c * 2)) by lia.
  destruct t; [|lia]. rewrite Z.mod_small; lia.
Qed.

(** A loop over the pairs of one axis leaves the coordinate of the other
    axis as it is. *)
Lemma fold_other_coordinate (axis thr : Z) (mask : Mat Z) (p : nat)
    (planes : list Plane) :
  forall s : PixelState,
    let s' := foldl (fun s (pl : Plane) =>
                       pixel_step axis pl.1 thr
                         (default 0 (plane_diff mask pl.2.1 pl.2.2 !! p)) s)
                s planes in
    (if axis =? 0 then px_y s' else px_x s')
    = (if axis =? 0 then px_y s else px_x s).
Proof.
  induction planes as [|pl planes IH]; intros s; [done|].
  cbn [foldl]. cbn zeta in IH. rewrite IH. unfold pixel_step. cbn [px_x px_y].
  by destruct (axis =? 0).
Qed.

(** After [j] pairs of an axis its accumulator holds a [j]-bit number. *)
Lemma fold_coordinate_width (axis thr : Z) (mask : Mat Z) (p : nat)
    (planes : list Plane) :
  forall (j : Z) (s : PixelState),
    0 <= j ->
    0 <= (if axis =? 0 then px_x s else px_y s) < 2 ^ j ->
    let s' := foldl (fun s (pl : Plane) =>
                       pixel_step axis pl.1 thr
                         (default 0 (plane_diff mask pl.2.1 pl.2.2 !! p)) s)
                s planes in
    0 <= (if axis =? 0 then px_x s' else px_y s')
      < 2 ^ (j + Z.of_nat (length planes)).
Proof.
  induction planes as [|pl planes IH]; intros j s Hj Hs.
  - cbn [foldl length]. by rewrite Z.add_0_r.
  - cbn [foldl length]. cbn zeta in IH.
    replace (j + Z.of_nat (S (length planes)))
      with ((j + 1) + Z.of_nat (length planes)) by lia.
    apply IH; [lia|]. rewrite Z.pow_add_r, Z.pow_1_r by lia.
    unfold pixel_step. cbn [px_x px_y].
    destruct (axis =? 0).
    + pose proof (bit_step_le (px_x s)
        (xorb (px_temp s)
           (0 <=? default 0 (plane_diff mask pl.2.1 pl.2.2 !! p))) ltac:(lia)).
      lia.
    + pose proof (bit_step_le (px_y s)
        (xorb (px_temp s)
           (0 <=? default 0 (plane_diff mask pl.2.1 pl.2.2 !! p))) ltac:(lia)).
      lia.
Qed.

(** The two accumulators of a pixel after both loops hold no more bits
    than their axis has bit-plane pairs. *)
Lemma decode_model_width (frames : list (Mat Z)) (projectionSize : Size)
    (mask : Mat Z) (thr : Z) (p : nat) (s : PixelState) :
  valid_input frames projectionSize mask = true ->
  decode_model frames projectionSize mask thr !! p = Some s ->
  0 <= px_x s < 2 ^ Z.log2_up (width projectionSize) /\
  0 <= px_y s < 2 ^ ((Z.of_nat (length frames)
                      - column_frame_count (width projectionSize)) / 2).
Proof.
  intros Hvalid Hs.
  destruct (valid_plane_counts _ _ _ Hvalid) as (Hn & Hm & Hc & Hr).
  pose proof (lookup_lt_Some _ _ _ Hs) as Hlt.
  rewrite decode_model_length in Hlt by done.
  rewrite (decode_model_lookup frames projectionSize mask thr p Hvalid Hlt) in Hs.
  cbn zeta in Hs. inversion Hs; subst. clear Hs.
  set (cfc := column_frame_count (width projectionSize)) in *.
  set (s1 := foldl _ (mkPixel 0 0 false 0) (column_planes frames cfc)).
  pose proof (fold_coordinate_width 0 thr mask p (column_planes frames cfc) 0
                (mkPixel 0 0 false 0) ltac:(lia) ltac:(cbn; lia)) as Hx.
  pose proof (fold_other_coordinate 0 thr mask p (column_planes frames cfc)
                (mkPixel 0 0 false 0)) as Hy0.
  cbn zeta in Hx, Hy0. fold s1 in Hx, Hy0.
  change (if 0 =? 0 then px_x s1 else px_y s1) with (px_x s1) in Hx.
  change (px_y s1 = 0) in Hy0.
  pose proof (fold_coordinate_width 1 thr mask p (row_planes frames cfc) 0
                (clear_temp s1) ltac:(lia)) as Hy.
  pose proof (fold_other_coordinate 1 thr mask p (row_planes frames cfc)
                (clear_temp s1)) as Hx1.
  cbn zeta in Hy, Hx1.
  change (if 1 =? 0 then ?a else ?b) with b in Hy, Hx1.
  change (px_y (clear_temp s1)) with (px_y s1) in Hy.
  change (px_x (clear_temp s1)) with (px_x s1) in Hx1.
  rewrite Hy0 in Hy. specialize (Hy ltac:(change (2 ^ 0) with 1; lia)).
  rewrite Hc in Hx. rewrite Hr in Hy.
  rewrite Z2Nat.id in Hx, Hy by lia. rewrite Z.add_0_l in Hx, Hy.
  rewrite Hx1. split; [exact Hx | exact Hy].
Qed.

(** X11. A decoded coordinate has no more bits than its axis has
    bit-plane pairs: after one call on a valid input every x slot of the
    coordinate buffer is below 2 to the number of column pairs, and every
    y slot is below 2 to the number of row pairs.  Projector columns and
    rows from that power of two on never receive a correspondence. *)
Theorem decoded_coordinates_bit_width (fuel : nat) (cam0 proj0 : list Point)
    (frames : list (Mat Z)) (projectionSize : Size) (mask : Mat Z)
    (minPointCount thr : Z) :
  valid_input frames projectionSize mask = true ->
  enough_fuel fuel frames ->
  exists o : Outcome,
    getCameraProjectionPairs_run fuel cam0 proj0 frames projectionSize mask
      minPointCount thr = Some o /\
    forall (p : nat) (c : Z),
      (coordinates (decoded o) !! (2 * p)%nat = Some c ->
       0 <= c < 2 ^ Z.log2_up (width projectionSize)) /\
      (coordinates (decoded o) !! (2 * p + 1)%nat = Some c ->
       0 <= c < 2 ^ ((Z.of_nat (length frames)
                      - column_frame_count (width projectionSize)) / 2)).
Proof.
  intros Hvalid Hfuel.
  destruct (run_pixel fuel cam0 proj0 frames projectionSize mask minPointCount
              thr Hvalid Hfuel) as (o & Hrun & _ & _ & Hlen & Hpx).
  exists o. split; [exact Hrun|]. intros p c.
  destruct (Hpx p) as (-> & -> & _).
  destruct (decode_model frames projectionSize mask thr !! p) as [s|] eqn:Hs;
    [|done].
  destruct (decode_model_width _ _ _ _ _ _ Hvalid Hs) as [Hx Hy].
  cbn [fmap option_fmap option_map]. split; by intros [= <-].
Qed.

Lemma decoded_coordinates_bit_width_witness :
  exists o : Outcome,
    getCameraProjectionPairs_run 200 [] [] (scenario_with_blank_pair 2)
      scenario_size scenario_mask 50 10 = Some o /\
    forall (p : nat) (c : Z),
      (coordinates (decoded o) !! (2 * p)%nat = Some c -> 0 <= c < 8) /\
      (coordinates (decoded o) !! (2 * p + 1)%nat = Some c -> 0 <= c < 8).
Proof.
  apply (decoded_coordinates_bit_width 200 [] [] (scenario_with_blank_pair 2)
           scenario_size scenario_mask 50 10).
  - vm_compute. reflexivity.
  - vm_compute. lia.
Defined.

(** ** The coordinate of a pixel outside the mask *)

Lemma fold_masked_out (axis thr : Z) (mask : Mat Z) (p : nat)
    (planes : list Plane) :
  data mask !! p = Some 0 ->
  forall (j : nat) (s : PixelState),
    (j + length planes <= 16)%nat ->
    px_temp s = Z.odd (Z.of_nat j) ->
    3 * (if axis =? 0 then px_x s else px_y s)
      = 2 ^ (Z.of_nat j + 1) - (if Z.odd (Z.of_nat j) then 1 else 2) ->
    let s' := foldl (fun s (pl : Plane) =>
                       pixel_step axis pl.1 thr
                         (default 0 (plane_diff mask pl.2.1 pl.2.2 !! p)) s)
                s planes in
    3 * (if axis =? 0 then px_x s' else px_y s')
      = 2 ^ (Z.of_nat (j + length planes) + 1)
        - (if Z.odd (Z.of_nat (j + length planes)) then 1 else 2).
Proof.
  intros Hm. induction planes as [|pl planes IH]; intros j s Hj Ht Hc.
  - cbn [foldl length]. by rewrite Nat.add_0_r.
  - cbn [foldl length]. cbn zeta in IH.
    replace (j + S (length planes))%nat with (S j + length planes)%nat by lia.
    cbn [length] in Hj.
    assert (Hodd : Z.odd (Z.of_nat (S j)) = negb (Z.odd (Z.of_nat j))).
    { by rewrite Nat2Z.inj_succ, Z.odd_succ, <- Z.negb_odd. }
    assert (Hpow : 2 ^ (Z.of_nat (S j) + 1) = 2 * 2 ^ (Z.of_nat j + 1)).
    { rewrite Nat2Z.inj_succ, <- Z.add_1_l, <- Z.add_assoc, Z.pow_add_r by lia.
      done. }
    assert (Hbound : 2 ^ (Z.of_nat j + 1) <= 2 ^ 16)
      by (apply Z.pow_le_mono_r; lia).
    apply IH; [lia| |].
    + unfold pixel_step. cbn [px_temp]. rewrite masked_out_diff by done.
      rewrite Ht, Hodd. by destruct (Z.odd (Z.of_nat j)).
    + rewrite Hodd, Hpow. unfold pixel_step. cbn [px_x px_y px_temp].
      rewrite masked_out_diff by done. rewrite Ht.
      change (0 <=? 0) with true.
      destruct (axis =? 0).
      * rewrite bit_step_exact by (destruct (Z.odd (Z.of_nat j)); lia).
        destruct (Z.odd (Z.of_nat j)); cbn [xorb negb]; lia.
      * rewrite bit_step_exact by (destruct (Z.odd (Z.of_nat j)); lia).
        destruct (Z.odd (Z.of_nat j)); cbn [xorb negb]; lia.
Qed.

(** X12. A pixel outside the mask is decoded like any other, from a zero
    difference at every pair: its toggle flips at every pair, so with [n]
    column pairs and [m] row pairs (at most 16 each) it is given the
    coordinate whose bits alternate from a leading 1, the integer part of
    [2^(n+1) / 3] and of [2^(m+1) / 3], whatever the frames show. *)
Theorem masked_out_pixel_coordinates (fuel : nat) (cam0 proj0 : list Point)
    (frames : list (Mat Z)) (projectionSize : Size) (mask : Mat Z)
    (minPointCount thr : Z) (p : nat) :
  valid_input frames projectionSize mask = true ->
  enough_fuel fuel frames ->
  data mask !! p = Some 0 ->
  Z.log2_up (width projectionSize) <= 16 ->
  (Z.of_nat (length frames) - column_frame_count (width projectionSize)) / 2
    <= 16 ->
  exists (o : Outcome) (cx cy : Z),
    getCameraProjectionPairs_run fuel cam0 proj0 frames projectionSize mask
      minPointCount thr = Some o /\
    coordinates (decoded o) !! (2 * p)%nat = Some cx /\
    coordinates (decoded o) !! (2 * p + 1)%nat = Some cy /\
    3 * cx = 2 ^ (Z.log2_up (width projectionSize) + 1)
             - (if Z.odd (Z.log2_up (width projectionSize)) then 1 else 2) /\
    3 * cy = 2 ^ ((Z.of_nat (length frames)
                   - column_frame_count (width projectionSize)) / 2 + 1)
             - (if Z.odd ((Z.of_nat (length frames)
                           - column_frame_count (width projectionSize)) / 2)
                then 1 else 2).
Proof.
  intros Hvalid Hfuel Hmask Hn16 Hm16.
  destruct (run_pixel fuel cam0 proj0 frames projectionSize mask minPointCount
              thr Hvalid Hfuel) as (o & Hrun & _ & _ & Hlen & Hpx).
  destruct (Hpx p) as (Hcx & Hcy & _).
  destruct (valid_plane_counts _ _ _ Hvalid) as (Hn & Hm & Hc & Hr).
  assert (Hp : (p < camera_rows frames * camera_cols frames)%nat).
  { destruct (valid_input_spec _ _ _ Hvalid) as (f0 & rest & -> & _ & Hmk & _).
    apply well_sized_spec in Hmk as (_ & _ & Hmk).
    cbn [camera_rows camera_cols]. rewrite <- Hmk. by eapply lookup_lt_Some. }
  rewrite (decode_model_lookup frames projectionSize mask thr p Hvalid Hp)
    in Hcx, Hcy.
  cbn zeta in Hcx, Hcy. cbn [fmap option_fmap option_map] in Hcx, Hcy.
  set (cfc := column_frame_count (width projectionSize)) in *.
  set (s1 := foldl _ (mkPixel 0 0 false 0) (column_planes frames cfc)) in *.
  eexists o, _, _. split; [exact Hrun|]. split; [exact Hcx|].
  split; [exact Hcy|].
  pose proof (fold_masked_out 0 thr mask p (column_planes frames cfc) Hmask
                0%nat (mkPixel 0 0 false 0) ltac:(lia) eq_refl eq_refl) as Hx.
  pose proof (fold_other_coordinate 0 thr mask p (column_planes frames cfc)
                (mkPixel 0 0 false 0)) as Hy0.
  cbn zeta in Hx, Hy0. fold s1 in Hx, Hy0.
  change (if 0 =? 0 then px_x s1 else px_y s1) with (px_x s1) in Hx.
  change (px_y s1 = 0) in Hy0.
  pose proof (fold_masked_out 1 thr mask p (row_planes frames cfc) Hmask
                0%nat (clear_temp s1) ltac:(lia) eq_refl) as Hy.
  pose proof (fold_other_coordinate 1 thr mask p (row_planes frames cfc)
                (clear_temp s1)) as Hx1.
  cbn zeta in Hy, Hx1.
  change (if 1 =? 0 then ?a else ?b) with b in Hy, Hx1.
  change (px_y (clear_temp s1)) with (px_y s1) in Hy.
  change (px_x (clear_temp s1)) with (px_x s1) in Hx1.
  rewrite Hy0 in Hy. specialize (Hy eq_refl).
  rewrite Hc in Hx. rewrite Hr in Hy. cbn [Nat.add] in Hx, Hy.
  rewrite Z2Nat.id in Hx, Hy by lia.
  split; [by rewrite Hx1 | exact Hy].
Qed.

Lemma masked_out_pixel_coordinates_witness :
  exists (o : Outcome) (cx cy : Z),
    getCameraProjectionPairs_run 200 [] [] scenario_frames scenario_size
      (mkMat 10 10 (replicate 100 0)) 50 10 = Some o /\
    coordinates (decoded o) !! (2 * 7)%nat = Some cx /\
    coordinates (decoded o) !! (2 * 7 + 1)%nat = Some cy /\
    3 * cx = 15 /\ 3 * cy = 15.
Proof.
  apply (masked_out_pixel_coordinates 200 [] [] scenario_frames scenario_size
           (mkMat 10 10 (replicate 100 0)) 50 10 7%nat).
  - vm_compute. reflexivity.
  - vm_compute. lia.
  - reflexivity.
  - vm_compute. discriminate.
  - vm_compute. discriminate.
Defined.

(** ** The output vectors *)

Lemma NoDup_camera_points (w h : nat) : NoDup (camera_points w h).
Proof.
  unfold camera_points. apply NoDup_bind; [| |apply NoDup_seq].
  - intros y1 y2 pt _ _ H1 H2.
    apply list_elem_of_bind in H1 as (x1 & H1 & _).
    apply list_elem_of_bind in H2 as (x2 & H2 & _).
    apply list_elem_of_singleton in H1, H2. subst pt.
    unfold mkPoint in H2. inversion H2. lia.
  - intros y _. apply NoDup_bind; [| |apply NoDup_seq].
    + intros x1 x2 pt _ _ H1 H2.
      apply list_elem_of_singleton in H1, H2. subst pt.
      unfold mkPoint in H2. inversion H2. lia.
    + intros x _. apply NoDup_singleton.
Qed.

(** The pairs of the final scan: at most one per camera pixel, at distinct
    camera points, each inside its image. *)
Lemma scan_model_well_formed (ps : list PixelState) (projectionSize : Size)
    (t : Z) (w h : nat) :
  let pairs := scan_model ps projectionSize t w h in
  (length pairs.*1 <= h * w)%nat /\
  NoDup pairs.*1 /\
  Forall (fun c : Point =>
            0 <= c.1 < Z.of_nat w /\ 0 <= c.2 < Z.of_nat h) pairs.*1 /\
  Forall (fun q : Point =>
            0 <= q.1 < width projectionSize /\
            0 <= q.2 < height projectionSize) pairs.*2.
Proof.
  intros pairs.
  pose proof (scan_model_sublist ps projectionSize t w h) as Hsub.
  fold pairs in Hsub. split.
  { apply sublist_length in Hsub. by rewrite length_camera_points in Hsub. }
  split; [by eapply sublist_NoDup; [apply NoDup_camera_points|]|].
  assert (Hpairs : forall pr : Point * Point, pr ∈ pairs ->
            (0 <= pr.1.1 < Z.of_nat w /\ 0 <= pr.1.2 < Z.of_nat h) /\
            (0 <= pr.2.1 < width projectionSize /\
             0 <= pr.2.2 < height projectionSize)).
  { intros pr Hin. apply scan_model_elem in Hin
      as (y & x & s & Hy & Hx & _ & Hq & ->).
    apply qualifies_spec in Hq as (Hqx & Hqy & _).
    unfold mkPoint. cbn [fst snd]. lia. }
  split.
  - apply Forall_fmap. apply list.Forall_forall. intros pr Hin.
    exact (proj1 (Hpairs pr Hin)).
  - apply Forall_fmap. apply list.Forall_forall. intros pr Hin.
    exact (proj2 (Hpairs pr Hin)).
Qed.

(** X13. What a call on empty vectors returns, on every valid input: two
    vectors of the same length, with at most one pair per camera pixel;
    the camera points are distinct points of the camera image and every
    projector point lies inside the projector image. *)
Theorem returned_pairs_are_well_formed (fuel : nat) (frames : list (Mat Z))
    (projectionSize : Size) (mask : Mat Z) (minPointCount thr : Z) :
  valid_input frames projectionSize mask = true ->
  enough_fuel fuel frames ->
  exists cam proj : list Point,
    getCameraProjectionPairs fuel [] [] frames projectionSize mask
      minPointCount thr = Some (cam, proj) /\
    length cam = length proj /\
    (length cam <= camera_rows frames * camera_cols frames)%nat /\
    NoDup cam /\
    Forall (fun c : Point =>
              0 <= c.1 < Z.of_nat (camera_cols frames) /\
              0 <= c.2 < Z.of_nat (camera_rows frames)) cam /\
    Forall (fun q : Point =>
              0 <= q.1 < width projectionSize /\
              0 <= q.2 < height projectionSize) proj.
Proof.
  intros Hvalid Hfuel. unfold getCameraProjectionPairs.
  rewrite (run_model fuel [] [] frames projectionSize mask minPointCount thr
             Hvalid Hfuel).
  cbn [mbind option_bind outcome_model out_camera out_projection app].
  eexists _, _. split; [done|]. split; [by rewrite !length_fmap|].
  apply scan_model_well_formed.
Qed.

Lemma returned_pairs_are_well_formed_witness :
  exists cam proj : list Point,
    getCameraProjectionPairs 200 [] [] scenario_frames scenario_size
      scenario_mask 50 10 = Some (cam, proj) /\
    length cam = length proj /\ NoDup cam.
Proof.
  destruct (returned_pairs_are_well_formed 200 scenario_frames scenario_size
              scenario_mask 50 10) as (cam & proj & Hrun & Hlen & _ & Hnd & _).
  - vm_compute. reflexivity.
  - vm_compute. lia.
  - exists cam, proj. split; [exact Hrun|]. split; [exact Hlen | exact Hnd].
Defined.

(** X14. The call appends: what the two vectors hold on entry stays in
    front, followed by exactly the pairs that the same call returns on
    empty vectors. *)
Theorem pairs_are_appended (fuel : nat) (frames : list (Mat Z))
    (projectionSize : Size) (mask : Mat Z) (minPointCount thr : Z) :
  valid_input frames projectionSize mask = true ->
  enough_fuel fuel frames ->
  exists cam proj : list Point,
    getCameraProjectionPairs fuel [] [] frames projectionSize mask
      minPointCount thr = Some (cam, proj) /\
    forall cam0 proj0 : list Point,
      getCameraProjectionPairs fuel cam0 proj0 frames projectionSize mask
        minPointCount thr = Some (cam0 ++ cam, proj0 ++ proj).
Proof.
  intros Hvalid Hfuel. unfold getCameraProjectionPairs.
  eexists _, _. split.
  - rewrite (run_model fuel [] [] frames projectionSize mask minPointCount thr
               Hvalid Hfuel).
    cbn [mbind option_bind outcome_model out_camera out_projection app]. done.
  - intros cam0 proj0.
    rewrite (run_model fuel cam0 proj0 frames projectionSize mask minPointCount
               thr Hvalid Hfuel).
    done.
Qed.

Lemma pairs_are_appended_witness :
  exists cam proj : list Point,
    getCameraProjectionPairs 200 [] [] scenario_frames scenario_size
      scenario_mask 50 10 = Some (cam, proj) /\
    getCameraProjectionPairs 200 [mkPoint 7 7] [mkPoint 1 1] scenario_frames
      scenario_size scenario_mask 50 10
      = Some (mkPoint 7 7 :: cam, mkPoint 1 1 :: proj).
Proof.
  destruct (pairs_are_appended 200 scenario_frames scenario_size
              scenario_mask 50 10) as (cam & proj & Hrun & Happ).
  - vm_compute. reflexivity.
  - vm_compute. lia.
  - exists cam, proj. split; [exact Hrun|].
    exact (Happ [mkPoint 7 7] [mkPoint 1 1]).
Defined.

(** ** The reserved capacity *)

Lemma count_if_app (P : Z -> bool) (l1 l2 : list Z) :
  count_if P (l1 ++ l2) = count_if P l1 + count_if P l2.
Proof. induction l1 as [|e l1 IH]; cbn [count_if app]; [done|]. rewrite IH. lia. Qed.






(** ** The decoder as a Gray-code inversion *)

(** After the pairs of one axis, bit [k] from the top of its accumulator
    is the parity of the first [k + 1] results of [pixel >= 0]. *)
Lemma fold_gray_decode (axis thr : Z) (mask : Mat Z) (p : nat)
    (s0 : PixelState) :
  (if axis =? 0 then px_x s0 else px_y s0) = 0 ->
  forall planes : list Plane,
    (length planes <= 16)%nat ->
    let sign := fun pl : Plane =>
                  0 <=? default 0 (plane_diff mask pl.2.1 pl.2.2 !! p) in
    let s' := foldl (fun s (pl : Plane) =>
                       pixel_step axis pl.1 thr
                         (default 0 (plane_diff mask pl.2.1 pl.2.2 !! p)) s)
                s0 planes in
    px_temp s' = foldl xorb (px_temp s0) (map sign planes) /\
    0 <= (if axis =? 0 then px_x s' else px_y s')
      < 2 ^ Z.of_nat (length planes) /\
    forall k : nat, (k < length planes)%nat ->
      Z.testbit (if axis =? 0 then px_x s' else px_y s')
        (Z.of_nat (length planes - 1 - k))
      = foldl xorb (px_temp s0) (map sign (take (S k) planes)).
Proof.
  intros H0 planes. induction planes as [|pl planes IH] using rev_ind;
    intros Hlen; cbn zeta.
  - cbn [foldl map length]. rewrite H0.
    split; [done|]. split; [done|]. intros k Hk. cbn in Hk. lia.
  - rewrite length_app in Hlen. cbn [length] in Hlen.
    specialize (IH ltac:(lia)). cbn zeta in IH.
    set (sign := fun pl : Plane =>
                   0 <=? default 0 (plane_diff mask pl.2.1 pl.2.2 !! p)) in *.
    destruct IH as (Ht & Hc & Hbits).
    rewrite foldl_app. cbn [foldl].
    set (s1 := foldl _ s0 planes) in *.
    set (t' := xorb (px_temp s1) (sign pl)).
    assert (Hpow : 2 ^ Z.of_nat (length planes) <= 2 ^ 15)
      by (apply Z.pow_le_mono_r; lia).
    assert (Hcoord :
      (if axis =? 0
       then px_x (pixel_step axis pl.1 thr
                    (default 0 (plane_diff mask pl.2.1 pl.2.2 !! p)) s1)
       else px_y (pixel_step axis pl.1 thr
                    (default 0 (plane_diff mask pl.2.1 pl.2.2 !! p)) s1))
      = 2 * (if axis =? 0 then px_x s1 else px_y s1) + Z.b2z t').
    { unfold pixel_step. cbn [px_x px_y].
      change (xorb (px_temp s1)
                (0 <=? default 0 (plane_diff mask pl.2.1 pl.2.2 !! p)))
        with t'.
      destruct (axis =? 0); rewrite bit_step_exact by lia; by destruct t'. }
    rewrite Hcoord. clear Hcoord.
    assert (Htemp : px_temp (pixel_step axis pl.1 thr
                      (default 0 (plane_diff mask pl.2.1 pl.2.2 !! p)) s1)
                    = foldl xorb (px_temp s0) (map sign (planes ++ [pl]))).
    { unfold pixel_step. cbn [px_temp].
      rewrite map_app, foldl_app, <- Ht. done. }
    split; [exact Htemp|]. split.
    + rewrite length_app. cbn [length].
      replace (Z.of_nat (length planes + 1))
        with (Z.of_nat (length planes) + 1) by lia.
      rewrite Z.pow_add_r, Z.pow_1_r by lia. destruct t'; cbn [Z.b2z]; lia.
    + intros k Hk. rewrite length_app in Hk |- *. cbn [length] in Hk |- *.
      destruct (decide (k = length planes)) as [-> | Hne].
      * replace (length planes + 1 - 1 - length planes)%nat with 0%nat by lia.
        rewrite Z.testbit_0_r.
        rewrite take_ge by (rewrite length_app; cbn [length]; lia).
        rewrite <- Htemp. unfold pixel_step. cbn [px_temp]. done.
      * replace (Z.of_nat (length planes + 1 - 1 - k))
          with (Z.succ (Z.of_nat (length planes - 1 - k))) by lia.
        rewrite Z.testbit_succ_r by lia.
        rewrite take_app_le by lia. apply Hbits. lia.
Qed.

(** X16. On every valid capture with at most 16 pairs per axis the two
    loops invert a Gray code: bit [k] from the top of the decoded x
    coordinate is the parity (running XOR) of the results of the test
    [pixel >= 0] at the first [k + 1] column pairs, and the same holds
    for y with the row pairs, the toggle starting anew from false.  The
    x coordinate does not depend on the row frames nor y on the column
    frames. *)
Theorem decoder_inverts_gray_code (fuel : nat) (cam0 proj0 : list Point)
    (frames : list (Mat Z)) (projectionSize : Size) (mask : Mat Z)
    (minPointCount thr : Z) (p : nat) :
  valid_input frames projectionSize mask = true ->
  enough_fuel fuel frames ->
  Z.log2_up (width projectionSize) <= 16 ->
  (Z.of_nat (length frames) - column_frame_count (width projectionSize)) / 2
    <= 16 ->
  (p < camera_rows frames * camera_cols frames)%nat ->
  exists (o : Outcome) (cx cy : Z),
    getCameraProjectionPairs_run fuel cam0 proj0 frames projectionSize mask
      minPointCount thr = Some o /\
    coordinates (decoded o) !! (2 * p)%nat = Some cx /\
    coordinates (decoded o) !! (2 * p + 1)%nat = Some cy /\
    let signs := map (fun wd : Z * Z => 0 <=? wd.2)
                   (pixel_trace frames projectionSize mask p) in
    let n := Z.to_nat (Z.log2_up (width projectionSize)) in
    let m := Z.to_nat ((Z.of_nat (length frames)
                        - column_frame_count (width projectionSize)) / 2) in
    0 <= cx < 2 ^ Z.of_nat n /\
    0 <= cy < 2 ^ Z.of_nat m /\
    (forall k : nat, (k < n)%nat ->
       Z.testbit cx (Z.of_nat (n - 1 - k))
       = foldl xorb false (take (S k) signs)) /\
    (forall k : nat, (k < m)%nat ->
       Z.testbit cy (Z.of_nat (m - 1 - k))
       = foldl xorb false (take (S k) (drop n signs))).
Proof.
  intros Hvalid Hfuel Hn16 Hm16 Hp.
  destruct (run_pixel fuel cam0 proj0 frames projectionSize mask minPointCount
              thr Hvalid Hfuel) as (o & Hrun & _ & _ & Hlen & Hpx).
  destruct (Hpx p) as (Hcx & Hcy & _).
  destruct (valid_plane_counts _ _ _ Hvalid) as (Hn & Hm & Hc & Hr).
  rewrite (decode_model_lookup frames projectionSize mask thr p Hvalid Hp)
    in Hcx, Hcy.
  cbn zeta in Hcx, Hcy. cbn [fmap option_fmap option_map] in Hcx, Hcy.
  unfold pixel_trace.
  set (cfc := column_frame_count (width projectionSize)) in *.
  set (s1 := foldl _ (mkPixel 0 0 false 0) (column_planes frames cfc)) in *.
  eexists o, _, _. split; [exact Hrun|]. split; [exact Hcx|].
  split; [exact Hcy|]. cbn zeta.
  pose proof (fold_gray_decode 0 thr mask p (mkPixel 0 0 false 0) eq_refl
                (column_planes frames cfc) ltac:(lia)) as Hx.
  pose proof (fold_other_coordinate 0 thr mask p (column_planes frames cfc)
                (mkPixel 0 0 false 0)) as Hy0.
  cbn zeta in Hx, Hy0. fold s1 in Hx, Hy0.
  change (if 0 =? 0 then px_x s1 else px_y s1) with (px_x s1) in Hx.
  change (px_y s1 = 0) in Hy0. cbn [px_temp] in Hx.
  pose proof (fold_gray_decode 1 thr mask p (clear_temp s1) Hy0
                (row_planes frames cfc) ltac:(lia)) as Hy.
  pose proof (fold_other_coordinate 1 thr mask p (row_planes frames cfc)
                (clear_temp s1)) as Hx1.
  cbn zeta in Hy, Hx1.
  change (if 1 =? 0 then ?a else ?b) with b in Hy, Hx1.
  change (px_x (clear_temp s1)) with (px_x s1) in Hx1.
  change (px_temp (clear_temp s1)) with false in Hy.
  rewrite Hx1. rewrite Hc in Hx. rewrite Hr in Hy.
  destruct Hx as (_ & Hxr & Hxb). destruct Hy as (_ & Hyr & Hyb).
  split; [exact Hxr|]. split; [exact Hyr|]. split.
  - intros k Hk. rewrite (Hxb k Hk).
    rewrite !map_app, take_app_le by (rewrite !length_map; lia).
    by rewrite !firstn_map, map_map.
  - intros k Hk. rewrite (Hyb k Hk).
    rewrite !map_app, drop_app_length' by (by rewrite !length_map).
    by rewrite !firstn_map, map_map.
Qed.

Lemma decoder_inverts_gray_code_witness :
  exists (o : Outcome) (cx cy : Z),
    getCameraProjectionPairs_run 200 [] [] scenario_frames scenario_size
      scenario_mask 50 10 = Some o /\
    coordinates (decoded o) !! (2 * 37)%nat = Some cx /\
    coordinates (decoded o) !! (2 * 37 + 1)%nat = Some cy /\
    0 <= cx < 8 /\ 0 <= cy < 8.
Proof.
  destruct (decoder_inverts_gray_code 200 [] [] scenario_frames scenario_size
              scenario_mask 50 10 37%nat)
    as (o & cx & cy & Hrun & Hcx & Hcy & Hxr & Hyr & _).
  - vm_compute. reflexivity.
  - vm_compute. lia.
  - vm_compute. discriminate.
  - vm_compute. discriminate.
  - vm_compute. lia.
  - exists o, cx, cy. split; [exact Hrun|]. split; [exact Hcx|].
    split; [exact Hcy|]. split; [exact Hxr | exact Hyr].
Defined.

(** ** process on a well-formed capture *)

Lemma mapM_gray `{ImgProc} (l : list (Mat BGR)) :
  Forall (fun f => is_empty f = false) l ->
  mapM cvtColor_BGR2GRAY l = Some (map gray_frame l).
Proof.
  induction 1 as [|f l Hf _ IH]; [done|].
  assert (Hc : cvtColor_BGR2GRAY f = Some (gray_frame f))
    by (unfold cvtColor_BGR2GRAY; by rewrite Hf).
  cbn [mapM map]. rewrite Hc, IH. done.
Qed.

Lemma getMask_well_sized `{ImgProc} (whiteFrame blackFrame : Mat BGR)
    (useOtsu : bool) (threshold : Z) (r c : nat) :
  (forall m : Mat Z,
     rows (GaussianBlur_5x5 m) = rows m /\ cols (GaussianBlur_5x5 m) = cols m /\
     length (data (GaussianBlur_5x5 m)) = length (data m)) ->
  (0 < r * c)%nat ->
  rows whiteFrame = r -> cols whiteFrame = c ->
  length (data whiteFrame) = (r * c)%nat ->
  rows blackFrame = r -> cols blackFrame = c ->
  length (data blackFrame) = (r * c)%nat ->
  exists mask : Mat Z,
    getMask whiteFrame blackFrame useOtsu threshold = Some mask /\
    well_sized r c mask = true.
Proof.
  intros Hblur Hrc Hwr Hwc Hwd Hbr Hbc Hbd.
  unfold getMask, cvtColor_BGR2GRAY, subtract_8U, is_empty.
  rewrite Hwr, Hwc, Hbr, Hbc.
  replace ((r =? 0)%nat || (c =? 0)%nat) with false
    by (symmetry; apply orb_false_iff; rewrite !Nat.eqb_neq; lia).
  cbn [mbind option_bind]. rewrite same_size_true by done.
  cbn [mbind option_bind rows cols data].
  set (difference := mkMat r c _).
  assert (Hd : length (data difference) = (r * c)%nat).
  { subst difference. cbn [data]. rewrite length_zip_with, !length_map. lia. }
  destruct useOtsu.
  - destruct (Hblur difference) as (Hr & Hc & Hl).
    eexists. split; [done|]. apply well_sized_spec.
    cbn [threshold_binary rows cols data]. rewrite length_map, Hr, Hc, Hl.
    done.
  - eexists. split; [done|]. apply well_sized_spec.
    cbn [threshold_binary rows cols data]. by rewrite length_map.
Qed.

Lemma valid_capture_spec `{ImgProc} (frames : list (Mat BGR))
    (projectionSize : Size) :
  valid_capture frames projectionSize = true ->
  exists (white black : Mat BGR) (rest : list (Mat BGR)),
    frames = white :: black :: rest /\
    (0 < rows white * cols white)%nat /\
    Forall (fun f : Mat BGR =>
              rows f = rows white /\ cols f = cols white /\
              length (data f) = (rows white * cols white)%nat) frames /\
    forall mask : Mat Z,
      well_sized (rows white) (cols white) mask = true ->
      valid_input (map gray_frame rest) projectionSize mask = true.
Proof.
  unfold valid_capture. destruct frames as [|white [|black rest]]; [done|done|].
  rewrite !andb_true_iff, forallb_forall, !Z.ltb_lt, !Z.leb_le, negb_true_iff,
    Nat.eqb_neq.
  intros ((((((((((Hall & Hne) & Hr) & Hc) & Hpos) & Hrc) & Hw1) & Hw2) & Hcfc)
           & Hev) & Hlen).
  assert (Hall' : Forall (fun f : Mat BGR =>
              rows f = rows white /\ cols f = cols white /\
              length (data f) = (rows white * cols white)%nat)
            (white :: black :: rest)).
  { apply Forall_forall. intros f Hf. specialize (Hall f Hf).
    rewrite !andb_true_iff, !Nat.eqb_eq in Hall. tauto. }
  exists white, black, rest. split; [done|]. split; [lia|].
  split; [exact Hall'|]. intros mask Hmask.
  destruct rest as [|f0 rest]; [done|].
  apply Forall_cons_1 in Hall' as [_ Hall'].
  apply Forall_cons_1 in Hall' as [_ Hall'].
  pose proof Hall' as Hall0. apply Forall_cons_1 in Hall0 as [(H0r & H0c & H0d) _].
  unfold valid_input. cbn [map].
  change (rows (gray_frame f0)) with (rows f0).
  change (cols (gray_frame f0)) with (cols f0). rewrite H0r, H0c.
  rewrite !andb_true_iff, forallb_forall, !Z.ltb_lt, !Z.leb_le.
  change (gray_frame f0 :: map gray_frame rest) with (map gray_frame (f0 :: rest)).
  rewrite length_map.
  repeat split; try done.
  intros g Hg. apply in_map_iff in Hg as (f & <- & Hf).
  apply well_sized_spec. unfold gray_frame. cbn [rows cols data].
  rewrite length_map.
  eapply (proj1 (Forall_forall _ _)) in Hall'; [exact Hall' | exact Hf].
Qed.

(** X17. On a well-formed capture [process] has defined behaviour from
    end to end: the conversion loop, [getMask] on the first two frames and
    [getCameraProjectionPairs] on the rest all return, and [findMaps] is
    called with two vectors of the same length that hold distinct points
    of the camera image and points inside the projector image.  (The blur
    of the adaptive mode is assumed to keep the size of its image.) *)
Theorem process_returns `{ImgProc} {Homography Maps : Type} (dflt : Defaults)
    (findMaps : list Point -> list Point -> Size -> Homography -> Z -> Z -> Maps)
    (fuel : nat) (frames : list (Mat BGR)) (projectionSize : Size)
    (h0 : Homography) (count limit : Z) :
  (forall m : Mat Z,
     rows (GaussianBlur_5x5 m) = rows m /\ cols (GaussianBlur_5x5 m) = cols m /\
     length (data (GaussianBlur_5x5 m)) = length (data m)) ->
  valid_capture frames projectionSize = true ->
  (forall white : Mat BGR, frames !! 0%nat = Some white ->
     (length frames + rows white + cols white + rows white * cols white + 5
      < fuel)%nat) ->
  exists cam proj : list Point,
    process dflt findMaps fuel frames projectionSize h0 count limit
      = Some (findMaps cam proj projectionSize h0 count limit) /\
    length cam = length proj /\
    NoDup cam /\
    (forall (white : Mat BGR) (c : Point),
       frames !! 0%nat = Some white -> c ∈ cam ->
       0 <= c.1 < Z.of_nat (cols white) /\ 0 <= c.2 < Z.of_nat (rows white)) /\
    Forall (fun q : Point =>
              0 <= q.1 < width projectionSize /\
              0 <= q.2 < height projectionSize) proj.
Proof.
  intros Hblur Hvalid Hfuel.
  destruct (valid_capture_spec frames projectionSize Hvalid)
    as (white & black & rest & -> & Hpos & Hall & Hin).
  specialize (Hfuel white eq_refl). cbn [length] in Hfuel.
  pose proof Hall as Hall0.
  apply Forall_cons_1 in Hall0 as [(_ & _ & Hwd) Hall0].
  apply Forall_cons_1 in Hall0 as [(Hbr & Hbc & Hbd) Hrest].
  destruct (getMask_well_sized white black (default_useOtsu dflt)
              (default_mask_threshold dflt) (rows white) (cols white)
              Hblur Hpos eq_refl eq_refl Hwd Hbr Hbc Hbd) as (mask & Hmask & Hsz).
  specialize (Hin mask Hsz).
  assert (Hconv : convert_frames fuel (white :: black :: rest)
                  = Some (map gray_frame rest)).
  { rewrite convert_frames_model by (cbn [length]; lia).
    change (drop 2 (white :: black :: rest)) with rest.
    apply mapM_gray. eapply Forall_impl; [|exact Hrest].
    intros f (Hr & Hc & _). unfold is_empty. rewrite Hr, Hc.
    apply orb_false_iff. rewrite !Nat.eqb_neq. lia. }
  assert (Hfuel' : enough_fuel fuel (map gray_frame rest)).
  { destruct rest as [|f0 rest]; [done|].
    apply Forall_cons_1 in Hrest as [(Hr & Hc & _) _].
    cbn [map enough_fuel length]. rewrite length_map.
    change (rows (gray_frame f0)) with (rows f0).
    change (cols (gray_frame f0)) with (cols f0). rewrite Hr, Hc.
    cbn [length] in Hfuel. lia. }
  unfold process. rewrite Hconv. cbn [mbind option_bind].
  destruct rest as [|f0 rest]; [done|].
  change (arr_get (map gray_frame (f0 :: rest)) 0) with (Some (gray_frame f0)).
  change (arr_get (white :: black :: f0 :: rest) 0) with (Some white).
  change (arr_get (white :: black :: f0 :: rest) 1) with (Some black).
  cbn [mbind option_bind]. rewrite Hmask. cbn [mbind option_bind].
  unfold getCameraProjectionPairs.
  rewrite (run_model fuel [] [] _ projectionSize mask _ _ Hin Hfuel').
  cbn [mbind option_bind outcome_model out_camera out_projection app fst snd].
  eexists _, _. split; [done|]. split; [by rewrite !length_fmap|].
  match goal with
  | |- context [scan_model ?ps _ ?t ?w ?h] =>
      destruct (scan_model_well_formed ps projectionSize t w h)
        as (_ & Hnd & Hcam & Hproj)
  end.
  split; [exact Hnd|]. split; [|exact Hproj].
  intros white' c [= <-] Hc.
  apply Forall_cons_1 in Hrest as [(Hr & Hc0 & _) _].
  eapply (proj1 (list.Forall_forall _ _)) in Hcam; [|exact Hc].
  cbn [map camera_cols camera_rows] in Hcam.
  change (rows (gray_frame f0)) with (rows f0) in Hcam.
  change (cols (gray_frame f0)) with (cols f0) in Hcam.
  rewrite Hr, Hc0 in Hcam. exact Hcam.
Qed.

Lemma process_returns_witness :
  exists cam proj : list Point,
    process (H := example_ImgProc) (mkDefaults false 20 1 10)
      (fun cam proj _ (_ : unit) _ _ => (cam, proj)) 100
      [one_pixel 255 255 255; one_pixel 0 0 0;
       one_pixel 255 255 255; one_pixel 0 0 0]
      (mkSize 1 2) tt 0 0 = Some (cam, proj) /\
    length cam = length proj.
Proof.
  destruct (process_returns (H := example_ImgProc) (mkDefaults false 20 1 10)
              (fun cam proj _ (_ : unit) _ _ => (cam, proj)) 100
              [one_pixel 255 255 255; one_pixel 0 0 0;
               one_pixel 255 255 255; one_pixel 0 0 0]
              (mkSize 1 2) tt 0 0) as (cam & proj & Hrun & Hlen & _).
  - intros m. cbn. done.
  - vm_compute. reflexivity.
  - intros white [= <-]. cbn. lia.
  - exists cam, proj. split; [exact Hrun | exact Hlen].
Defined.

(** ** The 16-bit counters of the final scan *)

(** The call in its three phases: the two loops, the selector, the scan. *)
Lemma run_phases (fuel : nat) (cam0 proj0 : list Point)
    (frames : list (Mat Z)) (projectionSize : Size) (mask : Mat Z)
    (minPointCount thr : Z) :
  getCameraProjectionPairs_run fuel cam0 proj0 frames projectionSize mask
    minPointCount thr =
  (b ← decode_buffers fuel frames projectionSize mask thr;
   let camera_height := to_u32 (Z.of_nat (camera_rows frames)) in
   let camera_width := to_u32 (Z.of_nat (camera_cols frames)) in
   sel ← select_tolerance fuel (error b)
            (to_u32 (camera_width * camera_height)) minPointCount;
   sc ← scan_pixels fuel b projectionSize sel.1 camera_width camera_height
           (mkScan 0 0 cam0 proj0);
   Some (mkOutcome b sel.1 sel.2 (cameraPoints sc) (projectionPoints sc))).
Proof.
  unfold getCameraProjectionPairs_run, decode_buffers.
  destruct frames as [|f0 rest]; [done|].
  change (arr_get (f0 :: rest) 0) with (Some f0).
  cbn [mbind option_bind camera_rows camera_cols].
  destruct (decode_columns _ _ _ _ _ _ _) as [s1|]; [|done].
  cbn [mbind option_bind].
  by destruct (decode_rows _ _ _ _ _ _ _) as [s2|].
Qed.

(** A loop whose condition holds at every index it can reach never
    returns. *)
Lemma for_loop_never_exits {St : Type} (P : Z -> Prop) (cond : Z -> bool)
    (step : Z -> Z) (body : Z -> St -> option St) :
  (forall i : Z, P i -> cond i = true /\ P (step i)) ->
  forall (fuel : nat) (i : Z) (s : St),
    P i -> for_loop fuel cond step body i s = None.
Proof.
  intros Hinv. induction fuel as [|fuel IH]; intros i s Hi; [done|].
  cbn [for_loop]. destruct (Hinv i Hi) as [-> Hstep].
  destruct (body i s) as [s'|]; [|done]. by apply IH.
Qed.

Lemma to_u16_counter (bound : Z) :
  2 ^ 16 <= bound ->
  forall i : Z, 0 <= i < 2 ^ 16 ->
    (i <? bound) = true /\ 0 <= to_u16 (i + 1) < 2 ^ 16.
Proof.
  intros Hb i Hi. split; [apply Z.ltb_lt; lia|].
  unfold to_u16. apply Z.mod_pos_bound. lia.
Qed.

(** With 65536 rows or more the counter [y], and with 65536 columns or
    more (and a row to scan) the counter [x], wraps to 0 before it reaches
    the camera size: the scan does not end, whatever the buffers hold. *)
Lemma scan_pixels_counter_wraps (fuel : nat) (b : Buffers)
    (projectionSize : Size) (allowed_error camera_width camera_height : Z)
    (s : Scan) :
  2 ^ 16 <= camera_height \/ (0 < camera_height /\ 2 ^ 16 <= camera_width) ->
  scan_pixels fuel b projectionSize allowed_error camera_width camera_height s
    = None.
Proof.
  intros [Hh | [Hh Hw]]; unfold scan_pixels.
  - apply (for_loop_never_exits (fun y => 0 <= y < 2 ^ 16));
      [by apply to_u16_counter | lia].
  - destruct (for_loop _ _ _ _ _ _) as [r|] eqn:Hrun; [|done]. exfalso.
    apply (for_loop_fails _ _ _ 1 0%nat) in Hrun as (k & Hk & Hcond).
    + apply Z.ltb_ge in Hcond. lia.
    + intros k Hk. lia.
    + intros s'. apply (for_loop_never_exits (fun x => 0 <= x < 2 ^ 16));
        [by apply to_u16_counter | lia].
Qed.

Lemma product_bounds (r c : nat) :
  0 < Z.of_nat (r * c) < 2 ^ 30 ->
  0 < Z.of_nat r < 2 ^ 30 /\ 0 < Z.of_nat c < 2 ^ 30.
Proof.
  intros H. destruct r as [|r]; [cbn in H; lia|].
  destruct c as [|c]; [rewrite Nat.mul_0_r in H; cbn in H; lia|].
  assert (S r <= S r * S c)%nat by nia.
  assert (S c <= S r * S c)%nat by nia.
  lia.
Qed.

Lemma valid_input_any_camera_spec (frames : list (Mat Z))
    (projectionSize : Size) (mask : Mat Z) :
  valid_input_any_camera frames projectionSize mask = true ->
  exists (f0 : Mat Z) (rest : list (Mat Z)),
    frames = f0 :: rest /\
    Forall (fun f => well_sized (rows f0) (cols f0) f = true) frames /\
    well_sized (rows f0) (cols f0) mask = true /\
    0 < Z.of_nat (rows f0 * cols f0) < 2 ^ 30 /\
    1 <= width projectionSize < 2 ^ 31 /\
    column_frame_count (width projectionSize) <= Z.of_nat (length frames) /\
    Z.even (Z.of_nat (length frames)
            - column_frame_count (width projectionSize)) = true /\
    Z.of_nat (length frames) < 2 ^ 16 - 2.
Proof.
  unfold valid_input_any_camera. destruct frames as [|f0 rest]; [done|].
  rewrite !andb_true_iff, forallb_forall, !Z.ltb_lt, !Z.leb_le.
  intros ((((((((Hall & Hm) & Hne) & Hrc) & Hw1) & Hw2) & Hcfc) & Hev) & Hlen).
  exists f0, rest. split; [done|].
  split; [by apply Forall_forall|].
  split; [done|]. repeat split; try done. lia.
Qed.

(** The two loops on a camera of any size: they return the buffers of the
    pixel states. *)
Lemma decode_buffers_model (fuel : nat) (frames : list (Mat Z))
    (projectionSize : Size) (mask : Mat Z) (thr : Z) :
  valid_input_any_camera frames projectionSize mask = true ->
  enough_fuel fuel frames ->
  decode_buffers fuel frames projectionSize mask thr
    = Some (buffers_of (decode_model frames projectionSize mask thr)) /\
  length (decode_model frames projectionSize mask thr)
    = (camera_rows frames * camera_cols frames)%nat.
Proof.
  intros Hvalid Hfuel.
  destruct (valid_input_any_camera_spec _ _ _ Hvalid)
    as (f0 & rest & -> & Hall & Hm & Hrc & HW & Hcfc & Hev & Hlen).
  unfold enough_fuel in Hfuel.
  destruct (column_frame_count_eq _ HW) as [Hn Hcfceq].
  apply Z.even_spec in Hev as [m Hm2].
  unfold decode_buffers, decode_model. cbn [camera_rows camera_cols].
  change (arr_get (f0 :: rest) 0) with (Some f0). cbn [mbind option_bind].
  destruct (product_bounds _ _ Hrc) as [Hr Hc].
  rewrite (to_u32_small (Z.of_nat (rows f0))) by lia.
  rewrite (to_u32_small (Z.of_nat (cols f0))) by lia.
  replace (Z.of_nat (cols f0) * Z.of_nat (rows f0))
    with (Z.of_nat (rows f0 * cols f0)) by lia.
  rewrite (to_u32_small (Z.of_nat (rows f0 * cols f0))) by lia.
  rewrite buffers_of_replicate, Nat2Z.id. rewrite Hcfceq in *.
  destruct (decode_columns_model fuel thr (Z.log2_up (width projectionSize))
              (f0 :: rest) mask empty_Mat (rows f0) (cols f0)
              (replicate (rows f0 * cols f0) (mkPixel 0 0 false 0)))
    as (diff1 & Hrun1 & Hinv1 & Hlen1);
    [done | done | lia | lia | lia | cbn [length] in *; lia
    | by rewrite length_replicate | by apply empty_diff_inv |].
  rewrite Hrun1. cbn [mbind option_bind fst snd].
  rewrite (buffers_of_clear_temp _ _ Hlen1).
  destruct (decode_rows_model fuel thr (2 * Z.log2_up (width projectionSize)) m
              (f0 :: rest) mask diff1 (rows f0) (cols f0)
              (map clear_temp
                 (decode_planes 0 thr mask
                    (column_planes (f0 :: rest) (2 * Z.log2_up (width projectionSize)))
                    (replicate (rows f0 * cols f0) (mkPixel 0 0 false 0)))))
    as (diff2 & Hrun2 & Hinv2 & Hlen2);
    [done | done | lia | lia | cbn [length] in *; lia | lia | lia
    | cbn [length] in *; lia | by rewrite length_map | done |].
  rewrite Hrun2. cbn [mbind option_bind fst snd]. split; [done | exact Hlen2].
Qed.

(** X18. The final scan counts rows and columns in 16 bits while the
    camera size is a 32-bit number.  On a camera image of 65536 rows or
    more, or of 65536 columns or more, the two loops over the bit-plane
    pairs and the tolerance selector still do their work and return; then,
    in the scan, a counter wraps to 0 before it reaches the size, the
    scan goes on past the end of the buffers and never ends, and the call
    gives no result. *)
Theorem camera_size_beyond_16_bits (fuel : nat) (cam0 proj0 : list Point)
    (frames : list (Mat Z)) (projectionSize : Size) (mask : Mat Z)
    (minPointCount thr : Z) :
  valid_input_any_camera frames projectionSize mask = true ->
  enough_fuel fuel frames ->
  2 ^ 16 <= Z.of_nat (camera_rows frames) \/
  2 ^ 16 <= Z.of_nat (camera_cols frames) ->
  exists (b : Buffers) (sel : Z * option Z),
    decode_buffers fuel frames projectionSize mask thr = Some b /\
    select_tolerance fuel (error b)
      (Z.of_nat (camera_rows frames * camera_cols frames)) minPointCount
      = Some sel /\
    (forall (fuel' : nat) (s : Scan),
       scan_pixels fuel' b projectionSize sel.1
         (Z.of_nat (camera_cols frames)) (Z.of_nat (camera_rows frames)) s
       = None) /\
    getCameraProjectionPairs_run fuel cam0 proj0 frames projectionSize mask
      minPointCount thr = None.
Proof.
  intros Hvalid Hfuel Hbig.
  destruct (decode_buffers_model fuel frames projectionSize mask thr Hvalid Hfuel)
    as [Hdec Hlenps].
  destruct (valid_input_any_camera_spec _ _ _ Hvalid)
    as (f0 & rest & Hfr & _ & _ & Hrc & _).
  set (ps := decode_model frames projectionSize mask thr) in *.
  assert (Herr : Forall (fun e => 0 <= e) (map px_error ps)).
  { apply Forall_fmap.
    apply Forall_impl with (P := pixel_ok); [|apply decode_model_ok].
    intros s (_ & _ & He). cbn. lia. }
  pose proof (select_tolerance_model fuel (map px_error ps) minPointCount Herr)
    as Hsel.
  rewrite length_map, Hlenps in Hsel.
  assert (Hsize : Z.of_nat (camera_rows frames * camera_cols frames)
                  = Z.of_nat (rows f0 * cols f0)) by (by rewrite Hfr).
  assert (Hfuel' : (length (f0 :: rest) + rows f0 + cols f0
                    + rows f0 * cols f0 + 5 < fuel)%nat)
    by (by rewrite Hfr in Hfuel).
  specialize (Hsel ltac:(lia) ltac:(rewrite Hfr; cbn [camera_rows camera_cols]; lia)).
  assert (Hwrap : forall (fuel' : nat) (s : Scan),
    scan_pixels fuel' (buffers_of ps) projectionSize
      (tolerance_model (map px_error ps) minPointCount)
      (Z.of_nat (camera_cols frames)) (Z.of_nat (camera_rows frames)) s = None).
  { intros fuel' s. apply scan_pixels_counter_wraps.
    rewrite Hfr in Hbig |- *. cbn [camera_rows camera_cols] in Hbig |- *.
    destruct (product_bounds _ _ Hrc) as [Hr Hc].
    destruct Hbig as [Hrows | Hcols]; [by left|]. right. split; [lia | done]. }
  exists (buffers_of ps), (tolerance_model (map px_error ps) minPointCount,
                           reserved_model (map px_error ps) minPointCount).
  split; [exact Hdec|]. split; [exact Hsel|]. split; [exact Hwrap|].
  rewrite run_phases, Hdec. cbn [mbind option_bind]. cbn zeta.
  assert (Hr : 0 < Z.of_nat (camera_rows frames) < 2 ^ 30)
    by (rewrite Hfr; cbn [camera_rows]; apply (product_bounds _ _ Hrc)).
  assert (Hc : 0 < Z.of_nat (camera_cols frames) < 2 ^ 30)
    by (rewrite Hfr; cbn [camera_cols]; apply (product_bounds _ _ Hrc)).
  rewrite (to_u32_small (Z.of_nat (camera_rows frames))) by lia.
  rewrite (to_u32_small (Z.of_nat (camera_cols frames))) by lia.
  replace (Z.of_nat (camera_cols frames) * Z.of_nat (camera_rows frames))
    with (Z.of_nat (camera_rows frames * camera_cols frames)) by lia.
  rewrite to_u32_small by lia.
  change (error (buffers_of ps)) with (map px_error ps) in *.
  rewrite Hsel. cbn [mbind option_bind fst]. by rewrite Hwrap.
Qed.

Lemma camera_size_beyond_16_bits_witness :
  exists (b : Buffers) (sel : Z * option Z),
    decode_buffers (Z.to_nat 200000) wide_frames (mkSize 1 2) (wide_frame 255)
      10 = Some b /\
    select_tolerance (Z.to_nat 200000) (error b)
      (Z.of_nat (camera_rows wide_frames * camera_cols wide_frames)) 1
      = Some sel /\
    (forall (fuel' : nat) (s : Scan),
       scan_pixels fuel' b (mkSize 1 2) sel.1
         (Z.of_nat (camera_cols wide_frames))
         (Z.of_nat (camera_rows wide_frames)) s = None) /\
    getCameraProjectionPairs_run (Z.to_nat 200000) [] [] wide_frames
      (mkSize 1 2) (wide_frame 255) 1 10 = None.
Proof.
  apply camera_size_beyond_16_bits.
  - vm_compute. reflexivity.
  - unfold enough_fuel, wide_frames, wide_frame. cbn [length rows cols]. lia.
  - right. unfold wide_frames, wide_frame. cbn [camera_cols cols]. lia.
Defined.

(** ** When minPointCount is met *)

Lemma scan_row_count_exact (ps : list PixelState) (projectionSize : Size)
    (t : Z) (w y : nat) :
  Forall (fun s => qualifies projectionSize t s = (px_error s <=? t)) ps ->
  forall k : nat,
    Z.of_nat (length (seq 0 k ≫= scan_point ps projectionSize t w y))
    = cumulative (map px_error (take k (drop (y * w) ps))) t.
Proof.
  intros Hall. induction k as [|k IH]; [done|].
  rewrite seq_S, bind_app, length_app. cbn [Nat.add mbind list_bind app].
  rewrite app_nil_r. unfold scan_point at 2.
  destruct (ps !! (y * w + k)%nat) as [s|] eqn:Hs.
  - rewrite (take_S_r _ _ s) by (by rewrite lookup_drop).
    unfold cumulative in *. rewrite map_app, count_if_app.
    cbn [map count_if].
    rewrite (proj1 (Forall_lookup _ _) Hall _ _ Hs).
    destruct (px_error s <=? t); cbn [length]; lia.
  - cbn [length]. apply lookup_ge_None in Hs.
    rewrite !take_ge in * by (rewrite length_drop; lia). lia.
Qed.

Lemma scan_model_count_exact (ps : list PixelState) (projectionSize : Size)
    (t : Z) (w : nat) :
  Forall (fun s => qualifies projectionSize t s = (px_error s <=? t)) ps ->
  forall h : nat,
    Z.of_nat (length (scan_model ps projectionSize t w h))
    = cumulative (map px_error (take (h * w) ps)) t.
Proof.
  intros Hall. unfold scan_model. induction h as [|h IH]; [done|].
  rewrite seq_S, bind_app, length_app. cbn [Nat.add mbind list_bind app].
  rewrite app_nil_r.
  replace (S h * w)%nat with (h * w + w)%nat by lia.
  rewrite <- take_take_drop. unfold cumulative in *.
  rewrite map_app, count_if_app.
  rewrite Nat2Z.inj_add. f_equal; [exact IH|].
  apply (scan_row_count_exact ps projectionSize t w h Hall w).
Qed.

(** X19. The selector counts pixels by error level alone, the final scan
    also tests the bounds.  When the projector is as wide as the column
    pairs can address (a power of two) and at least as high as the row
    pairs can address, no decoded coordinate is out of bounds: the scan
    appends exactly the pixels whose level is within the tolerance, the
    reserved capacity is exact, and with a tolerance below 4 at least
    [minPointCount] pairs are returned. *)
Theorem minPointCount_is_met (fuel : nat) (frames : list (Mat Z))
    (projectionSize : Size) (mask : Mat Z) (minPointCount thr : Z) :
  valid_input frames projectionSize mask = true ->
  enough_fuel fuel frames ->
  width projectionSize = 2 ^ Z.log2_up (width projectionSize) ->
  2 ^ ((Z.of_nat (length frames)
        - column_frame_count (width projectionSize)) / 2)
    <= height projectionSize ->
  exists o : Outcome,
    getCameraProjectionPairs_run fuel [] [] frames projectionSize mask
      minPointCount thr = Some o /\
    Z.of_nat (length (out_camera o))
      = cumulative (error (decoded o)) (tolerance o) /\
    (tolerance o < 4 ->
       minPointCount <= Z.of_nat (length (out_camera o)) /\
       reserved o = Some (Z.of_nat (length (out_camera o)))).
Proof.
  intros Hvalid Hfuel HW HH.
  exists (outcome_model [] [] frames projectionSize mask minPointCount thr).
  split; [by apply run_model|].
  cbn [outcome_model tolerance reserved out_camera decoded app].
  change (error (buffers_of ?ps)) with (map px_error ps).
  set (ps := decode_model frames projectionSize mask thr).
  set (err := map px_error ps).
  set (t := tolerance_model err minPointCount).
  assert (Hall : Forall (fun s => qualifies projectionSize t s
                                  = (px_error s <=? t)) ps).
  { apply Forall_lookup. intros p s Hs.
    destruct (decode_model_width _ _ _ _ _ _ Hvalid Hs) as [Hx Hy].
    unfold qualifies.
    destruct (Z.leb_spec 0 (px_x s)), (Z.ltb_spec (px_x s) (width projectionSize)),
      (Z.leb_spec 0 (px_y s)), (Z.ltb_spec (px_y s) (height projectionSize));
      cbn [andb]; first [done | lia]. }
  assert (Hlen : length ps = (camera_rows frames * camera_cols frames)%nat)
    by (by apply decode_model_length).
  assert (Hcount : Z.of_nat (length (scan_model ps projectionSize t
                     (camera_cols frames) (camera_rows frames)))
                   = cumulative err t).
  { rewrite (scan_model_count_exact ps projectionSize t (camera_cols frames) Hall).
    by rewrite take_ge by lia. }
  rewrite length_fmap. split; [exact Hcount|]. intros Hlt.
  pose proof (tolerance_model_spec err minPointCount) as Hspec.
  cbn zeta in Hspec. fold t in Hspec.
  destruct Hspec as [(_ & Hmin & _) | [H4 _]]; [|lia].
  split; [lia|]. unfold reserved_model. fold t.
  destruct (Z.ltb_spec t 4); [|lia]. by rewrite Hcount.
Qed.

Lemma minPointCount_is_met_witness :
  exists o : Outcome,
    getCameraProjectionPairs_run 200 [] [] (scenario_with_blank_pair 4)
      scenario_size scenario_mask 50 10 = Some o /\
    Z.of_nat (length (out_camera o))
      = cumulative (error (decoded o)) (tolerance o).
Proof.
  destruct (minPointCount_is_met 200 (scenario_with_blank_pair 4)
              scenario_size scenario_mask 50 10) as (o & Hrun & Hcount & _).
  - vm_compute. reflexivity.
  - vm_compute. lia.
  - vm_compute. reflexivity.
  - vm_compute. discriminate.
  - exists o. split; [exact Hrun | exact Hcount].
Defined.

(** ** The two tuning parameters *)

Lemma in_noise_band_mono (thr1 thr2 pixel : Z) :
  thr1 <= thr2 ->
  in_noise_band thr1 pixel = true -> in_noise_band thr2 pixel = true.
Proof.
  unfold in_noise_band. intros Hle. rewrite !andb_true_iff, !Z.ltb_lt. lia.
Qed.

(** Two runs of a pixel that differ in the threshold: the same bits, and
    no smaller an error level under the larger threshold. *)
Lemma pixel_fold_threshold (axis thr1 thr2 : Z) (mask : Mat Z) (p : nat)
    (planes : list Plane) :
  thr1 <= thr2 ->
  forall s1 s2 : PixelState,
    px_x s1 = px_x s2 -> px_y s1 = px_y s2 -> px_temp s1 = px_temp s2 ->
    px_error s1 <= px_error s2 ->
    let run := fun thr s =>
      foldl (fun s (pl : Plane) =>
               pixel_step axis pl.1 thr
                 (default 0 (plane_diff mask pl.2.1 pl.2.2 !! p)) s) s planes in
    px_x (run thr1 s1) = px_x (run thr2 s2) /\
    px_y (run thr1 s1) = px_y (run thr2 s2) /\
    px_temp (run thr1 s1) = px_temp (run thr2 s2) /\
    px_error (run thr1 s1) <= px_error (run thr2 s2).
Proof.
  intros Hle. induction planes as [|pl planes IH]; intros s1 s2 Hx Hy Ht He;
    cbn zeta; [done|].
  cbn [foldl]. cbn zeta in IH. apply IH.
  - unfold pixel_step. cbn [px_x]. by rewrite Hx, Ht.
  - unfold pixel_step. cbn [px_y]. by rewrite Hy, Ht.
  - unfold pixel_step. cbn [px_temp]. by rewrite Ht.
  - unfold pixel_step. cbn [px_error]. rewrite !error_step_max.
    destruct (in_noise_band thr1 _) eqn:Hb1.
    + rewrite (in_noise_band_mono thr1 thr2 _ Hle Hb1). lia.
    + destruct (in_noise_band thr2 _); lia.
Qed.

Lemma coords_of_ext (ps1 ps2 : list PixelState) :
  Forall2 (fun s1 s2 => px_x s1 = px_x s2 /\ px_y s1 = px_y s2) ps1 ps2 ->
  coords_of ps1 = coords_of ps2.
Proof.
  induction 1 as [|s1 s2 ps1 ps2 [Hx Hy] _ IH]; [done|].
  cbn [coords_of]. by rewrite Hx, Hy, IH.
Qed.

Lemma cumulative_anti (err1 err2 : list Z) (l : Z) :
  Forall2 Z.le err1 err2 -> cumulative err2 l <= cumulative err1 l.
Proof.
  unfold cumulative. induction 1 as [|e1 e2 err1 err2 He _ IH]; [done|].
  cbn [count_if].
  destruct (Z.leb_spec e1 l), (Z.leb_spec e2 l); lia.
Qed.

Lemma tolerance_model_anti (err1 err2 : list Z) (minPointCount : Z) :
  (forall l : Z, cumulative err2 l <= cumulative err1 l) ->
  tolerance_model err1 minPointCount <= tolerance_model err2 minPointCount.
Proof.
  intros Hcum. unfold tolerance_model.
  pose proof (Hcum 0). pose proof (Hcum 1). pose proof (Hcum 2).
  pose proof (Hcum 3).
  destruct (Z.leb_spec minPointCount (cumulative err1 0)),
    (Z.leb_spec minPointCount (cumulative err1 1)),
    (Z.leb_spec minPointCount (cumulative err1 2)),
    (Z.leb_spec minPointCount (cumulative err1 3)),
    (Z.leb_spec minPointCount (cumulative err2 0)),
    (Z.leb_spec minPointCount (cumulative err2 1)),
    (Z.leb_spec minPointCount (cumulative err2 2)),
    (Z.leb_spec minPointCount (cumulative err2 3)); lia.
Qed.

(** X20. The noise threshold acts on the error levels only.  Two calls on
    the same valid capture with thresholds [thr1 <= thr2] decode the same
    coordinates; under the larger threshold no pixel has a smaller error
    level, and the tolerance is not smaller. *)
Theorem threshold_only_raises_error_levels (fuel : nat)
    (cam0 proj0 : list Point) (frames : list (Mat Z)) (projectionSize : Size)
    (mask : Mat Z) (minPointCount thr1 thr2 : Z) :
  valid_input frames projectionSize mask = true ->
  enough_fuel fuel frames ->
  thr1 <= thr2 ->
  exists o1 o2 : Outcome,
    getCameraProjectionPairs_run fuel cam0 proj0 frames projectionSize mask
      minPointCount thr1 = Some o1 /\
    getCameraProjectionPairs_run fuel cam0 proj0 frames projectionSize mask
      minPointCount thr2 = Some o2 /\
    coordinates (decoded o1) = coordinates (decoded o2) /\
    Forall2 Z.le (error (decoded o1)) (error (decoded o2)) /\
    tolerance o1 <= tolerance o2.
Proof.
  intros Hvalid Hfuel Hle.
  exists (outcome_model cam0 proj0 frames projectionSize mask minPointCount thr1),
    (outcome_model cam0 proj0 frames projectionSize mask minPointCount thr2).
  split; [by apply run_model|]. split; [by apply run_model|].
  cbn [outcome_model decoded tolerance].
  change (error (buffers_of ?ps)) with (map px_error ps).
  change (coordinates (buffers_of ?ps)) with (coords_of ps).
  set (ps1 := decode_model frames projectionSize mask thr1).
  set (ps2 := decode_model frames projectionSize mask thr2).
  assert (Hrel : Forall2 (fun s1 s2 =>
                    (px_x s1 = px_x s2 /\ px_y s1 = px_y s2) /\
                    px_error s1 <= px_error s2) ps1 ps2).
  { apply Forall2_same_length_lookup_2.
    - subst ps1 ps2. by rewrite !decode_model_length.
    - intros p s1 s2 Hs1 Hs2.
      pose proof (lookup_lt_Some _ _ _ Hs1) as Hlt. subst ps1 ps2.
      rewrite decode_model_length in Hlt by done.
      rewrite (decode_model_lookup frames projectionSize mask thr1 p Hvalid Hlt)
        in Hs1.
      rewrite (decode_model_lookup frames projectionSize mask thr2 p Hvalid Hlt)
        in Hs2.
      cbn zeta in Hs1, Hs2. inversion Hs1; subst. inversion Hs2; subst.
      clear Hs1 Hs2.
      destruct (pixel_fold_threshold 0 thr1 thr2 mask p
                  (column_planes frames (column_frame_count (width projectionSize)))
                  Hle (mkPixel 0 0 false 0) (mkPixel 0 0 false 0)
                  eq_refl eq_refl eq_refl ltac:(cbn; lia))
        as (Hx & Hy & Ht & He).
      cbn zeta in Hx, Hy, Ht, He.
      destruct (pixel_fold_threshold 1 thr1 thr2 mask p
                  (row_planes frames (column_frame_count (width projectionSize)))
                  Hle (clear_temp _) (clear_temp _) Hx Hy eq_refl He)
        as (Hx' & Hy' & _ & He').
      cbn zeta in Hx', Hy', He'. done. }
  split; [|split].
  - apply coords_of_ext. eapply list.Forall2_impl; [exact Hrel|]. by intros ? ? [? _].
  - apply Forall2_fmap. eapply list.Forall2_impl; [exact Hrel|]. by intros ? ? [_ ?].
  - apply tolerance_model_anti. intros l. apply cumulative_anti.
    apply Forall2_fmap. eapply list.Forall2_impl; [exact Hrel|]. by intros ? ? [_ ?].
Qed.

Lemma threshold_only_raises_error_levels_witness :
  exists o1 o2 : Outcome,
    getCameraProjectionPairs_run 200 [] [] (scenario_with_blank_pair 2)
      scenario_size scenario_mask 50 0 = Some o1 /\
    getCameraProjectionPairs_run 200 [] [] (scenario_with_blank_pair 2)
      scenario_size scenario_mask 50 10 = Some o2 /\
    coordinates (decoded o1) = coordinates (decoded o2) /\
    tolerance o1 <= tolerance o2.
Proof.
  destruct (threshold_only_raises_error_levels 200 [] []
              (scenario_with_blank_pair 2) scenario_size scenario_mask 50 0 10)
    as (o1 & o2 & Hrun1 & Hrun2 & Hc & _ & Ht).
  - vm_compute. reflexivity.
  - vm_compute. lia.
  - lia.
  - exists o1, o2. split; [exact Hrun1|]. split; [exact Hrun2|].
    split; [exact Hc | exact Ht].
Defined.

Lemma tolerance_model_mono (err : list Z) (min1 min2 : Z) :
  min1 <= min2 -> tolerance_model err min1 <= tolerance_model err min2.
Proof.
  intros Hle. unfold tolerance_model.
  destruct (Z.leb_spec min1 (cumulative err 0)),
    (Z.leb_spec min1 (cumulative err 1)),
    (Z.leb_spec min1 (cumulative err 2)),
    (Z.leb_spec min1 (cumulative err 3)),
    (Z.leb_spec min2 (cumulative err 0)),
    (Z.leb_spec min2 (cumulative err 1)),
    (Z.leb_spec min2 (cumulative err 2)),
    (Z.leb_spec min2 (cumulative err 3)); lia.
Qed.

Lemma scan_model_mono (ps : list PixelState) (projectionSize : Size)
    (t1 t2 : Z) (w h : nat) :
  t1 <= t2 ->
  scan_model ps projectionSize t1 w h
    `sublist_of` scan_model ps projectionSize t2 w h.
Proof.
  intros Hle. unfold scan_model. apply seq_bind_sublist. intros y _.
  apply seq_bind_sublist. intros x _. unfold scan_point.
  destruct (ps !! (y * w + x)%nat) as [s|]; [|done].
  destruct (qualifies projectionSize t1 s) eqn:Hq; [|apply sublist_nil_l].
  apply qualifies_spec in Hq as (Hx & Hy & He).
  rewrite (proj2 (qualifies_spec projectionSize t2 s)) by (repeat split; lia).
  done.
Qed.

(** X21. Asking for more points never loses one: of two calls on the
    same valid capture with [min1 <= min2], the pairs returned for [min1]
    are a sub-sequence, in the same order, of the pairs returned for
    [min2]. *)
Theorem larger_minPointCount_keeps_every_pair (fuel : nat)
    (frames : list (Mat Z)) (projectionSize : Size) (mask : Mat Z)
    (min1 min2 thr : Z) :
  valid_input frames projectionSize mask = true ->
  enough_fuel fuel frames ->
  min1 <= min2 ->
  exists cam1 proj1 cam2 proj2 : list Point,
    getCameraProjectionPairs fuel [] [] frames projectionSize mask min1 thr
      = Some (cam1, proj1) /\
    getCameraProjectionPairs fuel [] [] frames projectionSize mask min2 thr
      = Some (cam2, proj2) /\
    zip cam1 proj1 `sublist_of` zip cam2 proj2.
Proof.
  intros Hvalid Hfuel Hle. unfold getCameraProjectionPairs.
  rewrite !(run_model fuel [] [] frames projectionSize mask _ thr Hvalid Hfuel).
  cbn [mbind option_bind outcome_model out_camera out_projection app].
  eexists _, _, _, _. split; [done|]. split; [done|].
  rewrite !zip_fst_snd. apply scan_model_mono. by apply tolerance_model_mono.
Qed.

Lemma larger_minPointCount_keeps_every_pair_witness :
  exists cam1 proj1 cam2 proj2 : list Point,
    getCameraProjectionPairs 200 [] [] (scenario_with_blank_pair 4)
      scenario_size scenario_mask 50 10 = Some (cam1, proj1) /\
    getCameraProjectionPairs 200 [] [] (scenario_with_blank_pair 4)
      scenario_size scenario_mask 120 10 = Some (cam2, proj2) /\
    zip cam1 proj1 `sublist_of` zip cam2 proj2.
Proof.
  apply (larger_minPointCount_keeps_every_pair 200 (scenario_with_blank_pair 4)
           scenario_size scenario_mask 50 120 10).
  - vm_compute. reflexivity.
  - vm_compute. lia.
  - lia.
Defined.
